(** * Symbol-table extractor for OWL/RDF ontologies: model and properties

    A shallow embedding of [extractorjson.py].  The RDF graph is the list of
    its triples in the store's iteration order; Python dictionaries are
    insertion-ordered association lists; loops and the recursion of
    [summarize_expression] are driven by a fuel counter, [None] meaning that
    the fuel ran out before the Python code would have returned. *)

From Stdlib Require Import List String Ascii Bool Arith Lia Relations FinFun Sorted.
Import ListNotations.
Open Scope string_scope.
Open Scope list_scope.

Set Implicit Arguments.

(** ** RDF terms and graphs *)

Definition IRI := string.

(** The three kinds of RDF term held by a graph (rdflib's [URIRef], [BNode]
    and [Literal]).  A literal keeps its datatype and language tag; [str]
    drops them. *)
Inductive node : Type :=
| URIRef (i : IRI)
| BNode (id : string)
| Literal (lex : string) (datatype : option IRI) (lang : option string).

(** A value handed to a function of the program: a graph node, Python's
    [None], or some object that is not an RDF term at all. *)
Inductive pyobj : Type :=
| Node (n : node)
| PyNone
| Foreign (repr : string).

Record triple : Type := T { subj : node; pred : IRI; obj : node }.

Definition graph := list triple.

Definition node_eq_dec (a b : node) : {a = b} + {a <> b}.
Proof.
  repeat decide equality.
Defined.

Definition node_eqb (a b : node) : bool :=
  if node_eq_dec a b then true else false.

Definition triple_eq_dec (a b : triple) : {a = b} + {a <> b}.
Proof.
  decide equality; first [apply node_eq_dec | apply string_dec].
Defined.

Definition str (n : node) : string :=
  match n with
  | URIRef i => i
  | BNode id => id
  | Literal lex _ _ => lex
  end.

Definition is_URIRef (n : node) : bool :=
  match n with URIRef _ => true | _ => false end.

Definition is_BNode (n : node) : bool :=
  match n with BNode _ => true | _ => false end.

Definition is_Literal (n : node) : bool :=
  match n with Literal _ _ _ => true | _ => false end.

(** ** Vocabulary *)

Module RDF.
Definition ns := "http://www.w3.org/1999/02/22-rdf-syntax-ns#".
Definition type := (ns ++ "type")%string.
Definition first := (ns ++ "first")%string.
Definition rest := (ns ++ "rest")%string.
Definition nil := (ns ++ "nil")%string.
End RDF.

Module RDFS.
Definition ns := "http://www.w3.org/2000/01/rdf-schema#".
Definition subClassOf := (ns ++ "subClassOf")%string.
Definition domain := (ns ++ "domain")%string.
Definition range := (ns ++ "range")%string.
Definition subPropertyOf := (ns ++ "subPropertyOf")%string.
Definition label := (ns ++ "label")%string.
Definition comment := (ns ++ "comment")%string.
Definition seeAlso := (ns ++ "seeAlso")%string.
End RDFS.

Module OWL.
Definition ns := "http://www.w3.org/2002/07/owl#".
Definition Class := (ns ++ "Class")%string.
Definition ObjectProperty := (ns ++ "ObjectProperty")%string.
Definition DatatypeProperty := (ns ++ "DatatypeProperty")%string.
Definition AnnotationProperty := (ns ++ "AnnotationProperty")%string.
Definition Restriction := (ns ++ "Restriction")%string.
Definition equivalentClass := (ns ++ "equivalentClass")%string.
Definition inverseOf := (ns ++ "inverseOf")%string.
Definition onProperty := (ns ++ "onProperty")%string.
Definition someValuesFrom := (ns ++ "someValuesFrom")%string.
Definition allValuesFrom := (ns ++ "allValuesFrom")%string.
Definition hasValue := (ns ++ "hasValue")%string.
Definition minQualifiedCardinality := (ns ++ "minQualifiedCardinality")%string.
Definition maxQualifiedCardinality := (ns ++ "maxQualifiedCardinality")%string.
Definition qualifiedCardinality := (ns ++ "qualifiedCardinality")%string.
Definition minCardinality := (ns ++ "minCardinality")%string.
Definition maxCardinality := (ns ++ "maxCardinality")%string.
Definition cardinality := (ns ++ "cardinality")%string.
Definition intersectionOf := (ns ++ "intersectionOf")%string.
Definition unionOf := (ns ++ "unionOf")%string.
Definition complementOf := (ns ++ "complementOf")%string.
Definition oneOf := (ns ++ "oneOf")%string.
Definition FunctionalProperty := (ns ++ "FunctionalProperty")%string.
Definition InverseFunctionalProperty := (ns ++ "InverseFunctionalProperty")%string.
Definition TransitiveProperty := (ns ++ "TransitiveProperty")%string.
Definition SymmetricProperty := (ns ++ "SymmetricProperty")%string.
Definition AsymmetricProperty := (ns ++ "AsymmetricProperty")%string.
Definition ReflexiveProperty := (ns ++ "ReflexiveProperty")%string.
Definition IrreflexiveProperty := (ns ++ "IrreflexiveProperty")%string.
End OWL.

Module SKOS.
Definition ns := "http://www.w3.org/2004/02/skos/core#".
Definition prefLabel := (ns ++ "prefLabel")%string.
Definition altLabel := (ns ++ "altLabel")%string.
End SKOS.

(** ** Graph queries (the part of rdflib's [Graph] the program uses) *)

(** [(s, p, o) in g] *)
Definition contains (g : graph) (s : node) (p : IRI) (o : node) : bool :=
  if in_dec triple_eq_dec (T s p o) g then true else false.

(** [g.objects(s, p)], in iteration order *)
Definition objects (g : graph) (s : node) (p : IRI) : list node :=
  map obj (filter (fun t => node_eqb (subj t) s && String.eqb (pred t) p) g).

(** [g.value(s, p)]: the first object, or [None] *)
Definition value (g : graph) (s : node) (p : IRI) : option node :=
  hd_error (objects g s p).

(** [g.predicate_objects(s)] *)
Definition predicate_objects (g : graph) (s : node) : list (IRI * node) :=
  map (fun t => (pred t, obj t)) (filter (fun t => node_eqb (subj t) s) g).

(** [g.subjects(p, o)] with both positions bound *)
Definition subjects (g : graph) (p : IRI) (o : node) : list node :=
  map subj (filter (fun t => String.eqb (pred t) p && node_eqb (obj t) o) g).

(** [g.subjects(p, None)] *)
Definition subjects_of_pred (g : graph) (p : IRI) : list node :=
  map subj (filter (fun t => String.eqb (pred t) p) g).

(** [g.subjects()] *)
Definition all_subjects (g : graph) : list node := map subj g.

(** [(s, p, None) in g] *)
Definition has_pred (g : graph) (s : node) (p : IRI) : bool :=
  existsb (fun t => node_eqb (subj t) s && String.eqb (pred t) p) g.

(** ** Python values and dictionaries *)

(** JSON-like values built by the program: [None], strings, lists and
    dictionaries (insertion-ordered, keys unique). *)
#[warnings="-register-all"]
Inductive pyval : Type :=
| PNone
| PStr (s : string)
| PList (l : list pyval)
| PDict (d : list (string * pyval)).

Section Dict.
Variable V : Type.

Definition dict := list (string * V).

Fixpoint dict_get (k : string) (d : dict) : option V :=
  match d with
  | [] => None
  | (k', v) :: d' => if String.eqb k' k then Some v else dict_get k d'
  end.

(** [d[k] = v] *)
Fixpoint dict_set (k : string) (v : V) (d : dict) : dict :=
  match d with
  | [] => [(k, v)]
  | (k', v') :: d' =>
      if String.eqb k' k then (k', v) :: d' else (k', v') :: dict_set k v d'
  end.

Definition dict_keys (d : dict) : list string := map fst d.
Definition dict_values (d : dict) : list V := map snd d.
End Dict.

(** [d.setdefault(k, []).append(v)] *)
Definition setdefault_append (k : string) (v : string)
    (d : dict (list string)) : dict (list string) :=
  match dict_get k d with
  | Some l => dict_set k (l ++ [v]) d
  | None => dict_set k [v] d
  end.

(** [fq]: the string form of a node, [None] for [None] *)
Definition fq (x : pyobj) : pyval :=
  match x with
  | Node n => PStr (str n)
  | PyNone => PNone
  | Foreign r => PStr r
  end.

Definition opt_node (o : option node) : pyobj :=
  match o with Some n => Node n | None => PyNone end.

(** The loop [for p,o in g.predicate_objects(s): d.setdefault(str(p),[]).append(fq(o))] *)
Definition group_pairs (pos : list (IRI * node)) : dict (list string) :=
  fold_left (fun d po => setdefault_append (fst po) (str (snd po)) d) pos [].

Definition strs_val (d : dict (list string)) : pyval :=
  PDict (map (fun kv => (fst kv, PList (map PStr (snd kv)))) d).

(** ** The extractor *)

Section Extractor.

(** Iterating [Collection(g, node)] (rdflib's list helper, not part of this
    program): the items it yields and whether it then raised. *)
Variable Collection_items : graph -> node -> list node * bool.

(** Truth value of a literal ([Literal.__bool__], which looks at the typed
    value). *)
Variable Literal_bool : string -> option IRI -> option string -> bool.

(** Iteration order of [set(l)]: unspecified by Python. *)
Variable set_iter : list node -> list node.

(** Truth value of a node in [while cur ...]: identifiers are strings, so
    the empty one is false. *)
Definition truthy (n : node) : bool :=
  match n with
  | URIRef i => negb (String.eqb i "")
  | BNode id => negb (String.eqb id "")
  | Literal lex dt lg => Literal_bool lex dt lg
  end.

(** [get_literals_for_pred] *)
Definition get_literals_for_pred (g : graph) (subject : node)
    (preds : list IRI) : list string :=
  flat_map (fun p => map str (filter is_Literal (objects g subject p))) preds.

Definition structural_preds : list IRI :=
  [RDF.type; RDFS.subClassOf; OWL.equivalentClass; RDFS.domain; RDFS.range;
   RDFS.subPropertyOf].

(** [collect_annotations] *)
Definition collect_annotations (g : graph) (subject : node)
    : dict (list string) :=
  fold_left
    (fun ann po =>
       if existsb (String.eqb (fst po)) structural_preds then ann
       else setdefault_append (fst po) (str (snd po)) ann)
    (predicate_objects g subject) [].

(** The [while] loop in the [except] branch of [rdf_list_to_py]. *)
Fixpoint manual_walk (fuel : nat) (g : graph) (cur : node)
    (items : list node) : option (list node) :=
  match fuel with
  | 0 => None
  | S fuel' =>
      if truthy cur && negb (node_eqb cur (URIRef RDF.nil)) then
        match value g cur RDF.first with
        | None => Some items
        | Some first =>
            match value g cur RDF.rest with
            | None => Some (items ++ [first])
            | Some cur' => manual_walk fuel' g cur' (items ++ [first])
            end
        end
      else Some items
  end.

(** [rdf_list_to_py]: the items the helper yields; when it raises, the
    manual walk goes on appending to the same list. *)
Definition rdf_list_to_py (fuel : nat) (g : graph) (n : node)
    : option (list node) :=
  let (items, raised) := Collection_items g n in
  if raised then manual_walk fuel g n items else Some items.

Definition fillers : list (IRI * string) :=
  [(OWL.someValuesFrom, "someValuesFrom");
   (OWL.allValuesFrom, "allValuesFrom");
   (OWL.hasValue, "hasValue");
   (OWL.minQualifiedCardinality, "minQualifiedCardinality");
   (OWL.maxQualifiedCardinality, "maxQualifiedCardinality");
   (OWL.qualifiedCardinality, "qualifiedCardinality");
   (OWL.minCardinality, "minCardinality");
   (OWL.maxCardinality, "maxCardinality");
   (OWL.cardinality, "cardinality")].

(** The loop over the filler predicates of a restriction; [rec] is the
    recursive call. *)
Fixpoint fill (rec : pyobj -> option pyval) (g : graph) (n : node)
    (ps : list (IRI * string)) (res : dict pyval) : option (dict pyval) :=
  match ps with
  | [] => Some res
  | (p, key) :: ps' =>
      match value g n p with
      | None => fill rec g n ps' res
      | Some val =>
          if is_BNode val || is_URIRef val then
            match rec (Node val) with
            | None => None
            | Some v => fill rec g n ps' (dict_set key v res)
            end
          else fill rec g n ps' (dict_set key (fq (Node val)) res)
      end
  end.

(** [[rec(i) for i in items]] *)
Fixpoint map_opt (rec : pyobj -> option pyval) (items : list node)
    : option (list pyval) :=
  match items with
  | [] => Some []
  | i :: items' =>
      match rec (Node i) with
      | None => None
      | Some v =>
          match map_opt rec items' with
          | None => None
          | Some vs => Some (v :: vs)
          end
      end
  end.

(** An operand list reached through [link]: materialise, then summarise
    each element. *)
Definition list_record (rec : pyobj -> option pyval) (fuel : nat)
    (g : graph) (tag field : string) (head : node) : option pyval :=
  match rdf_list_to_py fuel g head with
  | None => None
  | Some items =>
      match map_opt rec items with
      | None => None
      | Some vs => Some (PDict [("exprType", PStr tag); (field, PList vs)])
      end
  end.

(** [summarize_expression] *)
Fixpoint summarize_expression (fuel : nat) (g : graph) (x : pyobj)
    : option pyval :=
  match fuel with
  | 0 => None
  | S fuel' =>
      match x with
      | Node (URIRef i) =>
          Some (PDict [("exprType", PStr "Named"); ("iri", PStr i)])
      | Node (Literal lex _ _) =>
          Some (PDict [("exprType", PStr "Literal"); ("value", PStr lex)])
      | Node (BNode _ as n) =>
          if contains g n RDF.type (URIRef OWL.Restriction)
             || match value g n OWL.onProperty with Some _ => true | None => false end
          then
            let on_prop := value g n OWL.onProperty in
            match fill (summarize_expression fuel' g) g n fillers
                    [("exprType", PStr "Restriction");
                     ("onProperty", fq (opt_node on_prop))] with
            | None => None
            | Some res => Some (PDict res)
            end
          else
          match value g n OWL.intersectionOf with
          | Some inter =>
              list_record (summarize_expression fuel' g) fuel' g
                "Intersection" "operands" inter
          | None =>
          match value g n OWL.unionOf with
          | Some union =>
              list_record (summarize_expression fuel' g) fuel' g
                "Union" "operands" union
          | None =>
          match value g n OWL.complementOf with
          | Some comp =>
              match summarize_expression fuel' g (Node comp) with
              | None => None
              | Some v =>
                  Some (PDict [("exprType", PStr "Complement"); ("operand", v)])
              end
          | None =>
          match value g n OWL.oneOf with
          | Some oneof =>
              list_record (summarize_expression fuel' g) fuel' g
                "OneOf" "members" oneof
          | None =>
              Some (PDict [("exprType", PStr "BNode");
                           ("props", strs_val (group_pairs (predicate_objects g n)))])
          end end end end
      | _ => Some (PDict [("exprType", PStr "Unknown"); ("value", fq x)])
      end
  end.

Definition characteristic_classes : list (IRI * string) :=
  [(OWL.FunctionalProperty, "Functional");
   (OWL.InverseFunctionalProperty, "InverseFunctional");
   (OWL.TransitiveProperty, "Transitive");
   (OWL.SymmetricProperty, "Symmetric");
   (OWL.AsymmetricProperty, "Asymmetric");
   (OWL.ReflexiveProperty, "Reflexive");
   (OWL.IrreflexiveProperty, "Irreflexive")].

(** [extract_property_characteristics]: seven tests in a row, each
    appending its tag. *)
Definition extract_property_characteristics (g : graph) (prop : node)
    : list string :=
  let chars := [] in
  let chars := if contains g prop RDF.type (URIRef OWL.FunctionalProperty)
               then chars ++ ["Functional"] else chars in
  let chars := if contains g prop RDF.type (URIRef OWL.InverseFunctionalProperty)
               then chars ++ ["InverseFunctional"] else chars in
  let chars := if contains g prop RDF.type (URIRef OWL.TransitiveProperty)
               then chars ++ ["Transitive"] else chars in
  let chars := if contains g prop RDF.type (URIRef OWL.SymmetricProperty)
               then chars ++ ["Symmetric"] else chars in
  let chars := if contains g prop RDF.type (URIRef OWL.AsymmetricProperty)
               then chars ++ ["Asymmetric"] else chars in
  let chars := if contains g prop RDF.type (URIRef OWL.ReflexiveProperty)
               then chars ++ ["Reflexive"] else chars in
  let chars := if contains g prop RDF.type (URIRef OWL.IrreflexiveProperty)
               then chars ++ ["Irreflexive"] else chars in
  chars.

(** One record of the symbol table (the dictionary built for a term). *)
Record entry : Type := Entry {
  iri : string;
  types : list string;
  labels : list string;
  altLabels : list string;
  comments : list string;
  annotations : dict (list string);
  domains : list string;
  ranges : list string;
  subClassOf : list pyval;
  equivalentClass : list pyval;
  propertyCharacteristics : list string;
  subPropertyOf : list string;
  inverseOf : list string;
  individualTypes : list string
}.

Definition default_entry (i : string) : entry :=
  Entry i [] [] [] [] [] [] [] [] [] [] [] [] [].

(** [if x not in l: l.append(x)] *)
Definition append_new (x : string) (l : list string) : list string :=
  if in_dec string_dec x l then l else l ++ [x].

(** [for x in xs: if x not in l: l.append(x)] *)
Definition extend_new (xs l : list string) : list string :=
  fold_left (fun l x => append_new x l) xs l.

(** The loop merging the collected annotations into the record. *)
Definition merge_annotations (ann d : dict (list string))
    : dict (list string) :=
  fold_left
    (fun d kv =>
       let lst := match dict_get (fst kv) d with Some l => l | None => [] end in
       dict_set (fst kv) (extend_new (snd kv) lst) d)
    ann d.

Definition is_property_role (cat : string) : bool :=
  existsb (String.eqb cat)
    ["ObjectProperty"; "DatatypeProperty"; "AnnotationProperty"].

(** The body of the loop [for cat, node in terms] of [gather_terms], from
    the record fetched for the term to the record stored back. *)
Definition process_term (fuel : nat) (g : graph) (cat : string) (n : node)
    (e : entry) : option entry :=
  let types' := append_new cat (types e) in
  let labels' :=
    extend_new (get_literals_for_pred g n [RDFS.label; SKOS.prefLabel]) (labels e) in
  let altLabels' :=
    extend_new (get_literals_for_pred g n [SKOS.altLabel]) (altLabels e) in
  let comments' :=
    extend_new (get_literals_for_pred g n [RDFS.comment]) (comments e) in
  let annotations' :=
    merge_annotations (collect_annotations g n) (annotations e) in
  let prop := is_property_role cat in
  let domains' :=
    if prop then extend_new (map str (objects g n RDFS.domain)) (domains e)
    else domains e in
  let ranges' :=
    if prop then extend_new (map str (objects g n RDFS.range)) (ranges e)
    else ranges e in
  let subPropertyOf' :=
    if prop then extend_new (map str (objects g n RDFS.subPropertyOf)) (subPropertyOf e)
    else subPropertyOf e in
  let inverseOf' :=
    if prop then extend_new (map str (objects g n OWL.inverseOf)) (inverseOf e)
    else inverseOf e in
  let characteristics' :=
    if prop then extract_property_characteristics g n
    else propertyCharacteristics e in
  match (if String.eqb cat "Class"
         then map_opt (summarize_expression fuel g) (objects g n RDFS.subClassOf)
         else Some []) with
  | None => None
  | Some sups =>
      match (if String.eqb cat "Class"
             then map_opt (summarize_expression fuel g) (objects g n OWL.equivalentClass)
             else Some []) with
      | None => None
      | Some eqs =>
          let individualTypes' :=
            if String.eqb cat "Individual"
            then individualTypes e ++ map str (objects g n RDF.type)
            else individualTypes e in
          Some (Entry (iri e) types' labels' altLabels' comments' annotations'
                  domains' ranges' (subClassOf e ++ sups)
                  (equivalentClass e ++ eqs) characteristics'
                  subPropertyOf' inverseOf' individualTypes')
      end
  end.

Definition term := (string * node)%type.

Definition in_terms (s : node) (terms : list term) : bool :=
  existsb (fun t => node_eqb (snd t) s) terms.

Definition typed_subjects (g : graph) (cat : string) (cls : IRI) : list term :=
  map (pair cat) (filter is_URIRef (set_iter (subjects g RDF.type (URIRef cls)))).

(** The first half of [gather_terms]: the list [terms] of (role, node). *)
Definition discover_terms (g : graph) : list term :=
  let terms := typed_subjects g "Class" OWL.Class in
  let terms :=
    fold_left
      (fun terms subj =>
         if is_URIRef subj
            && (has_pred g subj RDFS.subClassOf || has_pred g subj OWL.equivalentClass)
         then if in_terms subj terms then terms else terms ++ [("Class", subj)]
         else terms)
      (set_iter (all_subjects g)) terms in
  let terms := terms ++ typed_subjects g "ObjectProperty" OWL.ObjectProperty in
  let terms := terms ++ typed_subjects g "DatatypeProperty" OWL.DatatypeProperty in
  let terms := terms ++ typed_subjects g "AnnotationProperty" OWL.AnnotationProperty in
  fold_left
    (fun terms s =>
       if is_URIRef s then
         if in_terms s terms then terms
         else match objects g s RDF.type with
              | [] => terms
              | _ :: _ => terms ++ [("Individual", s)]
              end
       else terms)
    (set_iter (subjects_of_pred g RDF.type)) terms.

(** The second half: one pass over [terms], filling [symbol_entries]. *)
Fixpoint process_terms (fuel : nat) (g : graph) (terms : list term)
    (symbol_entries : dict entry) : option (dict entry) :=
  match terms with
  | [] => Some symbol_entries
  | (cat, n) :: terms' =>
      let i := str n in
      let e := match dict_get i symbol_entries with
               | Some e => e
               | None => default_entry i
               end in
      match process_term fuel g cat n e with
      | None => None
      | Some e' => process_terms fuel g terms' (dict_set i e' symbol_entries)
      end
  end.

(** [gather_terms] *)
Definition gather_terms (fuel : nat) (g : graph) : option (list entry) :=
  match process_terms fuel g (discover_terms g) [] with
  | None => None
  | Some symbol_entries => Some (dict_values symbol_entries)
  end.

(** *** The command line *)

Record document : Type := Document {
  sourceFile : string;
  termCount : nat;
  terms : list entry
}.

Inductive printed : Type := Txt (s : string) | Num (n : nat).

(** What a run leaves behind: a line on standard output, the output file
    written in full, or the output file opened and left incomplete. *)
Inductive effect : Type :=
| Stdout (args : list printed)
| WriteFile (path : string) (doc : document)
| PartialFile (path : string).

(** The [with open(outfile, "w") ...: json.dump(...)] block: it completes,
    [open] raises (no file), or [json.dump] raises on the opened file. *)
Inductive write_outcome : Type :=
| Written
| NotOpened
| Interrupted.

(** How a run ends: [main] returns, [sys.exit] is called, an exception
    reaches the top level, or the fuel runs out before any of these. *)
Inductive ending : Type :=
| Returned
| SysExit (code : nat)
| Raised
| Unfinished.

(** The exit status of the process; none while it has not ended. *)
Definition exit_status (e : ending) : option nat :=
  match e with
  | Returned => Some 0
  | SysExit c => Some c
  | Raised => Some 1
  | Unfinished => None
  end.

(** [g.parse(infile)]: the parsed graph, or [None] when it raises. *)
Variable parse : string -> option graph.

Definition usage : string :=
  "Usage: python3 extract_full_symbol_table.py /path/to/ontology.ttl [out.json]".

(** What happens when the program writes a document to a path. *)
Variable try_write : string -> document -> write_outcome.

(** [main]: the effects performed, in order, and how the run ends. *)
Definition main (fuel : nat) (argv : list string) : list effect * ending :=
  match argv with
  | [] | [_] => ([Stdout [Txt usage]], SysExit 1)
  | _ :: infile :: more =>
      let outfile := match more with
                     | o :: _ => o
                     | [] => "symbol_table_full.json"
                     end in
      let out1 := [Stdout [Txt "Parsing:"; Txt infile]] in
      match parse infile with
      | None => (out1, Raised)
      | Some g =>
          let out2 := out1 ++ [Stdout [Txt "Graph parsed. Triples:"; Num (List.length g)]] in
          match gather_terms fuel g with
          | None => (out2, Unfinished)
          | Some ts =>
              let out := Document infile (List.length ts) ts in
              match try_write outfile out with
              | NotOpened => (out2, Raised)
              | Interrupted => (out2 ++ [PartialFile outfile], Raised)
              | Written =>
                  (out2 ++ [WriteFile outfile out;
                            Stdout [Txt "Wrote"; Txt outfile; Txt "with";
                                    Num (List.length ts); Txt "term entries."]],
                   Returned)
              end
          end
      end
  end.

End Extractor.

Arguments default_entry i : clear implicits.

(** ** A model of rdflib's list helper

    [Graph.items], which iterating a [Collection] runs: follow [rdf:rest]
    from the head, yield every [rdf:first] value, and raise when a cell comes
    back a second time.  The walk visits each cell once, so it is given one
    step per triple and two more. *)

Fixpoint graph_items (fuel : nat) (truth : node -> bool) (g : graph)
    (chain : list node) (cur : option node) (items : list node)
    : list node * bool :=
  match fuel, cur with
  | 0, _ => (items, false)
  | _, None => (items, false)
  | S fuel', Some l =>
      if truth l then
        let items' := match value g l RDF.first with
                      | Some item => items ++ [item]
                      | None => items
                      end in
        match value g l RDF.rest with
        | Some l' =>
            if in_dec node_eq_dec l' chain then (items', true)
            else graph_items fuel' truth g (l' :: chain) (Some l') items'
        | None => (items', false)
        end
      else (items, false)
  end.

Definition plain_bool (lex : string) (_ : option IRI) (_ : option string) : bool :=
  negb (String.eqb lex "").

Definition rdflib_items (g : graph) (n : node) : list node * bool :=
  graph_items (S (S (List.length g))) (truthy plain_bool) g [n] (Some n) [].

(** A file system where every write completes, and one with a single
    directory that does not exist. *)
Definition always_written (_ : string) (_ : document) : write_outcome := Written.

Definition no_such_dir (path : string) (_ : document) : write_outcome :=
  if String.prefix "no_such_dir/" path then NotOpened else Written.

(** A device that fills up while the document is being dumped. *)
Definition disk_full (_ : string) (_ : document) : write_outcome := Interrupted.

(** One possible iteration order of a set: duplicates dropped, the rest in
    the order of the list. *)
Definition some_order (l : list node) : list node := nodup node_eq_dec l.

(** ** Links followed by the summarizer, and graphs without cycles *)

(** The predicates along which [summarize_expression] and the list walk move
    from one node to the next. *)
Definition link_preds : list IRI :=
  map fst fillers
  ++ [OWL.intersectionOf; OWL.unionOf; OWL.complementOf; OWL.oneOf;
      RDF.first; RDF.rest].

Definition link (g : graph) (a b : node) : Prop :=
  exists p, In p link_preds /\ In (T a p b) g.

Definition reaches (g : graph) : node -> node -> Prop :=
  clos_trans node (link g).

(** No node reaches itself through restriction fillers, boolean
    combinators and list cells. *)
Definition acyclic (g : graph) : Prop := forall n, ~ reaches g n n.

(** What is assumed of the list helper: it yields only values found in the
    cells of the list it is given. *)
Definition follows_links (C : graph -> node -> list node * bool) : Prop :=
  forall g n x, In x (fst (C g n)) -> reaches g n x.

(** The nodes under treatment, innermost first: pairwise distinct, each one
    a subject of the graph that reaches the current node. *)
Definition on_stack (g : graph) (path : list node) (cur : node) : Prop :=
  NoDup path
  /\ (forall p, In p path -> reaches g p cur)
  /\ incl path (map subj g).

(** ** Auxiliary notions for the statements *)

Definition values_of (p : IRI) (pos : list (IRI * node)) : list string :=
  map (fun po => str (snd po)) (filter (fun po => String.eqb (fst po) p) pos).

(** What the filler loop stores under the key of a filler predicate; [rec]
    is the recursive call. *)
Definition filler_field (rec : pyobj -> option pyval) (g : graph) (n : node)
    (p : IRI) : option pyval :=
  match value g n p with
  | None => None
  | Some val =>
      if is_BNode val || is_URIRef val then rec (Node val)
      else Some (PStr (str val))
  end.

Definition present (g : graph) (n : node) (pk : IRI * string) : bool :=
  match value g n (fst pk) with Some _ => true | None => false end.

(** ** The dispatch of the summarizer, in the words of the specification *)

Inductive shape : Type :=
| SNamed | SLiteral | SRestriction | SIntersection | SUnion | SComplement
| SOneOf | SBNode | SUnknown.

Definition shape_tag (s : shape) : string :=
  match s with
  | SNamed => "Named"
  | SLiteral => "Literal"
  | SRestriction => "Restriction"
  | SIntersection => "Intersection"
  | SUnion => "Union"
  | SComplement => "Complement"
  | SOneOf => "OneOf"
  | SBNode => "BNode"
  | SUnknown => "Unknown"
  end.

Definition is_named (x : pyobj) : bool :=
  match x with Node (URIRef _) => true | _ => false end.

Definition is_literal (x : pyobj) : bool :=
  match x with Node (Literal _ _ _) => true | _ => false end.

Definition is_anonymous (x : pyobj) : bool :=
  match x with Node (BNode _) => true | _ => false end.

(** The graph declares [x] to be of class [cls]. *)
Definition declared (g : graph) (x : pyobj) (cls : IRI) : bool :=
  match x with
  | Node n => existsb (fun t => if triple_eq_dec t (T n RDF.type (URIRef cls)) then true else false) g
  | _ => false
  end.

(** [x] is the subject of some triple with predicate [p]. *)
Definition bears (g : graph) (x : pyobj) (p : IRI) : bool :=
  match x with
  | Node n => existsb (fun t => node_eqb (subj t) n && String.eqb (pred t) p) g
  | _ => false
  end.

(** First matching rule, in the order of the specification. *)
Definition classify (g : graph) (x : pyobj) : shape :=
  if is_named x then SNamed
  else if is_literal x then SLiteral
  else if declared g x OWL.Restriction || bears g x OWL.onProperty then SRestriction
  else if bears g x OWL.intersectionOf then SIntersection
  else if bears g x OWL.unionOf then SUnion
  else if bears g x OWL.complementOf then SComplement
  else if bears g x OWL.oneOf then SOneOf
  else if is_anonymous x then SBNode
  else SUnknown.

(** The filler fields a record holds. *)
Definition filler_fields (d : dict pyval) : list string :=
  filter (fun k => match dict_get k d with Some _ => true | None => false end)
    (map snd fillers).

(** ** Sample ontologies *)

Definition ex (s : string) : node := URIRef ("http://example.org/" ++ s)%string.

(** Acyclicity of a concrete graph is checked with a rank that every link
    decreases. *)
Definition ranked (rank : node -> nat) (g : graph) : bool :=
  forallb
    (fun t =>
       if in_dec string_dec (pred t) link_preds
       then Nat.ltb (rank (obj t)) (rank (subj t))
       else true)
    g.

Definition rank_table (tbl : list (node * nat)) (n : node) : nat :=
  match find (fun e => node_eqb (fst e) n) tbl with
  | Some e => snd e
  | None => 0
  end.

(** Classes, a restriction, a union over a two-element list, an individual
    and an object property. *)
Definition zoo : graph :=
  [ T (ex "Dog") RDF.type (URIRef OWL.Class);
    T (ex "Dog") RDFS.label (Literal "dog" None (Some "en"));
    T (ex "Dog") RDFS.subClassOf (BNode "r1");
    T (BNode "r1") RDF.type (URIRef OWL.Restriction);
    T (BNode "r1") OWL.onProperty (ex "hasOwner");
    T (BNode "r1") OWL.someValuesFrom (ex "Person");
    T (ex "Pet") OWL.equivalentClass (BNode "u");
    T (BNode "u") OWL.unionOf (BNode "l1");
    T (BNode "l1") RDF.first (ex "Cat");
    T (BNode "l1") RDF.rest (BNode "l2");
    T (BNode "l2") RDF.first (ex "Dog");
    T (BNode "l2") RDF.rest (URIRef RDF.nil);
    T (ex "Fido") RDF.type (ex "Dog");
    T (ex "Fido") RDF.type (ex "Pet");
    T (ex "hasOwner") RDF.type (URIRef OWL.ObjectProperty);
    T (ex "hasOwner") RDF.type (URIRef OWL.TransitiveProperty);
    T (ex "hasOwner") RDF.type (URIRef OWL.FunctionalProperty);
    T (ex "hasOwner") OWL.inverseOf (ex "owns");
    T (ex "Dog") RDFS.subClassOf (BNode "b");
    T (BNode "b") RDFS.comment (Literal "opaque" None None);
    T (BNode "b") RDFS.seeAlso (ex "Cat");
    T (ex "Dog") RDFS.subClassOf (BNode "r0");
    T (BNode "r0") RDF.type (URIRef OWL.Restriction);
    T (BNode "r0") OWL.maxCardinality
      (Literal "1" (Some "http://www.w3.org/2001/XMLSchema#nonNegativeInteger") None)
  ].

Definition zoo_rank : node -> nat :=
  rank_table [(BNode "u", 4); (BNode "l1", 3); (BNode "l2", 2);
              (BNode "r1", 1); (BNode "r0", 1)].

(** A self-restriction: valid OWL, with none of the nine fillers. *)
Definition narcissist : graph :=
  [ T (ex "Narcissist") RDF.type (URIRef OWL.Class);
    T (ex "Narcissist") RDFS.subClassOf (BNode "self");
    T (BNode "self") RDF.type (URIRef OWL.Restriction);
    T (BNode "self") OWL.onProperty (ex "likes");
    T (BNode "self") (OWL.ns ++ "hasSelf")%string
      (Literal "true" (Some "http://www.w3.org/2001/XMLSchema#boolean") None)
  ].

(** ** RDF lists as the graph holds them *)

Section Lists.
Variable Literal_bool : string -> option IRI -> option string -> bool.
Variable g : graph.

(** A node the walk treats as a list cell: true as a Python value, and not
    the nil marker. *)
Definition is_cell (c : node) : Prop :=
  truthy Literal_bool c = true /\ c <> URIRef RDF.nil.

(** [rdf_list c xs]: from [c], following rdf:rest, the cells hold [xs] as
    their rdf:first values and the chain ends in rdf:nil. *)
Inductive rdf_list : node -> list node -> Prop :=
| list_nil : rdf_list (URIRef RDF.nil) []
| list_cons c x c' xs :
    is_cell c -> value g c RDF.first = Some x -> value g c RDF.rest = Some c' ->
    rdf_list c' xs -> rdf_list c (x :: xs).

(** [truncated_list c xs]: the chain from [c] holds [xs] and then breaks
    off, either because the last cell has no rdf:rest or because the next
    cell has no rdf:first. *)
Inductive truncated_list : node -> list node -> Prop :=
| cut_no_rest c x :
    is_cell c -> value g c RDF.first = Some x -> value g c RDF.rest = None ->
    truncated_list c [x]
| cut_no_first c :
    is_cell c -> value g c RDF.first = None -> truncated_list c []
| cut_cons c x c' xs :
    is_cell c -> value g c RDF.first = Some x -> value g c RDF.rest = Some c' ->
    truncated_list c' xs -> truncated_list c (x :: xs).

End Lists.

(** ** Roles of a resource, in the words of the specification *)

(** What is assumed of the iteration of a Python set: every element once,
    in some order. *)
Definition set_semantics (set_iter : list node -> list node) : Prop :=
  forall l, NoDup (set_iter l) /\ forall x, In x (set_iter l) <-> In x l.

Definition typed (g : graph) (s : node) (cls : IRI) : Prop :=
  In (T s RDF.type (URIRef cls)) g.

(** Subject of a subClassOf or equivalentClass triple. *)
Definition class_by_usage (g : graph) (s : node) : Prop :=
  exists o, In (T s RDFS.subClassOf o) g \/ In (T s OWL.equivalentClass o) g.

Definition has_type (g : graph) (s : node) : Prop :=
  exists o, In (T s RDF.type o) g.

Inductive has_role (g : graph) (s : node) : string -> Prop :=
| role_class :
    typed g s OWL.Class \/ class_by_usage g s -> has_role g s "Class"
| role_object_property :
    typed g s OWL.ObjectProperty -> has_role g s "ObjectProperty"
| role_datatype_property :
    typed g s OWL.DatatypeProperty -> has_role g s "DatatypeProperty"
| role_annotation_property :
    typed g s OWL.AnnotationProperty -> has_role g s "AnnotationProperty"
| role_individual :
    has_type g s ->
    ~ typed g s OWL.Class -> ~ class_by_usage g s ->
    ~ typed g s OWL.ObjectProperty -> ~ typed g s OWL.DatatypeProperty ->
    ~ typed g s OWL.AnnotationProperty ->
    has_role g s "Individual".

(** The discovery criteria for a named resource. *)
Definition discovered (g : graph) (s : node) : Prop :=
  typed g s OWL.Class \/ typed g s OWL.ObjectProperty
  \/ typed g s OWL.DatatypeProperty \/ typed g s OWL.AnnotationProperty
  \/ class_by_usage g s \/ has_type g s.

(** ** Auxiliary notions for the term pass *)

(** The step of the two loops of [gather_terms] that add a term only when
    its node is not in the list yet. *)
Definition add_missing (cat : string) (cond : node -> bool)
    (terms : list term) (s : node) : list term :=
  if cond s then
    if in_terms s terms then terms else terms ++ [(cat, s)]
  else terms.

(** The conditions of those two loops. *)
Definition usage_cond (g : graph) (s : node) : bool :=
  is_URIRef s && (has_pred g s RDFS.subClassOf || has_pred g s OWL.equivalentClass).

Definition individual_cond (g : graph) (s : node) : bool :=
  is_URIRef s && match objects g s RDF.type with [] => false | _ :: _ => true end.

(** The terms gathered before the pass over the individuals. *)
Definition declared_terms (set_iter : list node -> list node) (g : graph)
    : list term :=
  fold_left (add_missing "Class" (usage_cond g)) (set_iter (all_subjects g))
    (typed_subjects set_iter g "Class" OWL.Class)
  ++ typed_subjects set_iter g "ObjectProperty" OWL.ObjectProperty
  ++ typed_subjects set_iter g "DatatypeProperty" OWL.DatatypeProperty
  ++ typed_subjects set_iter g "AnnotationProperty" OWL.AnnotationProperty.

(** The record stored for key [k], or the fresh one. *)
Definition entry_at (k : string) (es : dict entry) : entry :=
  match dict_get k es with
  | Some e => e
  | None => default_entry k
  end.

(** The loop body applied in turn to the terms of one resource. *)
Section RunTerms.
Variable Collection_items : graph -> node -> list node * bool.
Variable Literal_bool : string -> option IRI -> option string -> bool.

Fixpoint run_terms (fuel : nat) (g : graph) (ts : list term) (e : entry)
    : option entry :=
  match ts with
  | [] => Some e
  | (cat, n) :: ts' =>
      match process_term Collection_items Literal_bool fuel g cat n e with
      | None => None
      | Some e' => run_terms fuel g ts' e'
      end
  end.
End RunTerms.

(** A value [v] is listed under key [k]. *)
Definition listed (d : dict (list string)) (k v : string) : Prop :=
  exists vs, dict_get k d = Some vs /\ In v vs.

(** Two anonymous superclasses with the same description. *)
Definition twins : graph :=
  [ T (ex "Dog") RDF.type (URIRef OWL.Class);
    T (ex "Dog") RDFS.subClassOf (BNode "r1");
    T (BNode "r1") RDF.type (URIRef OWL.Restriction);
    T (BNode "r1") OWL.onProperty (ex "hasOwner");
    T (BNode "r1") OWL.someValuesFrom (ex "Person");
    T (ex "Dog") RDFS.subClassOf (BNode "r2");
    T (BNode "r2") RDF.type (URIRef OWL.Restriction);
    T (BNode "r2") OWL.onProperty (ex "hasOwner");
    T (BNode "r2") OWL.someValuesFrom (ex "Person")
  ].

(** [p] is one of the predicates the annotation collector skips. *)
Definition structural (p : IRI) : bool := existsb (String.eqb p) structural_preds.

(** ** Chains and expressions that feed on themselves *)

(** A set of list cells closed under rdf:rest, every cell with an rdf:first
    value: a walk that enters it never meets rdf:nil or a missing link. *)
Definition closed_chain
    (Literal_bool : string -> option IRI -> option string -> bool)
    (g : graph) (P : node -> Prop) : Prop :=
  forall c, P c ->
    is_cell Literal_bool c
    /\ (exists x, value g c RDF.first = Some x)
    /\ (exists c', value g c RDF.rest = Some c' /\ P c').

(** The test that opens the Restriction branch of [summarize_expression]. *)
Definition restriction_like (g : graph) (n : node) : bool :=
  contains g n RDF.type (URIRef OWL.Restriction)
  || match value g n OWL.onProperty with Some _ => true | None => false end.

(** A set of anonymous nodes in which every node is either a restriction
    with a filler in the set, or a complement (and no restriction,
    intersection or union) whose operand is in the set. *)
Definition self_feeding (g : graph) (P : node -> Prop) : Prop :=
  forall n, P n ->
    is_BNode n = true
    /\ ((restriction_like g n = true
         /\ exists p key val,
              In (p, key) fillers /\ value g n p = Some val /\ P val)
        \/ (classify g (Node n) = SComplement
            /\ exists val, value g n OWL.complementOf = Some val /\ P val)).

(** A list of one element whose second cell has no rdf:first and points
    back to the head. *)
Definition looping_list : graph :=
  [ T (BNode "c1") RDF.first (ex "Cat");
    T (BNode "c1") RDF.rest (BNode "c2");
    T (BNode "c2") RDF.rest (BNode "c1")
  ].

(** A list that never ends, and a restriction whose filler is itself. *)
Definition ouroboros : graph :=
  [ T (BNode "o") RDF.first (ex "Cat");
    T (BNode "o") RDF.rest (BNode "o");
    T (BNode "r") OWL.onProperty (ex "eats");
    T (BNode "r") OWL.allValuesFrom (BNode "r");
    T (BNode "k") OWL.complementOf (BNode "r")
  ].

(** ** The shape of expression records *)

(** The value of a field rendered by [fq]. *)
Definition fq_value (v : pyval) : Prop := v = PNone \/ exists s, v = PStr s.

(** The records of the nine kinds, nested records included.  The filler
    fields of a restriction come in the order of the nine predicates, each at
    most once, and hold a string or a record. *)
#[warnings="-register-all"]
Inductive expression_record : pyval -> Prop :=
| record_named i :
    expression_record (PDict [("exprType", PStr "Named"); ("iri", PStr i)])
| record_literal s :
    expression_record (PDict [("exprType", PStr "Literal"); ("value", PStr s)])
| record_unknown v :
    fq_value v ->
    expression_record (PDict [("exprType", PStr "Unknown"); ("value", v)])
| record_bnode props :
    expression_record (PDict [("exprType", PStr "BNode"); ("props", strs_val props)])
| record_restriction on (keep : IRI * string -> bool) fields :
    fq_value on ->
    map fst fields = map snd (filter keep fillers) ->
    Forall (fun kv => (exists s, snd kv = PStr s) \/ expression_record (snd kv))
      fields ->
    expression_record
      (PDict (("exprType", PStr "Restriction") :: ("onProperty", on) :: fields))
| record_operands tag vs :
    tag = "Intersection" \/ tag = "Union" ->
    Forall expression_record vs ->
    expression_record (PDict [("exprType", PStr tag); ("operands", PList vs)])
| record_members vs :
    Forall expression_record vs ->
    expression_record (PDict [("exprType", PStr "OneOf"); ("members", PList vs)])
| record_complement v :
    expression_record v ->
    expression_record (PDict [("exprType", PStr "Complement"); ("operand", v)]).

(** ** Notions for the fields of a record *)

(** The fields the gatherer fills through a membership test hold nothing
    twice; neither does any list of the annotations. *)
Definition deduplicated (e : entry) : Prop :=
  NoDup (labels e) /\ NoDup (altLabels e) /\ NoDup (comments e)
  /\ NoDup (domains e) /\ NoDup (ranges e)
  /\ NoDup (subPropertyOf e) /\ NoDup (inverseOf e)
  /\ NoDup (dict_keys (annotations e))
  /\ forall k vs, dict_get k (annotations e) = Some vs -> NoDup vs.

(** The record holds one of the three property roles. *)
Definition property_record (e : entry) : bool :=
  existsb is_property_role (types e).

(** The string forms of the objects of [p] on the resource of the record. *)
Definition object_strings (g : graph) (e : entry) (p : IRI) : list string :=
  map str (objects g (URIRef (iri e)) p).

(** The place of a role in the order in which the gatherer lists terms. *)
Definition role_rank (cat : string) : nat :=
  if String.eqb cat "Class" then 0
  else if String.eqb cat "ObjectProperty" then 1
  else if String.eqb cat "DatatypeProperty" then 2
  else if String.eqb cat "AnnotationProperty" then 3
  else 4.

(** A resource that is a class and two kinds of property at once, with a
    domain given as an anonymous class, and a resource typed only as a
    functional property. *)
Definition mixed : graph :=
  [ T (ex "spouse") RDF.type (URIRef OWL.FunctionalProperty);
    T (ex "name") RDF.type (URIRef OWL.DatatypeProperty);
    T (ex "name") RDF.type (URIRef OWL.Class);
    T (ex "name") RDF.type (URIRef OWL.AnnotationProperty);
    T (ex "name") RDF.type (URIRef OWL.FunctionalProperty);
    T (ex "name") RDFS.domain (BNode "d");
    T (ex "name") RDFS.domain (ex "Person");
    T (ex "name") RDFS.label (Literal "name" None (Some "en"));
    T (ex "name") RDFS.label (Literal "name" None (Some "en-GB"));
    T (ex "name") RDFS.label (ex "NameLabel");
    T (BNode "d") OWL.unionOf (BNode "dl");
    T (BNode "dl") RDF.first (ex "Person");
    T (BNode "dl") RDF.rest (URIRef RDF.nil)
  ].

Definition mixed_rank : node -> nat :=
  rank_table [(BNode "d", 2); (BNode "dl", 1)].

(** ** Basic facts about the graph queries and dictionaries *)

Lemma node_eqb_eq (a b : node) : node_eqb a b = true <-> a = b.
Proof.
  unfold node_eqb. destruct (node_eq_dec a b); split; congruence.
Qed.

Lemma node_eqb_refl (a : node) : node_eqb a a = true.
Proof.
  apply node_eqb_eq. reflexivity.
Qed.

Lemma node_eqb_neq (a b : node) : node_eqb a b = false <-> a <> b.
Proof.
  unfold node_eqb. destruct (node_eq_dec a b); split; congruence.
Qed.

Lemma contains_In (g : graph) (s : node) (p : IRI) (o : node) :
  contains g s p o = true <-> In (T s p o) g.
Proof.
  unfold contains. destruct (in_dec triple_eq_dec (T s p o) g); split;
    intros; try assumption; try reflexivity; try discriminate; contradiction.
Qed.

Lemma objects_In (g : graph) (s : node) (p : IRI) (o : node) :
  In o (objects g s p) <-> In (T s p o) g.
Proof.
  unfold objects. rewrite in_map_iff. split.
  - intros [[s' p' o'] [Ho Hf]]. simpl in Ho. subst o'.
    apply filter_In in Hf. destruct Hf as [Hin Hb]. simpl in Hb.
    apply andb_true_iff in Hb. destruct Hb as [Hs Hp].
    apply node_eqb_eq in Hs. apply String.eqb_eq in Hp. subst. assumption.
  - intros Hin. exists (T s p o). split; [reflexivity|].
    apply filter_In. split; [assumption|]. simpl.
    rewrite node_eqb_refl, String.eqb_refl. reflexivity.
Qed.

Lemma value_In (g : graph) (s : node) (p : IRI) (o : node) :
  value g s p = Some o -> In (T s p o) g.
Proof.
  unfold value. intros H. apply objects_In.
  destruct (objects g s p); simpl in H; [discriminate|].
  injection H as ->. left. reflexivity.
Qed.

Lemma value_None (g : graph) (s : node) (p : IRI) :
  value g s p = None <-> objects g s p = [].
Proof.
  unfold value. destruct (objects g s p); simpl; split; intros; congruence.
Qed.

Lemma has_pred_In (g : graph) (s : node) (p : IRI) :
  has_pred g s p = true <-> exists o, In (T s p o) g.
Proof.
  unfold has_pred. rewrite existsb_exists. split.
  - intros [[s' p' o'] [Hin Hb]]. simpl in Hb.
    apply andb_true_iff in Hb. destruct Hb as [Hs Hp].
    apply node_eqb_eq in Hs. apply String.eqb_eq in Hp. subst.
    exists o'. assumption.
  - intros [o Hin]. exists (T s p o). split; [assumption|]. simpl.
    rewrite node_eqb_refl, String.eqb_refl. reflexivity.
Qed.

Lemma subjects_In (g : graph) (p : IRI) (o s : node) :
  In s (subjects g p o) <-> In (T s p o) g.
Proof.
  unfold subjects. rewrite in_map_iff. split.
  - intros [[s' p' o'] [Hs Hf]]. simpl in Hs. subst s'.
    apply filter_In in Hf. destruct Hf as [Hin Hb]. simpl in Hb.
    apply andb_true_iff in Hb. destruct Hb as [Hp Ho].
    apply node_eqb_eq in Ho. apply String.eqb_eq in Hp. subst. assumption.
  - intros Hin. exists (T s p o). split; [reflexivity|].
    apply filter_In. split; [assumption|]. simpl.
    rewrite node_eqb_refl, String.eqb_refl. reflexivity.
Qed.

Lemma subjects_of_pred_In (g : graph) (p : IRI) (s : node) :
  In s (subjects_of_pred g p) <-> exists o, In (T s p o) g.
Proof.
  unfold subjects_of_pred. rewrite in_map_iff. split.
  - intros [[s' p' o'] [Hs Hf]]. simpl in Hs. subst s'.
    apply filter_In in Hf. destruct Hf as [Hin Hb]. simpl in Hb.
    apply String.eqb_eq in Hb. subst. exists o'. assumption.
  - intros [o Hin]. exists (T s p o). split; [reflexivity|].
    apply filter_In. split; [assumption|]. simpl. apply String.eqb_refl.
Qed.

Lemma all_subjects_In (g : graph) (s : node) :
  In s (all_subjects g) <-> exists p o, In (T s p o) g.
Proof.
  unfold all_subjects. rewrite in_map_iff. split.
  - intros [[s' p' o'] [Hs Hin]]. simpl in Hs. subst s'. eauto.
  - intros [p [o Hin]]. exists (T s p o). split; [reflexivity|assumption].
Qed.

Section DictFacts.
Variable V : Type.
Implicit Types (d : dict V) (k : string) (v : V).

Lemma dict_get_set_same d k v : dict_get k (dict_set k v d) = Some v.
Proof.
  induction d as [|[k' v'] d IH]; simpl.
  - rewrite String.eqb_refl. reflexivity.
  - destruct (String.eqb k' k) eqn:E; simpl; rewrite E; [reflexivity|assumption].
Qed.

Lemma dict_get_set_other d k k' v :
  k' <> k -> dict_get k' (dict_set k v d) = dict_get k' d.
Proof.
  intros Hne. induction d as [|[k0 v0] d IH]; simpl.
  - destruct (String.eqb k k') eqn:E; [|reflexivity].
    apply String.eqb_eq in E. congruence.
  - destruct (String.eqb k0 k) eqn:E; simpl.
    + apply String.eqb_eq in E. subst k0.
      destruct (String.eqb k k') eqn:E'; [|reflexivity].
      apply String.eqb_eq in E'. congruence.
    + rewrite IH. reflexivity.
Qed.

Lemma dict_get_In d k v : dict_get k d = Some v -> In (k, v) d.
Proof.
  induction d as [|[k' v'] d IH]; simpl; [discriminate|].
  destruct (String.eqb k' k) eqn:E.
  - apply String.eqb_eq in E. intros [= ->]. subst. left. reflexivity.
  - intros H. right. apply IH. assumption.
Qed.

Lemma dict_get_None d k : dict_get k d = None <-> ~ In k (dict_keys d).
Proof.
  induction d as [|[k' v'] d IH]; simpl.
  - split; [intros _ []|reflexivity].
  - destruct (String.eqb k' k) eqn:E.
    + apply String.eqb_eq in E. split; [discriminate|].
      intros H. exfalso. apply H. left. assumption.
    + apply String.eqb_neq in E. rewrite IH. split.
      * intros H [H1|H1]; [congruence|contradiction].
      * intros H H1. apply H. right. assumption.
Qed.

Lemma dict_keys_set d k v :
  dict_keys (dict_set k v d) =
  if in_dec string_dec k (dict_keys d) then dict_keys d else dict_keys d ++ [k].
Proof.
  unfold dict_keys.
  induction d as [|[k' v'] d IH]; simpl; [reflexivity|].
  destruct (String.eqb k' k) eqn:E.
  - apply String.eqb_eq in E. subst k'. simpl.
    destruct (string_dec k k); [|congruence].
    reflexivity.
  - apply String.eqb_neq in E. simpl. rewrite IH.
    destruct (string_dec k' k); [congruence|].
    destruct (in_dec string_dec k (map fst d)); reflexivity.
Qed.

Lemma dict_keys_set_In d k v k' :
  In k' (dict_keys (dict_set k v d)) <-> k' = k \/ In k' (dict_keys d).
Proof.
  rewrite dict_keys_set.
  destruct (in_dec string_dec k (dict_keys d)) as [Hin|Hin].
  - split; [intros H; right; assumption|]. intros [->|H]; assumption.
  - rewrite in_app_iff. simpl. split.
    + intros [H|[H|[]]]; [right; assumption|left; congruence].
    + intros [->|H]; [right; left; reflexivity|left; assumption].
Qed.

Lemma dict_keys_set_NoDup d k v :
  NoDup (dict_keys d) -> NoDup (dict_keys (dict_set k v d)).
Proof.
  intros Hnd. rewrite dict_keys_set.
  destruct (in_dec string_dec k (dict_keys d)) as [Hin|Hin]; [assumption|].
  apply NoDup_app; [assumption|repeat constructor; intros []|].
  intros x Hx [<-|[]]. contradiction.
Qed.

Lemma dict_In_get d k v :
  NoDup (dict_keys d) -> In (k, v) d -> dict_get k d = Some v.
Proof.
  induction d as [|[k' v'] d IH]; simpl; [intros _ []|].
  intros Hnd [H|H].
  - injection H as -> ->. rewrite String.eqb_refl. reflexivity.
  - inversion Hnd as [|? ? Hnot Hnd']; subst.
    destruct (String.eqb k' k) eqn:E.
    + apply String.eqb_eq in E. subst k'. exfalso. apply Hnot.
      change k with (fst (k, v)). apply in_map. assumption.
    + apply IH; assumption.
Qed.
End DictFacts.

Lemma value_link (g : graph) (s : node) (p : IRI) (o : node) :
  In p link_preds -> value g s p = Some o -> link g s o.
Proof.
  intros Hp Hv. exists p. split; [assumption|apply value_In; assumption].
Qed.

Lemma reaches_subject (g : graph) (a b : node) :
  reaches g a b -> In a (map subj g).
Proof.
  intros H. apply clos_trans_t1n in H.
  destruct H as [b [p [_ Hin]]|b c [p [_ Hin]] _];
    apply (in_map subj) in Hin; assumption.
Qed.

Lemma on_stack_nil (g : graph) (n : node) : on_stack g [] n.
Proof.
  repeat split; [constructor|intros p []|intros p []].
Qed.

Lemma on_stack_push (g : graph) (path : list node) (cur c : node) :
  acyclic g -> on_stack g path cur -> reaches g cur c ->
  on_stack g (cur :: path) c.
Proof.
  intros Hac (Hnd & Hreach & Hincl) Hc. repeat split.
  - constructor; [|assumption].
    intros Hin. apply (Hac cur). apply Hreach. assumption.
  - intros p [<-|Hin]; [assumption|].
    apply t_trans with cur; [apply Hreach; assumption|assumption].
  - intros p [<-|Hin]; [|apply Hincl; assumption].
    apply reaches_subject with c. assumption.
Qed.

Lemma on_stack_bound (g : graph) (path : list node) (cur : node) :
  on_stack g path cur -> List.length path <= List.length g.
Proof.
  intros (Hnd & _ & Hincl).
  rewrite <- (length_map subj g).
  apply NoDup_incl_length; assumption.
Qed.

Lemma first_is_link : In RDF.first link_preds.
Proof.
  unfold link_preds. apply in_or_app. right. simpl. tauto.
Qed.

Lemma rest_is_link : In RDF.rest link_preds.
Proof.
  unfold link_preds. apply in_or_app. right. simpl. tauto.
Qed.

Lemma filler_is_link (p : IRI) (key : string) :
  In (p, key) fillers -> In p link_preds.
Proof.
  intros H. unfold link_preds. apply in_or_app. left.
  change p with (fst (p, key)). apply in_map. assumption.
Qed.

Section Termination.
Variable Collection_items : graph -> node -> list node * bool.
Variable Literal_bool : string -> option IRI -> option string -> bool.

Abbreviation walk := (manual_walk Literal_bool).
Abbreviation to_py := (rdf_list_to_py Collection_items Literal_bool).
Abbreviation summarize := (summarize_expression Collection_items Literal_bool).

Variable g : graph.
Hypothesis g_acyclic : acyclic g.

Lemma manual_walk_total (fuel : nat) :
  forall path cur acc,
    on_stack g path cur ->
    List.length g < fuel + List.length path ->
    exists r, walk fuel g cur acc = Some r.
Proof.
  induction fuel as [|fuel IH]; intros path cur acc Hst Hlen.
  - apply on_stack_bound in Hst. simpl in Hlen. lia.
  - simpl.
    destruct (truthy Literal_bool cur && negb (node_eqb cur (URIRef RDF.nil)));
      [|eauto].
    destruct (value g cur RDF.first) as [x|]; [|eauto].
    destruct (value g cur RDF.rest) as [c|] eqn:Hrest; [|eauto].
    apply IH with (path := cur :: path).
    + apply on_stack_push; [assumption|assumption|].
      apply t_step. apply value_link with RDF.rest;
        [apply rest_is_link|assumption].
    + simpl. lia.
Qed.

Lemma manual_walk_items (fuel : nat) :
  forall cur acc r,
    walk fuel g cur acc = Some r ->
    forall x, In x r -> In x acc \/ reaches g cur x.
Proof.
  induction fuel as [|fuel IH]; intros cur acc r H x Hx; [discriminate|].
  simpl in H.
  destruct (truthy Literal_bool cur && negb (node_eqb cur (URIRef RDF.nil))).
  2:{ injection H as <-. left. assumption. }
  destruct (value g cur RDF.first) as [y|] eqn:Hfirst.
  2:{ injection H as <-. left. assumption. }
  assert (Hy : reaches g cur y).
  { apply t_step. apply value_link with RDF.first;
      [apply first_is_link|assumption]. }
  destruct (value g cur RDF.rest) as [c|] eqn:Hrest.
  - destruct (IH _ _ _ H x Hx) as [Hin|Hr].
    + apply in_app_or in Hin. destruct Hin as [Hin|[<-|[]]];
        [left; assumption|right; assumption].
    + right. apply t_trans with c; [|assumption].
      apply t_step. apply value_link with RDF.rest;
        [apply rest_is_link|assumption].
  - injection H as <-. apply in_app_or in Hx.
    destruct Hx as [Hin|[<-|[]]]; [left; assumption|right; assumption].
Qed.

Hypothesis helper_ok : follows_links Collection_items.

Lemma rdf_list_to_py_total (fuel : nat) (path : list node) (n : node) :
  on_stack g path n ->
  List.length g < fuel + List.length path ->
  exists items,
    to_py fuel g n = Some items /\ forall x, In x items -> reaches g n x.
Proof.
  intros Hst Hlen. unfold rdf_list_to_py.
  pose proof (helper_ok g n) as Hh.
  destruct (Collection_items g n) as [items raised]. simpl in Hh.
  destruct raised.
  - destruct (@manual_walk_total fuel path n items Hst Hlen) as [r Hr].
    exists r. split; [assumption|].
    intros x Hx. destruct (@manual_walk_items fuel n items r Hr x Hx) as [H|H];
      [apply Hh; assumption|assumption].
  - exists items. split; [reflexivity|assumption].
Qed.

Lemma map_opt_total (rec : pyobj -> option pyval) (items : list node) :
  (forall x, In x items -> exists r, rec (Node x) = Some r) ->
  exists vs, map_opt rec items = Some vs.
Proof.
  induction items as [|i items IH]; intros H; simpl; [eauto|].
  destruct (H i (or_introl eq_refl)) as [v ->].
  destruct IH as [vs ->]; [|eauto].
  intros x Hx. apply H. right. assumption.
Qed.

Lemma fill_total (rec : pyobj -> option pyval) (n : node)
    (ps : list (IRI * string)) :
  (forall p key val, In (p, key) ps -> value g n p = Some val ->
                     exists r, rec (Node val) = Some r) ->
  forall res, exists d, fill rec g n ps res = Some d.
Proof.
  induction ps as [|[p key] ps IH]; intros H res; simpl; [eauto|].
  assert (H' : forall p key val, In (p, key) ps -> value g n p = Some val ->
                                 exists r, rec (Node val) = Some r).
  { intros p' key' val Hin. apply (H p' key' val). right. assumption. }
  destruct (value g n p) as [val|] eqn:Hv; [|apply IH; assumption].
  destruct (is_BNode val || is_URIRef val); [|apply IH; assumption].
  destruct (H p key val (or_introl eq_refl) Hv) as [v ->].
  apply IH. assumption.
Qed.

Lemma list_record_total (rec : pyobj -> option pyval) (fuel : nat)
    (path : list node) (tag field : string) (head : node) :
  on_stack g path head ->
  List.length g < fuel + List.length path ->
  (forall x, reaches g head x -> exists r, rec (Node x) = Some r) ->
  exists vs, list_record Collection_items Literal_bool rec fuel g tag field head
             = Some (PDict [("exprType", PStr tag); (field, PList vs)]).
Proof.
  intros Hst Hlen Hrec. unfold list_record.
  destruct (@rdf_list_to_py_total fuel path head Hst Hlen) as [items [-> Hitems]].
  destruct (@map_opt_total rec items) as [vs ->]; [|eauto].
  intros x Hx. apply Hrec. apply Hitems. assumption.
Qed.

(** On a graph without cycles the summarizer returns as soon as the fuel
    exceeds the number of triples not yet accounted for by the stack. *)
Lemma summarize_total_stack (fuel : nat) :
  forall path n,
    on_stack g path n ->
    List.length g < fuel + List.length path ->
    exists r, summarize fuel g (Node n) = Some r.
Proof.
  induction fuel as [|fuel IH]; intros path n Hst Hlen.
  - apply on_stack_bound in Hst. simpl in Hlen. lia.
  - assert (Hsub : forall c, reaches g n c ->
              exists r, summarize fuel g (Node c) = Some r).
    { intros c Hc. apply IH with (path := n :: path).
      - apply on_stack_push; assumption.
      - simpl. lia. }
    assert (Hlist : forall p tag field head,
              In p link_preds -> value g n p = Some head ->
              exists r, list_record Collection_items Literal_bool
                          (summarize fuel g) fuel g tag field head = Some r).
    { intros p tag field head Hp Hv.
      assert (Hl : reaches g n head).
      { apply t_step. apply value_link with p; assumption. }
      destruct (@list_record_total (summarize fuel g) fuel (n :: path)
                  tag field head) as [vs Hvs].
      - apply on_stack_push; assumption.
      - simpl. lia.
      - intros x Hx. apply Hsub. apply t_trans with head; assumption.
      - eauto. }
    destruct n as [i|id|lex dt lg]; cbn [summarize_expression];
      [eauto| |eauto].
    destruct (contains g (BNode id) RDF.type (URIRef OWL.Restriction)
              || match value g (BNode id) OWL.onProperty with
                 | Some _ => true | None => false end).
    + destruct (@fill_total (summarize fuel g) (BNode id) fillers) with
        (res := [("exprType", PStr "Restriction");
                 ("onProperty", fq (opt_node (value g (BNode id) OWL.onProperty)))])
        as [d ->]; [|eauto].
      intros p key val Hin Hv. apply Hsub. apply t_step.
      apply value_link with p; [|assumption].
      apply filler_is_link with key. assumption.
    + destruct (value g (BNode id) OWL.intersectionOf) eqn:H1.
      { apply Hlist with OWL.intersectionOf; [|assumption].
        unfold link_preds. apply in_or_app. right. simpl. tauto. }
      destruct (value g (BNode id) OWL.unionOf) eqn:H2.
      { apply Hlist with OWL.unionOf; [|assumption].
        unfold link_preds. apply in_or_app. right. simpl. tauto. }
      destruct (value g (BNode id) OWL.complementOf) as [comp|] eqn:H3.
      { destruct (Hsub comp) as [v ->]; [|eauto].
        apply t_step. apply value_link with OWL.complementOf; [|assumption].
        unfold link_preds. apply in_or_app. right. simpl. tauto. }
      destruct (value g (BNode id) OWL.oneOf) eqn:H4.
      { apply Hlist with OWL.oneOf; [|assumption].
        unfold link_preds. apply in_or_app. right. simpl. tauto. }
      eauto.
Qed.

Lemma summarize_total (fuel : nat) (x : pyobj) :
  List.length g < fuel -> exists r, summarize fuel g x = Some r.
Proof.
  intros Hlen. destruct x as [n| |r].
  - apply summarize_total_stack with (path := []);
      [apply on_stack_nil|simpl; lia].
  - destruct fuel; [lia|simpl; eauto].
  - destruct fuel; [lia|simpl; eauto].
Qed.

End Termination.

(** ** Grouping pairs by predicate *)

Lemma setdefault_append_get (k v p : string) (d : dict (list string)) :
  dict_get p (setdefault_append k v d) =
  if String.eqb k p
  then Some (match dict_get p d with Some l => l ++ [v] | None => [v] end)
  else dict_get p d.
Proof.
  unfold setdefault_append.
  destruct (String.eqb k p) eqn:E.
  - apply String.eqb_eq in E. subst p.
    destruct (dict_get k d); apply dict_get_set_same.
  - apply String.eqb_neq in E.
    destruct (dict_get k d); apply dict_get_set_other; congruence.
Qed.

Lemma group_fold_get (p : IRI) (pos : list (IRI * node)) :
  forall d,
    dict_get p (fold_left (fun d po => setdefault_append (fst po) (str (snd po)) d) pos d) =
    match dict_get p d, values_of p pos with
    | Some l, vs => Some (l ++ vs)
    | None, [] => None
    | None, vs => Some vs
    end.
Proof.
  induction pos as [|[k o] pos IH]; intros d; simpl.
  - destruct (dict_get p d); [rewrite app_nil_r|]; reflexivity.
  - rewrite IH, setdefault_append_get. unfold values_of. simpl.
    destruct (String.eqb k p); simpl.
    + destruct (dict_get p d); [rewrite <- app_assoc|]; reflexivity.
    + reflexivity.
Qed.

Lemma values_of_objects (g : graph) (n : node) (p : IRI) :
  values_of p (predicate_objects g n) = map str (objects g n p).
Proof.
  unfold values_of, predicate_objects, objects.
  induction g as [|[s q o] g IH]; simpl; [reflexivity|].
  destruct (node_eqb s n); simpl; [|assumption].
  destruct (String.eqb q p); simpl; [f_equal|]; assumption.
Qed.

(** Every predicate of the node is a key, bound to the string forms of its
    objects in iteration order; nothing else is a key. *)
Lemma group_pairs_get (g : graph) (n : node) (p : IRI) :
  dict_get p (group_pairs (predicate_objects g n)) =
  match objects g n p with
  | [] => None
  | os => Some (map str os)
  end.
Proof.
  unfold group_pairs. rewrite group_fold_get, values_of_objects. simpl.
  destruct (objects g n p); reflexivity.
Qed.

Lemma has_pred_value (g : graph) (n : node) (p : IRI) :
  has_pred g n p = match value g n p with Some _ => true | None => false end.
Proof.
  destruct (value g n p) as [o|] eqn:Hv.
  - apply has_pred_In. exists o. apply value_In. assumption.
  - apply value_None in Hv. destruct (has_pred g n p) eqn:Hh; [|reflexivity].
    apply has_pred_In in Hh. destruct Hh as [o Ho].
    apply objects_In in Ho. rewrite Hv in Ho. destruct Ho.
Qed.

(** ** The filler loop *)

Section Fill.
Variable rec : pyobj -> option pyval.
Variable g : graph.
Variable n : node.

Lemma fill_get_other (ps : list (IRI * string)) (k : string) :
  ~ In k (map snd ps) ->
  forall res d, fill rec g n ps res = Some d -> dict_get k d = dict_get k res.
Proof.
  induction ps as [|[p key] ps IH]; intros Hk res d H; simpl in *.
  - injection H as <-. reflexivity.
  - assert (Hne : k <> key) by (intros ->; apply Hk; left; reflexivity).
    assert (Hk' : ~ In k (map snd ps)) by (intros Hin; apply Hk; right; assumption).
    destruct (value g n p) as [val|]; [|apply IH; assumption].
    destruct (is_BNode val || is_URIRef val).
    + destruct (rec (Node val)) as [v|]; [|discriminate].
      rewrite (IH Hk' _ _ H). apply dict_get_set_other. assumption.
    + rewrite (IH Hk' _ _ H). apply dict_get_set_other. assumption.
Qed.

Lemma fill_get (ps : list (IRI * string)) :
  forall res d,
    NoDup (dict_keys res ++ map snd ps) ->
    fill rec g n ps res = Some d ->
    forall p key, In (p, key) ps -> dict_get key d = filler_field rec g n p.
Proof.
  induction ps as [|[p0 key0] ps IH]; intros res d Hnd H p key Hin;
    [destruct Hin|].
  simpl in H. simpl map in Hnd.
  apply NoDup_remove in Hnd. destruct Hnd as [Hnd Hnot].
  assert (Hnot_res : ~ In key0 (dict_keys res)).
  { intros Hc. apply Hnot. apply in_or_app. left. assumption. }
  assert (Hnot_ps : ~ In key0 (map snd ps)).
  { intros Hc. apply Hnot. apply in_or_app. right. assumption. }
  assert (Hnd' : forall v, NoDup (dict_keys (dict_set key0 v res) ++ map snd ps)).
  { intros v. rewrite dict_keys_set.
    destruct (in_dec string_dec key0 (dict_keys res)); [contradiction|].
    rewrite <- app_assoc. simpl. apply NoDup_Add with (a := key0) (l := dict_keys res ++ map snd ps).
    - apply Add_app.
    - split; assumption. }
  destruct Hin as [Heq|Hin].
  - injection Heq as <- <-. unfold filler_field.
    destruct (value g n p0) as [val|] eqn:Hv.
    + destruct (is_BNode val || is_URIRef val).
      * destruct (rec (Node val)) as [v|]; [|discriminate].
        rewrite (@fill_get_other ps key0 Hnot_ps _ _ H). apply dict_get_set_same.
      * rewrite (@fill_get_other ps key0 Hnot_ps _ _ H). apply dict_get_set_same.
    + rewrite (@fill_get_other ps key0 Hnot_ps _ _ H).
      apply dict_get_None. assumption.
  - destruct (value g n p0) as [val|] eqn:Hv.
    + destruct (is_BNode val || is_URIRef val).
      * destruct (rec (Node val)) as [v|]; [|discriminate].
        apply (IH _ _ (Hnd' v) H p key Hin).
      * apply (IH _ _ (Hnd' _) H p key Hin).
    + apply (IH _ _ Hnd H p key Hin).
Qed.

Lemma fill_keys (ps : list (IRI * string)) :
  forall res d,
    NoDup (dict_keys res ++ map snd ps) ->
    fill rec g n ps res = Some d ->
    dict_keys d = dict_keys res ++ map snd (filter (present g n) ps).
Proof.
  induction ps as [|[p0 key0] ps IH]; intros res d Hnd H; simpl in H.
  - injection H as <-. simpl. rewrite app_nil_r. reflexivity.
  - simpl map in Hnd.
    apply NoDup_remove in Hnd. destruct Hnd as [Hnd Hnot].
    assert (Hnot_res : ~ In key0 (dict_keys res)).
    { intros Hc. apply Hnot. apply in_or_app. left. assumption. }
    assert (Hset : forall v, dict_keys (dict_set key0 v res) = dict_keys res ++ [key0]).
    { intros v. rewrite dict_keys_set.
      destruct (in_dec string_dec key0 (dict_keys res)); [contradiction|reflexivity]. }
    assert (Hnd' : forall v, NoDup (dict_keys (dict_set key0 v res) ++ map snd ps)).
    { intros v. rewrite Hset, <- app_assoc. simpl.
      apply NoDup_Add with (a := key0) (l := dict_keys res ++ map snd ps).
      - apply Add_app.
      - split; assumption. }
    simpl. unfold present at 1. simpl.
    destruct (value g n p0) as [val|] eqn:Hv.
    + simpl.
      destruct (is_BNode val || is_URIRef val).
      * destruct (rec (Node val)) as [v|]; [|discriminate].
        rewrite (IH _ _ (Hnd' v) H), Hset, <- app_assoc. reflexivity.
      * rewrite (IH _ _ (Hnd' _) H), Hset, <- app_assoc. reflexivity.
    + apply (IH _ _ Hnd H).
Qed.
End Fill.

Lemma fillers_keys_NoDup :
  NoDup (["exprType"; "onProperty"] ++ map snd fillers).
Proof.
  simpl. repeat constructor; simpl; intuition discriminate.
Qed.

(** ** Checking the hypotheses on concrete graphs *)

Lemma ranked_reaches (rank : node -> nat) (g : graph) :
  ranked rank g = true -> forall a b, reaches g a b -> rank b < rank a.
Proof.
  intros Hr a b H. induction H as [a b [p [Hp Hin]]|a b c _ IH1 _ IH2]; [|lia].
  unfold ranked in Hr. rewrite forallb_forall in Hr.
  specialize (Hr _ Hin). cbn [pred subj obj] in Hr.
  destruct (in_dec string_dec p link_preds); [|contradiction].
  apply Nat.ltb_lt. assumption.
Qed.

Lemma ranked_acyclic (rank : node -> nat) (g : graph) :
  ranked rank g = true -> acyclic g.
Proof.
  intros Hr n Hn. apply (ranked_reaches _ Hr) in Hn. lia.
Qed.

Lemma graph_items_reach (truth : node -> bool) (g : graph) (fuel : nat) :
  forall chain l acc x,
    In x (fst (graph_items fuel truth g chain (Some l) acc)) ->
    In x acc \/ reaches g l x.
Proof.
  induction fuel as [|fuel IH]; intros chain l acc x Hx; simpl in Hx;
    [left; assumption|].
  destruct (truth l); [|left; assumption].
  assert (Hacc : forall y,
            In y (match value g l RDF.first with
                  | Some item => acc ++ [item]
                  | None => acc
                  end) -> In y acc \/ reaches g l y).
  { intros y Hy. destruct (value g l RDF.first) as [item|] eqn:Hf;
      [|left; assumption].
    apply in_app_or in Hy. destruct Hy as [Hy|[<-|[]]]; [left; assumption|].
    right. apply t_step. apply value_link with RDF.first;
      [apply first_is_link|assumption]. }
  destruct (value g l RDF.rest) as [l'|] eqn:Hr; [|apply Hacc; assumption].
  destruct (in_dec node_eq_dec l' chain); [apply Hacc; assumption|].
  apply IH in Hx. destruct Hx as [Hx|Hx]; [apply Hacc; assumption|].
  right. apply t_trans with l'; [|assumption].
  apply t_step. apply value_link with RDF.rest; [apply rest_is_link|assumption].
Qed.

(** The fuel given to the model of the helper is never used up: the chain
    of visited cells holds distinct nodes, all but the head objects of
    triples, so more fuel changes nothing. *)
Lemma graph_items_enough (truth : node -> bool) (g : graph) (root : node)
    (fuel : nat) :
  forall k chain cur items,
    NoDup chain -> incl chain (root :: map obj g) ->
    List.length g + 1 < fuel + List.length chain ->
    graph_items (fuel + k) truth g chain cur items =
    graph_items fuel truth g chain cur items.
Proof.
  induction fuel as [|fuel IH]; intros k chain cur items Hnd Hincl Hlen.
  - apply NoDup_incl_length in Hincl; [|assumption].
    simpl in Hincl, Hlen. rewrite length_map in Hincl. lia.
  - cbn [Nat.add graph_items]. destruct cur as [l|]; [|reflexivity].
    destruct (truth l); [|reflexivity].
    destruct (value g l RDF.rest) as [l'|] eqn:Hr; [|reflexivity].
    destruct (in_dec node_eq_dec l' chain) as [Hin|Hin]; [reflexivity|].
    apply IH.
    + constructor; assumption.
    + intros x [<-|Hx]; [|apply Hincl; assumption].
      right. apply value_In in Hr. apply (in_map obj) in Hr. exact Hr.
    + simpl. lia.
Qed.

Lemma rdflib_items_stable (g : graph) (n : node) (k : nat) :
  graph_items (S (S (List.length g)) + k) (truthy plain_bool) g [n] (Some n) []
  = rdflib_items g n.
Proof.
  unfold rdflib_items. apply graph_items_enough with (root := n).
  - repeat constructor. intros [].
  - intros x [<-|[]]. left. reflexivity.
  - simpl. lia.
Qed.

Lemma rdflib_items_follows_links : follows_links rdflib_items.
Proof.
  intros g n x Hx. unfold rdflib_items in Hx.
  apply graph_items_reach in Hx. destruct Hx as [[]|Hx]. assumption.
Qed.

Lemma zoo_acyclic : acyclic zoo.
Proof.
  apply ranked_acyclic with zoo_rank. vm_compute. reflexivity.
Qed.

(** ** The summarizer *)

Lemma declared_contains (g : graph) (n : node) (cls : IRI) :
  declared g (Node n) cls = contains g n RDF.type (URIRef cls).
Proof.
  simpl. destruct (contains g n RDF.type (URIRef cls)) eqn:Hc.
  - apply contains_In in Hc. apply existsb_exists.
    exists (T n RDF.type (URIRef cls)). split; [assumption|].
    destruct (triple_eq_dec _ _); congruence.
  - destruct (existsb _ g) eqn:He; [|reflexivity].
    apply existsb_exists in He. destruct He as [t [Hin Ht]].
    destruct (triple_eq_dec t _); [|discriminate]. subst t.
    apply contains_In in Hin. congruence.
Qed.

Lemma bears_value (g : graph) (n : node) (p : IRI) :
  bears g (Node n) p = match value g n p with Some _ => true | None => false end.
Proof.
  rewrite <- has_pred_value. reflexivity.
Qed.

Lemma classify_bnode (g : graph) (id : string) :
  classify g (Node (BNode id)) =
  if contains g (BNode id) RDF.type (URIRef OWL.Restriction)
     || match value g (BNode id) OWL.onProperty with Some _ => true | None => false end
  then SRestriction
  else match value g (BNode id) OWL.intersectionOf with
       | Some _ => SIntersection
       | None =>
       match value g (BNode id) OWL.unionOf with
       | Some _ => SUnion
       | None =>
       match value g (BNode id) OWL.complementOf with
       | Some _ => SComplement
       | None =>
       match value g (BNode id) OWL.oneOf with
       | Some _ => SOneOf
       | None => SBNode
       end end end end.
Proof.
  unfold classify. cbn [is_named is_literal is_anonymous].
  rewrite declared_contains, !bears_value.
  destruct (contains _ _ _ _ || _); [reflexivity|].
  destruct (value g (BNode id) OWL.intersectionOf); [reflexivity|].
  destruct (value g (BNode id) OWL.unionOf); [reflexivity|].
  destruct (value g (BNode id) OWL.complementOf); [reflexivity|].
  destruct (value g (BNode id) OWL.oneOf); reflexivity.
Qed.

Section Summarizer.
Variable Collection_items : graph -> node -> list node * bool.
Variable Literal_bool : string -> option IRI -> option string -> bool.

Abbreviation summarize := (summarize_expression Collection_items Literal_bool).

Lemma list_record_shape (rec : pyobj -> option pyval) (fuel : nat) (g : graph)
    (tag field : string) (head : node) (r : pyval) :
  list_record Collection_items Literal_bool rec fuel g tag field head = Some r ->
  exists vs, r = PDict [("exprType", PStr tag); (field, PList vs)].
Proof.
  unfold list_record. intros H.
  destruct (rdf_list_to_py _ _ _ _ _); [|discriminate].
  destruct (map_opt _ _) as [vs|]; [|discriminate].
  injection H as <-. eauto.
Qed.

(** The tag of a record is the one of the first matching rule. *)
Lemma summarize_shape (g : graph) (x : pyobj) (fuel : nat) (r : pyval) :
  summarize fuel g x = Some r ->
  exists d, r = PDict d
            /\ dict_get "exprType" d = Some (PStr (shape_tag (classify g x))).
Proof.
  destruct fuel as [|fuel]; [discriminate|].
  destruct x as [[i|id|lex dt lg]| |s]; cbn [summarize_expression];
    try (intros [= <-]; eexists; split; reflexivity).
  rewrite classify_bnode.
  destruct (contains _ _ _ _ || _).
  { destruct (fill _ _ _ _ _) as [d|] eqn:Hfill; [|discriminate].
    intros [= <-]. exists d. split; [reflexivity|].
    rewrite (@fill_get_other _ _ _ fillers "exprType") with (2 := Hfill);
      [reflexivity|].
    simpl. intuition discriminate. }
  destruct (value g (BNode id) OWL.intersectionOf).
  { intros H. apply list_record_shape in H. destruct H as [vs ->].
    eexists; split; reflexivity. }
  destruct (value g (BNode id) OWL.unionOf).
  { intros H. apply list_record_shape in H. destruct H as [vs ->].
    eexists; split; reflexivity. }
  destruct (value g (BNode id) OWL.complementOf).
  { destruct (summarize fuel g (Node n)); [|discriminate].
    intros [= <-]. eexists; split; reflexivity. }
  destruct (value g (BNode id) OWL.oneOf).
  { intros H. apply list_record_shape in H. destruct H as [vs ->].
    eexists; split; reflexivity. }
  intros [= <-]. eexists; split; reflexivity.
Qed.

(** A node that falls through to the last rule is summarised without any
    nested call: one unit of fuel is enough, and more changes nothing. *)
Lemma summarize_bnode (g : graph) (x : pyobj) (fuel : nat) :
  classify g x = SBNode ->
  exists n,
    x = Node n
    /\ summarize (S fuel) g x =
       Some (PDict [("exprType", PStr "BNode");
                    ("props", strs_val (group_pairs (predicate_objects g n)))]).
Proof.
  destruct x as [[i|id|lex dt lg]| |s]; try (unfold classify; simpl; discriminate).
  rewrite classify_bnode. cbn [summarize_expression]. intros H.
  exists (BNode id). split; [reflexivity|].
  destruct (contains _ _ _ _ || _); [discriminate|].
  destruct (value g (BNode id) OWL.intersectionOf); [discriminate|].
  destruct (value g (BNode id) OWL.unionOf); [discriminate|].
  destruct (value g (BNode id) OWL.complementOf); [discriminate|].
  destruct (value g (BNode id) OWL.oneOf); [discriminate|].
  reflexivity.
Qed.

End Summarizer.

Lemma classify_restriction_bnode (g : graph) (x : pyobj) :
  classify g x = SRestriction -> exists id, x = Node (BNode id).
Proof.
  destruct x as [[i|id|lex dt lg]| |s]; try (unfold classify; simpl; discriminate).
  eauto.
Qed.

Lemma restriction_test (g : graph) (id : string) :
  classify g (Node (BNode id)) = SRestriction ->
  contains g (BNode id) RDF.type (URIRef OWL.Restriction)
  || match value g (BNode id) OWL.onProperty with Some _ => true | None => false end
  = true.
Proof.
  rewrite classify_bnode. destruct (contains _ _ _ _ || _); [reflexivity|].
  destruct (value g (BNode id) OWL.intersectionOf); [discriminate|].
  destruct (value g (BNode id) OWL.unionOf); [discriminate|].
  destruct (value g (BNode id) OWL.complementOf); [discriminate|].
  destruct (value g (BNode id) OWL.oneOf); discriminate.
Qed.

(** The record of a restriction: the two fixed fields, then one field per
    filler predicate the node has, holding what [filler_field] says. *)
Lemma summarize_restriction
    (Collection_items : graph -> node -> list node * bool)
    (Literal_bool : string -> option IRI -> option string -> bool)
    (g : graph) (id : string) (fuel : nat) (r : pyval) :
  classify g (Node (BNode id)) = SRestriction ->
  summarize_expression Collection_items Literal_bool (S fuel) g (Node (BNode id)) = Some r ->
  exists d,
    r = PDict d
    /\ dict_keys d = ["exprType"; "onProperty"]
                     ++ map snd (filter (present g (BNode id)) fillers)
    /\ dict_get "exprType" d = Some (PStr "Restriction")
    /\ dict_get "onProperty" d = Some (fq (opt_node (value g (BNode id) OWL.onProperty)))
    /\ forall p key, In (p, key) fillers ->
         dict_get key d =
         filler_field (summarize_expression Collection_items Literal_bool fuel g)
           g (BNode id) p.
Proof.
  intros Hc. apply restriction_test in Hc. cbn [summarize_expression].
  rewrite Hc.
  destruct (fill _ _ _ _ _) as [d|] eqn:Hfill; [|discriminate].
  intros [= <-]. exists d. split; [reflexivity|].
  pose proof fillers_keys_NoDup as Hnd.
  split; [|split; [|split]].
  - refine (@fill_keys _ _ _ _ _ _ _ Hfill). exact Hnd.
  - rewrite (@fill_get_other _ _ _ fillers "exprType") with (2 := Hfill);
      [reflexivity|].
    simpl. intuition discriminate.
  - rewrite (@fill_get_other _ _ _ fillers "onProperty") with (2 := Hfill);
      [reflexivity|].
    simpl. intuition discriminate.
  - intros p key Hin. refine (@fill_get _ _ _ _ _ _ _ Hfill _ _ Hin). exact Hnd.
Qed.

Lemma dict_get_map_values (A B : Type) (f : A -> B) (d : dict A) (k : string) :
  dict_get k (map (fun kv => (fst kv, f (snd kv))) d) = option_map f (dict_get k d).
Proof.
  induction d as [|[k' v] d IH]; simpl; [reflexivity|].
  destruct (String.eqb k' k); [reflexivity|assumption].
Qed.

Lemma group_pairs_keys_NoDup (pos : list (IRI * node)) :
  NoDup (dict_keys (group_pairs pos)).
Proof.
  unfold group_pairs.
  assert (H : forall l d, NoDup (dict_keys d) ->
            NoDup (dict_keys
                     (fold_left (fun d (po : IRI * node) =>
                                   setdefault_append (fst po) (str (snd po)) d) l d))).
  { induction l as [|po l IH]; intros d Hd; simpl; [assumption|].
    apply IH. unfold setdefault_append.
    destruct (dict_get (fst po) d); apply dict_keys_set_NoDup; assumption. }
  apply H. constructor.
Qed.

(** C1: the summarizer classifies by the first matching rule, in the order
    Named, Literal, Restriction (declared, or with an onProperty triple),
    Intersection, Union, Complement, OneOf, BNode, Unknown.  Whenever it
    returns, the record carries the tag of that rule; a node left to the
    BNode rule gets the record made of exprType BNode and of props, a
    dictionary with one key per predicate of the node, bound to the list of
    the string forms of that predicate's objects in order; and on a graph
    without cycles it does return. *)
Theorem summarize_first_matching_rule
    (Collection_items : graph -> node -> list node * bool)
    (Literal_bool : string -> option IRI -> option string -> bool)
    (g : graph) (x : pyobj) :
  (forall fuel r,
     summarize_expression Collection_items Literal_bool fuel g x = Some r ->
     exists d, r = PDict d
               /\ dict_get "exprType" d = Some (PStr (shape_tag (classify g x))))
  /\ (classify g x = SBNode ->
      exists n props,
        x = Node n
        /\ (forall fuel,
              summarize_expression Collection_items Literal_bool (S fuel) g x =
              Some (PDict [("exprType", PStr "BNode"); ("props", PDict props)]))
        /\ NoDup (dict_keys props)
        /\ (forall p, dict_get p props =
                      match objects g n p with
                      | [] => None
                      | os => Some (PList (map (fun o => PStr (str o)) os))
                      end))
  /\ (acyclic g -> follows_links Collection_items ->
      forall fuel, List.length g < fuel ->
      exists r, summarize_expression Collection_items Literal_bool fuel g x = Some r).
Proof.
  split; [|split].
  - intros fuel r H. apply summarize_shape with (1 := H).
  - intros Hc.
    destruct (summarize_bnode Collection_items Literal_bool g x 0 Hc) as [n [-> _]].
    exists n,
      (map (fun kv => (fst kv, PList (map PStr (snd kv))))
         (group_pairs (predicate_objects g n))).
    split; [reflexivity|]. split; [|split].
    + intros fuel.
      destruct (summarize_bnode Collection_items Literal_bool g _ fuel Hc)
        as [n' [[= <-] H]].
      exact H.
    + unfold dict_keys. rewrite map_map. simpl.
      apply (group_pairs_keys_NoDup (predicate_objects g n)).
    + intros p.
      rewrite (@dict_get_map_values _ _ (fun vs => PList (map PStr vs))),
        group_pairs_get.
      destruct (objects g n p) as [|o os]; [reflexivity|].
      simpl. rewrite map_map. reflexivity.
  - intros Hac Hh fuel Hlen.
    apply (@summarize_total Collection_items Literal_bool g Hac Hh fuel x Hlen).
Qed.

Lemma summarize_first_matching_rule_witness :
  summarize_expression rdflib_items plain_bool 1 zoo (Node (BNode "b"))
  = Some (PDict [("exprType", PStr "BNode");
                 ("props",
                  PDict [("http://www.w3.org/2000/01/rdf-schema#comment",
                          PList [PStr "opaque"]);
                         ("http://www.w3.org/2000/01/rdf-schema#seeAlso",
                          PList [PStr "http://example.org/Cat"])])])
  /\ (exists n props,
        Node (BNode "b") = Node n
        /\ (forall fuel,
              summarize_expression rdflib_items plain_bool (S fuel) zoo
                (Node (BNode "b")) =
              Some (PDict [("exprType", PStr "BNode"); ("props", PDict props)]))
        /\ NoDup (dict_keys props)
        /\ (forall p, dict_get p props =
                      match objects zoo n p with
                      | [] => None
                      | os => Some (PList (map (fun o => PStr (str o)) os))
                      end))
  /\ (exists d,
        summarize_expression rdflib_items plain_bool 30 zoo (Node (BNode "u"))
        = Some (PDict d)
        /\ dict_get "exprType" d = Some (PStr "Union")).
Proof.
  split; [vm_compute; reflexivity|]. split.
  - apply (proj1 (proj2 (@summarize_first_matching_rule rdflib_items plain_bool
                           zoo (Node (BNode "b"))))).
    vm_compute. reflexivity.
  - destruct (proj2 (proj2 (@summarize_first_matching_rule rdflib_items plain_bool
                              zoo (Node (BNode "u"))))
                zoo_acyclic rdflib_items_follows_links 30) as [r Hr].
    + vm_compute. lia.
    + destruct (proj1 (@summarize_first_matching_rule rdflib_items plain_bool
                         zoo (Node (BNode "u"))) 30 r Hr) as [d [-> Hd]].
      exists d. split; [assumption|]. exact Hd.
Defined.

(** C5: on a finite graph whose filler, combinator and list links have no
    cycle, the summarizer returns for every argument, as soon as the fuel
    exceeds the number of triples; a node classified BNode is handled by the
    outermost call alone (one unit of fuel, whatever the graph), and its
    record depends on nothing but its own predicate/object pairs. *)
Theorem summarize_terminates
    (Collection_items : graph -> node -> list node * bool)
    (Literal_bool : string -> option IRI -> option string -> bool)
    (g : graph) :
  acyclic g -> follows_links Collection_items ->
  (forall x fuel, List.length g < fuel ->
     exists r, summarize_expression Collection_items Literal_bool fuel g x = Some r)
  /\ (forall x, classify g x = SBNode ->
        exists r, forall fuel,
          summarize_expression Collection_items Literal_bool (S fuel) g x = Some r)
  /\ (forall x g',
        classify g x = SBNode -> classify g' x = SBNode ->
        (forall n, x = Node n -> predicate_objects g' n = predicate_objects g n) ->
        summarize_expression Collection_items Literal_bool 1 g' x =
        summarize_expression Collection_items Literal_bool 1 g x).
Proof.
  intros Hac Hh. split; [|split].
  - intros x fuel Hlen.
    apply (@summarize_total Collection_items Literal_bool g Hac Hh fuel x Hlen).
  - intros x Hc.
    destruct (summarize_bnode Collection_items Literal_bool g x 0 Hc) as [n [-> _]].
    eexists. intros fuel.
    destruct (summarize_bnode Collection_items Literal_bool g _ fuel Hc)
      as [n' [[= <-] H]].
    exact H.
  - intros x g' Hc Hc' Hpo.
    destruct (summarize_bnode Collection_items Literal_bool g x 0 Hc) as [n [-> H]].
    destruct (summarize_bnode Collection_items Literal_bool g' _ 0 Hc')
      as [n' [[= <-] H']].
    rewrite H, H', (Hpo n eq_refl). reflexivity.
Qed.

Lemma summarize_terminates_witness :
  exists r, summarize_expression rdflib_items plain_bool 25 zoo (Node (BNode "u")) = Some r.
Proof.
  apply (proj1 (@summarize_terminates rdflib_items plain_bool zoo
                  zoo_acyclic rdflib_items_follows_links)).
  vm_compute. lia.
Defined.

Lemma present_key_bound (g : graph) (n : node) (d : dict pyval)
    (p : IRI) (key : string) (val : node) :
  dict_keys d = ["exprType"; "onProperty"] ++ map snd (filter (present g n) fillers) ->
  In (p, key) fillers -> value g n p = Some val ->
  dict_get key d <> None.
Proof.
  intros Hk Hin Hv Hnone. apply dict_get_None in Hnone. apply Hnone.
  rewrite Hk. apply in_or_app. right.
  change key with (snd (p, key)). apply in_map. apply filter_In.
  split; [assumption|]. unfold present. simpl. rewrite Hv. reflexivity.
Qed.

(** C2, as the code has it: a Restriction record holds exprType and
    onProperty, then one field for each of the nine filler predicates the
    node has (none, one or several, in the order of the nine) and no other
    field; a filler that is a named or anonymous node is held as its nested
    record, a literal filler as its string form, and a filler predicate the
    node lacks has no field. *)
Theorem restriction_record_fields
    (Collection_items : graph -> node -> list node * bool)
    (Literal_bool : string -> option IRI -> option string -> bool)
    (g : graph) (x : pyobj) (fuel : nat) (r : pyval) :
  classify g x = SRestriction ->
  summarize_expression Collection_items Literal_bool (S fuel) g x = Some r ->
  exists id d,
    x = Node (BNode id) /\ r = PDict d
    /\ dict_keys d = ["exprType"; "onProperty"]
                     ++ map snd (filter (present g (BNode id)) fillers)
    /\ forall p key, In (p, key) fillers ->
         match value g (BNode id) p with
         | None => dict_get key d = None
         | Some val =>
             if is_Literal val then dict_get key d = Some (PStr (str val))
             else exists d',
                 summarize_expression Collection_items Literal_bool fuel g (Node val)
                 = Some (PDict d')
                 /\ dict_get key d = Some (PDict d')
         end.
Proof.
  intros Hc Hr. destruct (classify_restriction_bnode g x Hc) as [id ->].
  destruct (summarize_restriction Collection_items Literal_bool g id fuel Hc Hr)
    as (d & -> & Hkeys & _ & _ & Hget).
  exists id, d. repeat split; try assumption.
  intros p key Hin. specialize (Hget p key Hin).
  pose proof (@present_key_bound g (BNode id) d p key) as Hb.
  unfold filler_field in Hget.
  destruct (value g (BNode id) p) as [val|]; [|assumption].
  specialize (Hb val Hkeys Hin eq_refl).
  destruct val as [i|b|lex dt lg]; simpl in *; try assumption.
  - destruct (summarize_expression _ _ fuel g (Node (URIRef i))) as [v|] eqn:Hv;
      [|congruence].
    destruct (summarize_shape _ _ _ _ _ Hv) as [d' [-> _]]. eauto.
  - destruct (summarize_expression _ _ fuel g (Node (BNode b))) as [v|] eqn:Hv;
      [|congruence].
    destruct (summarize_shape _ _ _ _ _ Hv) as [d' [-> _]]. eauto.
Qed.

Lemma restriction_record_fields_witness :
  exists id d,
    Node (BNode "r1") = Node (BNode id)
    /\ PDict [("exprType", PStr "Restriction");
              ("onProperty", PStr "http://example.org/hasOwner");
              ("someValuesFrom",
               PDict [("exprType", PStr "Named");
                      ("iri", PStr "http://example.org/Person")])] = PDict d
    /\ dict_keys d = ["exprType"; "onProperty"]
                     ++ map snd (filter (present zoo (BNode id)) fillers).
Proof.
  destruct (@restriction_record_fields rdflib_items plain_bool zoo
              (Node (BNode "r1")) 1
              (PDict [("exprType", PStr "Restriction");
                      ("onProperty", PStr "http://example.org/hasOwner");
                      ("someValuesFrom",
                       PDict [("exprType", PStr "Named");
                              ("iri", PStr "http://example.org/Person")])]))
    as (id & d & H1 & H2 & H3 & _).
  - vm_compute. reflexivity.
  - vm_compute. reflexivity.
  - exists id, d. repeat split; assumption.
Defined.

(** C2 as stated fails: the record of a self-restriction, typed
    owl:Restriction with an onProperty link, holds none of the nine filler
    fields. *)
Lemma restriction_exactly_one_filler_fails :
  exists d,
    summarize_expression rdflib_items plain_bool 2 narcissist (Node (BNode "self"))
    = Some (PDict d)
    /\ dict_get "exprType" d = Some (PStr "Restriction")
    /\ filler_fields d = [].
Proof.
  eexists. split; [vm_compute; reflexivity|]. split; vm_compute; reflexivity.
Qed.

(** C10: an anonymous node typed owl:Restriction and without onProperty
    triple still gets a Restriction record (on a graph without cycles, once
    the fuel exceeds the number of triples); its onProperty field is there,
    holding None; a filler the node lacks has no field; and no other field of
    the record holds None. *)
Theorem restriction_without_onProperty
    (Collection_items : graph -> node -> list node * bool)
    (Literal_bool : string -> option IRI -> option string -> bool)
    (g : graph) (id : string) (fuel : nat) :
  acyclic g -> follows_links Collection_items ->
  In (T (BNode id) RDF.type (URIRef OWL.Restriction)) g ->
  (forall o, ~ In (T (BNode id) OWL.onProperty o) g) ->
  List.length g < fuel ->
  exists d,
    summarize_expression Collection_items Literal_bool fuel g (Node (BNode id))
    = Some (PDict d)
    /\ dict_get "exprType" d = Some (PStr "Restriction")
    /\ dict_get "onProperty" d = Some PNone
    /\ (forall p key, In (p, key) fillers ->
          (forall o, ~ In (T (BNode id) p o) g) -> dict_get key d = None)
    /\ (forall k, dict_get k d = Some PNone -> k = "onProperty").
Proof.
  intros Hac Hh Hty Hno Hlen.
  assert (Hval : forall p, (forall o, ~ In (T (BNode id) p o) g) ->
                           value g (BNode id) p = None).
  { intros p Hp. destruct (value g (BNode id) p) as [o|] eqn:Hv; [|reflexivity].
    apply value_In in Hv. destruct (Hp o Hv). }
  assert (Hc : classify g (Node (BNode id)) = SRestriction).
  { rewrite classify_bnode.
    apply contains_In in Hty. rewrite Hty. reflexivity. }
  destruct fuel as [|fuel]; [lia|].
  destruct (@summarize_total Collection_items Literal_bool g Hac Hh (S fuel)
              (Node (BNode id)) Hlen) as [r Hr].
  destruct (summarize_restriction Collection_items Literal_bool g id fuel Hc Hr)
    as (d & -> & Hkeys & Htag & Hon & Hget).
  exists d. split; [assumption|]. split; [assumption|].
  split; [|split].
  - rewrite Hon, (Hval _ Hno). reflexivity.
  - intros p key Hin Hp. rewrite (Hget p key Hin).
    unfold filler_field. rewrite (Hval _ Hp). reflexivity.
  - intros k Hk.
    assert (Hin : In k (dict_keys d)).
    { apply dict_get_In in Hk. change k with (fst (k, PNone)).
      apply in_map. assumption. }
    rewrite Hkeys in Hin. apply in_app_or in Hin.
    destruct Hin as [[<-|[<-|[]]]|Hin]; [congruence|reflexivity|].
    exfalso. apply in_map_iff in Hin. destruct Hin as [[p key] [Heq Hin]].
    simpl in Heq. subst key. apply filter_In in Hin. destruct Hin as [Hin _].
    rewrite (Hget p k Hin) in Hk. unfold filler_field in Hk.
    destruct (value g (BNode id) p) as [val|]; [|discriminate].
    destruct (is_BNode val || is_URIRef val); [|discriminate].
    destruct (summarize_shape _ _ _ _ _ Hk) as [d' [Hd _]]. discriminate.
Qed.

Lemma restriction_without_onProperty_witness :
  exists d,
    summarize_expression rdflib_items plain_bool 30 zoo (Node (BNode "r0"))
    = Some (PDict d)
    /\ dict_get "exprType" d = Some (PStr "Restriction")
    /\ dict_get "onProperty" d = Some PNone.
Proof.
  destruct (@restriction_without_onProperty rdflib_items plain_bool zoo "r0" 30)
    as (d & H1 & H2 & H3 & _).
  - exact zoo_acyclic.
  - exact rdflib_items_follows_links.
  - vm_compute. tauto.
  - intros o H. vm_compute in H.
    repeat (destruct H as [H|H]; [discriminate H|]). destruct H.
  - vm_compute. lia.
  - exists d. repeat split; assumption.
Defined.

(** ** Property characteristics *)

Lemma contains_ext (g g' : graph) (s : node) (p : IRI) (o : node) :
  (forall t, In t g <-> In t g') -> contains g' s p o = contains g s p o.
Proof.
  intros H. destruct (contains g s p o) eqn:E.
  - apply contains_In. apply H. apply contains_In. assumption.
  - destruct (contains g' s p o) eqn:E'; [|reflexivity].
    apply contains_In in E'. apply H in E'. apply contains_In in E'. congruence.
Qed.

(** C8: the characteristics of a property are the tags, among the seven,
    whose owl class the graph types the property with, in the fixed order
    Functional, InverseFunctional, Transitive, Symmetric, Asymmetric,
    Reflexive, Irreflexive; the order in which the graph yields its triples
    plays no part; a property typed FunctionalProperty and
    TransitiveProperty, and with none of the other five, gets exactly
    Functional, Transitive. *)
Theorem characteristics_fixed_order (g : graph) (prop : node) :
  extract_property_characteristics g prop =
  map snd (filter (fun ct => contains g prop RDF.type (URIRef (fst ct)))
             characteristic_classes)
  /\ (forall g', (forall t, In t g <-> In t g') ->
        extract_property_characteristics g' prop =
        extract_property_characteristics g prop)
  /\ (In (T prop RDF.type (URIRef OWL.FunctionalProperty)) g ->
      In (T prop RDF.type (URIRef OWL.TransitiveProperty)) g ->
      (forall cls, In (T prop RDF.type (URIRef cls)) g ->
         In cls [OWL.InverseFunctionalProperty; OWL.SymmetricProperty;
                 OWL.AsymmetricProperty; OWL.ReflexiveProperty;
                 OWL.IrreflexiveProperty] -> False) ->
      extract_property_characteristics g prop = ["Functional"; "Transitive"]).
Proof.
  assert (Hfilter : forall g0,
            extract_property_characteristics g0 prop =
            map snd (filter (fun ct => contains g0 prop RDF.type (URIRef (fst ct)))
                       characteristic_classes)).
  { intros g0. unfold extract_property_characteristics, characteristic_classes.
    cbn [filter map fst snd].
    destruct (contains g0 prop RDF.type (URIRef OWL.FunctionalProperty));
    destruct (contains g0 prop RDF.type (URIRef OWL.InverseFunctionalProperty));
    destruct (contains g0 prop RDF.type (URIRef OWL.TransitiveProperty));
    destruct (contains g0 prop RDF.type (URIRef OWL.SymmetricProperty));
    destruct (contains g0 prop RDF.type (URIRef OWL.AsymmetricProperty));
    destruct (contains g0 prop RDF.type (URIRef OWL.ReflexiveProperty));
    destruct (contains g0 prop RDF.type (URIRef OWL.IrreflexiveProperty));
    reflexivity. }
  split; [apply Hfilter|]. split.
  - intros g' Hsame. rewrite !Hfilter. f_equal. apply filter_ext.
    intros ct. apply contains_ext. assumption.
  - intros HF HT Hnone. rewrite Hfilter.
    unfold characteristic_classes. cbn [filter map fst snd].
    apply contains_In in HF. apply contains_In in HT. rewrite HF, HT.
    assert (Hoff : forall cls,
              In cls [OWL.InverseFunctionalProperty; OWL.SymmetricProperty;
                      OWL.AsymmetricProperty; OWL.ReflexiveProperty;
                      OWL.IrreflexiveProperty] ->
              contains g prop RDF.type (URIRef cls) = false).
    { intros cls Hin. destruct (contains g prop RDF.type (URIRef cls)) eqn:E;
        [|reflexivity].
      apply contains_In in E. destruct (Hnone cls E Hin). }
    rewrite !Hoff by (cbn [In]; tauto). reflexivity.
Qed.

Lemma characteristics_fixed_order_witness :
  extract_property_characteristics zoo (ex "hasOwner") = ["Functional"; "Transitive"].
Proof.
  apply (proj2 (proj2 (characteristics_fixed_order zoo (ex "hasOwner")))).
  - vm_compute. tauto.
  - vm_compute. tauto.
  - intros cls Hin Hcls. cbn [In] in Hcls.
    destruct Hcls as [<-|[<-|[<-|[<-|[<-|[]]]]]]; vm_compute in Hin;
      repeat (destruct Hin as [Hin|Hin]; [discriminate Hin|]); destruct Hin.
Defined.

(** ** The manual list walk *)

Lemma manual_walk_rdf_list
    (Literal_bool : string -> option IRI -> option string -> bool)
    (g : graph) (c : node) (xs : list node) :
  rdf_list Literal_bool g c xs ->
  forall fuel acc, List.length xs < fuel ->
    manual_walk Literal_bool fuel g c acc = Some (acc ++ xs).
Proof.
  induction 1 as [|c x c' xs [Ht Hn] Hf Hr _ IH]; intros fuel acc Hlen;
    (destruct fuel as [|fuel]; [simpl in Hlen; lia|]); cbn [manual_walk].
  - rewrite node_eqb_refl. cbn [negb]. rewrite andb_false_r, app_nil_r.
    reflexivity.
  - apply node_eqb_neq in Hn. rewrite Ht, Hn, Hf, Hr. cbn [negb andb].
    rewrite IH by (simpl in Hlen; lia). rewrite <- app_assoc. reflexivity.
Qed.

Lemma manual_walk_truncated
    (Literal_bool : string -> option IRI -> option string -> bool)
    (g : graph) (c : node) (xs : list node) :
  truncated_list Literal_bool g c xs ->
  forall fuel acc, List.length xs < fuel ->
    manual_walk Literal_bool fuel g c acc = Some (acc ++ xs).
Proof.
  induction 1 as [c x [Ht Hn] Hf Hr|c [Ht Hn] Hf|c x c' xs [Ht Hn] Hf Hr _ IH];
    intros fuel acc Hlen;
    (destruct fuel as [|fuel]; [simpl in Hlen; lia|]); cbn [manual_walk];
    apply node_eqb_neq in Hn; rewrite Ht, Hn, Hf; cbn [negb andb].
  - rewrite Hr. reflexivity.
  - rewrite app_nil_r. reflexivity.
  - rewrite Hr, IH by (simpl in Hlen; lia). rewrite <- app_assoc. reflexivity.
Qed.

Lemma looping_list_truncated :
  truncated_list plain_bool looping_list (BNode "c1") [ex "Cat"].
Proof.
  apply cut_cons with (BNode "c2");
    [split; [reflexivity|discriminate]|reflexivity|reflexivity|].
  apply cut_no_first; [split; [reflexivity|discriminate]|reflexivity].
Defined.

(** C6, at the input where the code departs from it.  In [looping_list] the
    chain from _:c1 holds one element and its second link lacks a first
    value, so the claim gives exactly the one element ex:Cat.  Iterating
    the Collection yields ex:Cat and then raises on the rest link that leads
    back to the head; the except branch starts again from the head and
    appends to the list the try branch has already filled, so the
    materializer returns ex:Cat twice, whatever the fuel from 2 on.  The
    same walk started on an empty list gives the one element. *)
Theorem fallback_repeats_yielded_items :
  truncated_list plain_bool looping_list (BNode "c1") [ex "Cat"]
  /\ rdflib_items looping_list (BNode "c1") = ([ex "Cat"], true)
  /\ (forall fuel,
        manual_walk plain_bool (S (S fuel)) looping_list (BNode "c1") []
        = Some [ex "Cat"])
  /\ (forall fuel,
        rdf_list_to_py rdflib_items plain_bool (S (S fuel)) looping_list
          (BNode "c1")
        = Some [ex "Cat"; ex "Cat"])
  /\ [ex "Cat"; ex "Cat"] <> [ex "Cat"].
Proof.
  split; [exact looping_list_truncated|].
  split; [vm_compute; reflexivity|].
  split; [intros fuel; reflexivity|].
  split; [intros fuel; reflexivity|discriminate].
Qed.

(** ** Discovery of the terms *)

Lemma in_terms_In (s : node) (terms : list term) :
  in_terms s terms = true <-> exists cat, In (cat, s) terms.
Proof.
  unfold in_terms. rewrite existsb_exists. split.
  - intros [[cat n] [Hin Heq]]. simpl in Heq. apply node_eqb_eq in Heq.
    subst n. eauto.
  - intros [cat Hin]. exists (cat, s). split; [assumption|apply node_eqb_refl].
Qed.

Lemma in_terms_false (s : node) (terms : list term) :
  in_terms s terms = false <-> forall cat, ~ In (cat, s) terms.
Proof.
  split.
  - intros H cat Hin.
    assert (Ht : in_terms s terms = true) by (apply in_terms_In; eauto).
    congruence.
  - intros H. destruct (in_terms s terms) eqn:E; [|reflexivity].
    apply in_terms_In in E. destruct E as [cat Hin]. destruct (H cat Hin).
Qed.

Lemma add_missing_In (cat : string) (cond : node -> bool)
    (terms : list term) (s : node) (t : term) :
  In t (add_missing cat cond terms s) <->
  In t terms \/ (t = (cat, s) /\ cond s = true /\ in_terms s terms = false).
Proof.
  unfold add_missing. destruct (cond s); [destruct (in_terms s terms)|].
  - split; [tauto|]. intros [H|(_ & _ & H)]; [assumption|discriminate].
  - rewrite in_app_iff. simpl. split.
    + intros [H|[<-|[]]]; [left; assumption|right; tauto].
    + intros [H|(-> & _)]; [left; assumption|right; left; reflexivity].
  - split; [tauto|]. intros [H|(_ & H & _)]; [assumption|discriminate].
Qed.

Lemma fold_add_missing_In (cat : string) (cond : node -> bool) (l : list node) :
  NoDup l ->
  forall terms t,
    In t (fold_left (add_missing cat cond) l terms) <->
    In t terms
    \/ (fst t = cat /\ In (snd t) l /\ cond (snd t) = true
        /\ in_terms (snd t) terms = false).
Proof.
  induction 1 as [|s l Hnot Hnd IH]; intros terms t; simpl; [tauto|].
  rewrite IH, add_missing_In. split.
  - intros [[H|(-> & Hc & Hi)]|(Hcat & Hin & Hc & Hi)].
    + left. assumption.
    + right. simpl. tauto.
    + right. repeat split; try assumption; [right; assumption|].
      apply in_terms_false. intros c Hc'.
      rewrite in_terms_false in Hi. apply (Hi c).
      apply add_missing_In. left. assumption.
  - intros [H|(Hcat & [Heq|Hin] & Hc & Hi)].
    + left. left. assumption.
    + left. right. subst s. destruct t as [c n]. simpl in *. subst c. tauto.
    + right. repeat split; try assumption.
      apply in_terms_false. intros c Hc'. apply add_missing_In in Hc'.
      destruct Hc' as [Hc'|(Heq & _)].
      * rewrite in_terms_false in Hi. apply (Hi c Hc').
      * injection Heq as _ Heq. subst s. contradiction.
Qed.

Lemma fold_add_missing_NoDup (cat : string) (cond : node -> bool) (l : list node) :
  forall terms, NoDup terms -> NoDup (fold_left (add_missing cat cond) l terms).
Proof.
  induction l as [|s l IH]; intros terms Hnd; simpl; [assumption|].
  apply IH. unfold add_missing.
  destruct (cond s); [|assumption].
  destruct (in_terms s terms) eqn:E; [assumption|].
  apply NoDup_app; [assumption|repeat constructor; intros []|].
  intros x Hx [<-|[]]. rewrite in_terms_false in E. apply (E cat Hx).
Qed.

Section Discovery.
Variable set_iter : list node -> list node.
Hypothesis set_ok : set_semantics set_iter.
Variable g : graph.

Lemma typed_subjects_In (cat : string) (cls : IRI) (t : term) :
  In t (typed_subjects set_iter g cat cls) <->
  fst t = cat /\ is_URIRef (snd t) = true /\ typed g (snd t) cls.
Proof.
  unfold typed_subjects, typed. rewrite in_map_iff. split.
  - intros [s [<- Hs]]. apply filter_In in Hs. destruct Hs as [Hs Hu].
    apply (proj1 (proj2 (set_ok _) _)) in Hs. apply subjects_In in Hs.
    simpl. tauto.
  - intros (Hc & Hu & Ht). exists (snd t). split.
    + destruct t; simpl in *; subst; reflexivity.
    + apply filter_In. split; [|assumption].
      apply (proj2 (proj2 (set_ok _) _)). apply subjects_In. assumption.
Qed.

Lemma typed_subjects_NoDup (cat : string) (cls : IRI) :
  NoDup (typed_subjects set_iter g cat cls).
Proof.
  unfold typed_subjects. apply Injective_map_NoDup.
  - intros a b [= ->]. reflexivity.
  - apply NoDup_filter. apply (proj1 (set_ok _)).
Qed.

Lemma usage_cond_spec (s : node) :
  usage_cond g s = true <-> is_URIRef s = true /\ class_by_usage g s.
Proof.
  unfold usage_cond, class_by_usage.
  rewrite andb_true_iff, orb_true_iff, !has_pred_In.
  split; intros [Hu H]; (split; [assumption|]).
  - destruct H as [[o H]|[o H]]; exists o; tauto.
  - destruct H as [o [H|H]]; [left|right]; exists o; assumption.
Qed.

Lemma individual_cond_spec (s : node) :
  individual_cond g s = true <-> is_URIRef s = true /\ has_type g s.
Proof.
  unfold individual_cond, has_type. rewrite andb_true_iff.
  split; intros [Hu H]; (split; [assumption|]).
  - destruct (objects g s RDF.type) as [|o os] eqn:E; [discriminate|].
    exists o. apply objects_In. rewrite E. left. reflexivity.
  - destruct H as [o Ho]. apply objects_In in Ho.
    destruct (objects g s RDF.type); [destruct Ho|reflexivity].
Qed.

(** The list of terms, with its two conditional loops written as folds of
    [add_missing]. *)
Lemma discover_terms_eq :
  discover_terms set_iter g =
  fold_left (add_missing "Individual" (individual_cond g))
    (set_iter (subjects_of_pred g RDF.type))
    (fold_left (add_missing "Class" (usage_cond g)) (set_iter (all_subjects g))
       (typed_subjects set_iter g "Class" OWL.Class)
     ++ typed_subjects set_iter g "ObjectProperty" OWL.ObjectProperty
     ++ typed_subjects set_iter g "DatatypeProperty" OWL.DatatypeProperty
     ++ typed_subjects set_iter g "AnnotationProperty" OWL.AnnotationProperty).
Proof.
  unfold discover_terms. rewrite <- !app_assoc.
  assert (Hf : forall (f f' : list term -> node -> list term) l a,
            (forall a s, f a s = f' a s) -> fold_left f l a = fold_left f' l a).
  { intros f f' l. induction l as [|s l IH]; intros a H; simpl; [reflexivity|].
    rewrite H. apply IH. assumption. }
  rewrite Hf with (f' := add_missing "Individual" (individual_cond g)).
  - reflexivity.
  - intros a s. unfold add_missing, individual_cond.
    destruct (is_URIRef s); [|reflexivity]. simpl.
    destruct (objects g s RDF.type); destruct (in_terms s a); reflexivity.
Qed.

End Discovery.

Section Roles.
Variable set_iter : list node -> list node.
Hypothesis set_ok : set_semantics set_iter.
Variable g : graph.

Lemma class_terms_In (cat : string) (s : node) :
  In (cat, s)
    (fold_left (add_missing "Class" (usage_cond g)) (set_iter (all_subjects g))
       (typed_subjects set_iter g "Class" OWL.Class)) <->
  cat = "Class" /\ is_URIRef s = true
  /\ (typed g s OWL.Class \/ class_by_usage g s).
Proof.
  rewrite fold_add_missing_In by apply (proj1 (set_ok _)).
  rewrite (@typed_subjects_In set_iter set_ok g "Class" OWL.Class (cat, s)).
  rewrite usage_cond_spec. cbn [fst snd]. split.
  - intros [(Hc & Hu & Ht)|(Hc & _ & (Hu & Hcu) & _)]; tauto.
  - intros (Hc & Hu & H).
    destruct (in_terms s (typed_subjects set_iter g "Class" OWL.Class)) eqn:E.
    + apply in_terms_In in E. destruct E as [c Hin].
      apply (@typed_subjects_In set_iter set_ok g "Class" OWL.Class (c, s)) in Hin.
      cbn [fst snd] in Hin. left. tauto.
    + destruct H as [H|H]; [left; tauto|]. right.
      repeat split; try assumption.
      apply (proj2 (proj2 (set_ok _) _)). apply all_subjects_In.
      destruct H as [o [H|H]]; eauto.
Qed.

Lemma declared_terms_In (cat : string) (s : node) :
  In (cat, s) (declared_terms set_iter g) <->
  is_URIRef s = true
  /\ ((cat = "Class" /\ (typed g s OWL.Class \/ class_by_usage g s))
      \/ (cat = "ObjectProperty" /\ typed g s OWL.ObjectProperty)
      \/ (cat = "DatatypeProperty" /\ typed g s OWL.DatatypeProperty)
      \/ (cat = "AnnotationProperty" /\ typed g s OWL.AnnotationProperty)).
Proof.
  unfold declared_terms. rewrite !in_app_iff, class_terms_In.
  rewrite !(@typed_subjects_In set_iter set_ok g). cbn [fst snd]. tauto.
Qed.

Lemma discover_terms_In (cat : string) (s : node) :
  In (cat, s) (discover_terms set_iter g) <->
  In (cat, s) (declared_terms set_iter g)
  \/ (cat = "Individual" /\ is_URIRef s = true /\ has_type g s
      /\ forall c, ~ In (c, s) (declared_terms set_iter g)).
Proof.
  rewrite discover_terms_eq. fold (declared_terms set_iter g).
  rewrite fold_add_missing_In by apply (proj1 (set_ok _)).
  rewrite individual_cond_spec, in_terms_false. cbn [fst snd]. split.
  - intros [H|H]; tauto.
  - intros [H|(Hc & Hu & Ht & Hno)]; [left; assumption|right].
    repeat split; try assumption.
    apply (proj2 (proj2 (set_ok _) _)). apply subjects_of_pred_In. exact Ht.
Qed.

Lemma discover_terms_named (cat : string) (s : node) :
  In (cat, s) (discover_terms set_iter g) -> exists i, s = URIRef i.
Proof.
  intros H. assert (Hu : is_URIRef s = true).
  { apply discover_terms_In in H. rewrite declared_terms_In in H. tauto. }
  destruct s; try discriminate. eauto.
Qed.

(** A named resource is listed with a role exactly when it holds that role. *)
Lemma discover_terms_role (cat : string) (i : IRI) :
  In (cat, URIRef i) (discover_terms set_iter g) <-> has_role g (URIRef i) cat.
Proof.
  rewrite discover_terms_In, declared_terms_In. split.
  - intros [(_ & H)|(-> & _ & Ht & Hno)].
    + destruct H as [[-> H]|[[-> H]|[[-> H]|[-> H]]]].
      * apply role_class. assumption.
      * apply role_object_property. assumption.
      * apply role_datatype_property. assumption.
      * apply role_annotation_property. assumption.
    + apply role_individual; [assumption|..]; intros H.
      * apply (Hno "Class"). apply declared_terms_In. simpl. tauto.
      * apply (Hno "Class"). apply declared_terms_In. simpl. tauto.
      * apply (Hno "ObjectProperty"). apply declared_terms_In. simpl. tauto.
      * apply (Hno "DatatypeProperty"). apply declared_terms_In. simpl. tauto.
      * apply (Hno "AnnotationProperty"). apply declared_terms_In. simpl. tauto.
  - intros H. destruct H as [H|H|H|H|Ht H1 H2 H3 H4 H5].
    + left. simpl. tauto.
    + left. simpl. tauto.
    + left. simpl. tauto.
    + left. simpl. tauto.
    + right. repeat split; try assumption.
      intros c Hc. apply declared_terms_In in Hc. tauto.
Qed.

Lemma declared_terms_NoDup : NoDup (declared_terms set_iter g).
Proof.
  unfold declared_terms.
  assert (Hcat : forall cat cls t,
            In t (typed_subjects set_iter g cat cls) -> fst t = cat).
  { intros cat cls t Ht.
    apply (@typed_subjects_In set_iter set_ok g cat cls t) in Ht. tauto. }
  assert (Hclass : forall t,
            In t (fold_left (add_missing "Class" (usage_cond g))
                    (set_iter (all_subjects g))
                    (typed_subjects set_iter g "Class" OWL.Class)) ->
            fst t = "Class").
  { intros [c s] Ht. apply class_terms_In in Ht. simpl. tauto. }
  apply NoDup_app.
  - apply fold_add_missing_NoDup. apply typed_subjects_NoDup. assumption.
  - apply NoDup_app; [apply typed_subjects_NoDup; assumption| |].
    + apply NoDup_app; try (apply typed_subjects_NoDup; assumption).
      intros t H1 H2. apply Hcat in H1. apply Hcat in H2.
      rewrite H1 in H2. discriminate.
    + intros t H1 H2. apply Hcat in H1. apply in_app_or in H2.
      destruct H2 as [H2|H2]; apply Hcat in H2; rewrite H1 in H2; discriminate.
  - intros t H1 H2. apply Hclass in H1. apply in_app_or in H2.
    destruct H2 as [H2|H2]; [|apply in_app_or in H2; destruct H2 as [H2|H2]];
      apply Hcat in H2; rewrite H1 in H2; discriminate.
Qed.

Lemma discover_terms_NoDup : NoDup (discover_terms set_iter g).
Proof.
  rewrite discover_terms_eq. apply fold_add_missing_NoDup.
  apply declared_terms_NoDup.
Qed.

End Roles.

(** ** The pass over the terms *)

Lemma append_new_In (c x : string) (l : list string) :
  In x (append_new c l) <-> x = c \/ In x l.
Proof.
  unfold append_new. destruct (in_dec string_dec c l) as [Hin|Hin].
  - split; [tauto|]. intros [->|H]; assumption.
  - rewrite in_app_iff. simpl. split.
    + intros [H|[H|[]]]; [right; assumption|left; congruence].
    + intros [->|H]; [right; left; reflexivity|left; assumption].
Qed.

Lemma append_new_NoDup (c : string) (l : list string) :
  NoDup l -> NoDup (append_new c l).
Proof.
  intros Hnd. unfold append_new.
  destruct (in_dec string_dec c l) as [Hin|Hin]; [assumption|].
  apply NoDup_app; [assumption|repeat constructor; intros []|].
  intros x Hx [<-|[]]. contradiction.
Qed.

Lemma extend_new_In (xs : list string) :
  forall l x, In x (extend_new xs l) <-> In x l \/ In x xs.
Proof.
  unfold extend_new. induction xs as [|y xs IH]; intros l x; simpl; [tauto|].
  rewrite IH, append_new_In. split.
  - intros [[->|H]|H]; [right; left; reflexivity|left; assumption|right; right; assumption].
  - intros [H|[<-|H]]; [left; right; assumption|left; left; reflexivity|right; assumption].
Qed.

Lemma map_opt_Forall2 (rec : pyobj -> option pyval) (items : list node) :
  forall vs, map_opt rec items = Some vs ->
             Forall2 (fun o v => rec (Node o) = Some v) items vs.
Proof.
  induction items as [|i items IH]; intros vs H; simpl in H.
  - injection H as <-. constructor.
  - destruct (rec (Node i)) as [v|] eqn:Hv; [|discriminate].
    destruct (map_opt rec items) as [vs'|]; [|discriminate].
    injection H as <-. constructor; [assumption|apply IH; reflexivity].
Qed.

Section Pass.
Variable Collection_items : graph -> node -> list node * bool.
Variable Literal_bool : string -> option IRI -> option string -> bool.
Variable fuel : nat.
Variable g : graph.

Abbreviation summaries := (map_opt (summarize_expression Collection_items Literal_bool fuel g)).
Abbreviation body := (process_term Collection_items Literal_bool fuel g).
Abbreviation run := (run_terms Collection_items Literal_bool fuel g).
Abbreviation pass := (process_terms Collection_items Literal_bool fuel g).

(** What one round of the loop body does to the fields the claims are
    about. *)
Lemma process_term_fields (cat : string) (n : node) (e e' : entry) :
  body cat n e = Some e' ->
  iri e' = iri e
  /\ types e' = append_new cat (types e)
  /\ labels e' = extend_new (get_literals_for_pred g n [RDFS.label; SKOS.prefLabel]) (labels e)
  /\ comments e' = extend_new (get_literals_for_pred g n [RDFS.comment]) (comments e)
  /\ annotations e' = merge_annotations (collect_annotations g n) (annotations e)
  /\ exists sups eqs,
       (if String.eqb cat "Class"
        then summaries (objects g n RDFS.subClassOf) = Some sups
             /\ summaries (objects g n OWL.equivalentClass) = Some eqs
        else sups = [] /\ eqs = [])
       /\ subClassOf e' = subClassOf e ++ sups
       /\ equivalentClass e' = equivalentClass e ++ eqs.
Proof.
  unfold process_term. intros H.
  destruct (String.eqb cat "Class").
  - destruct (summaries (objects g n RDFS.subClassOf)) as [sups|]; [|discriminate].
    destruct (summaries (objects g n OWL.equivalentClass)) as [eqs|]; [|discriminate].
    injection H as <-. cbn [iri types labels comments annotations subClassOf equivalentClass].
    repeat split. exists sups, eqs. repeat split.
  - injection H as <-. cbn [iri types labels comments annotations subClassOf equivalentClass].
    repeat split. exists [], []. repeat split.
Qed.

Lemma process_term_total (cat : string) (n : node) (e : entry) :
  (forall x, exists r, summarize_expression Collection_items Literal_bool fuel g x = Some r) ->
  exists e', body cat n e = Some e'.
Proof.
  intros Htot. unfold process_term.
  assert (Hs : forall items, exists vs, summaries items = Some vs).
  { intros items. apply map_opt_total. intros x _. apply Htot. }
  destruct (String.eqb cat "Class"); [|eauto].
  destruct (Hs (objects g n RDFS.subClassOf)) as [sups ->].
  destruct (Hs (objects g n OWL.equivalentClass)) as [eqs ->]. eauto.
Qed.

Lemma run_terms_total (ts : list term) :
  (forall x, exists r, summarize_expression Collection_items Literal_bool fuel g x = Some r) ->
  forall e, exists e', run ts e = Some e'.
Proof.
  intros Htot. induction ts as [|[cat n] ts IH]; intros e; simpl; [eauto|].
  destruct (process_term_total cat n e Htot) as [e1 ->]. apply IH.
Qed.

Lemma run_terms_types (ts : list term) :
  forall e e', run ts e = Some e' ->
    iri e' = iri e
    /\ (forall cat, In cat (types e') <-> In cat (types e) \/ In cat (map fst ts))
    /\ (NoDup (types e) -> NoDup (types e')).
Proof.
  induction ts as [|[c n] ts IH]; intros e e' H; simpl in H.
  - injection H as <-. simpl. tauto.
  - destruct (body c n e) as [e1|] eqn:H1; [|discriminate].
    apply process_term_fields in H1. destruct H1 as (Hi & Ht & _).
    destruct (IH _ _ H) as (Hi' & Ht' & Hnd'). split; [congruence|]. split.
    + intros cat. rewrite Ht', Ht, append_new_In. simpl. split.
      * intros [[->|Hx]|Hx]; tauto.
      * intros [Hx|[->|Hx]]; tauto.
    + intros Hnd. apply Hnd'. rewrite Ht. apply append_new_NoDup. assumption.
Qed.

Lemma run_terms_no_class (ts : list term) :
  (forall t, In t ts -> fst t <> "Class") ->
  forall e e', run ts e = Some e' ->
    subClassOf e' = subClassOf e /\ equivalentClass e' = equivalentClass e.
Proof.
  induction ts as [|[c n] ts IH]; intros Hno e e' H; simpl in H.
  - injection H as <-. tauto.
  - destruct (body c n e) as [e1|] eqn:H1; [|discriminate].
    apply process_term_fields in H1.
    destruct H1 as (_ & _ & _ & _ & _ & sups & eqs & Hs & Hsub & Heq).
    assert (Hc : String.eqb c "Class" = false).
    { apply String.eqb_neq. apply (Hno (c, n)). left. reflexivity. }
    rewrite Hc in Hs. destruct Hs as [-> ->]. rewrite app_nil_r in Hsub, Heq.
    destruct (IH (fun t Ht => Hno t (or_intror Ht)) _ _ H) as [H2 H3].
    split; congruence.
Qed.

(** The Class role of a resource is treated once: its record gets the
    summaries of all subClassOf objects and of all equivalentClass objects,
    one per object, in order. *)
Lemma run_terms_class (n : node) (ts : list term) :
  NoDup ts -> (forall t, In t ts -> snd t = n) -> In ("Class", n) ts ->
  forall e e', run ts e = Some e' ->
    exists sups eqs,
      summaries (objects g n RDFS.subClassOf) = Some sups
      /\ summaries (objects g n OWL.equivalentClass) = Some eqs
      /\ subClassOf e' = subClassOf e ++ sups
      /\ equivalentClass e' = equivalentClass e ++ eqs.
Proof.
  induction ts as [|[c m] ts IH]; intros Hnd Hsame Hin e e' H; [destruct Hin|].
  simpl in H.
  destruct (body c m e) as [e1|] eqn:H1; [|discriminate].
  apply process_term_fields in H1.
  destruct H1 as (_ & _ & _ & _ & _ & sups & eqs & Hs & Hsub & Heq).
  assert (Hm : m = n) by (apply (Hsame (c, m)); left; reflexivity). subst m.
  inversion Hnd as [|? ? Hnot Hnd']; subst.
  destruct (String.eqb c "Class") eqn:Hc.
  - apply String.eqb_eq in Hc. subst c. destruct Hs as [Hs1 Hs2].
    destruct (@run_terms_no_class ts) with (e := e1) (e' := e') as [H2 H3];
      [|assumption|].
    + intros [c' m'] Ht Hc'. simpl in Hc'. subst c'.
      assert (m' = n) by (apply (Hsame ("Class", m')); right; assumption).
      subst m'. contradiction.
    + exists sups, eqs. repeat split; congruence.
  - destruct Hs as [-> ->]. rewrite app_nil_r in Hsub, Heq.
    destruct Hin as [Hin|Hin].
    { injection Hin as ->. rewrite String.eqb_refl in Hc. discriminate. }
    destruct (IH Hnd' (fun t Ht => Hsame t (or_intror Ht)) Hin _ _ H)
      as (sups & eqs & Hs1 & Hs2 & H2 & H3).
    exists sups, eqs. repeat split; congruence.
Qed.

Lemma entry_at_set (k i : string) (e : entry) (es : dict entry) :
  entry_at k (dict_set i e es) = if String.eqb i k then e else entry_at k es.
Proof.
  unfold entry_at. destruct (String.eqb i k) eqn:E.
  - apply String.eqb_eq in E. subst. rewrite dict_get_set_same. reflexivity.
  - apply String.eqb_neq in E. rewrite dict_get_set_other by congruence.
    reflexivity.
Qed.

(** The pass, seen from one key: the loop body runs on the terms of that
    key, in order, starting from the record the key had. *)
Lemma process_terms_at (ts : list term) :
  forall es es', pass ts es = Some es' ->
    forall k,
      run (filter (fun t => String.eqb (str (snd t)) k) ts) (entry_at k es)
      = Some (entry_at k es').
Proof.
  induction ts as [|[c n] ts IH]; intros es es' H k; simpl in H.
  - injection H as <-. reflexivity.
  - fold (entry_at (str n) es) in H.
    destruct (body c n (entry_at (str n) es)) as [e1|] eqn:H1; [|discriminate].
    specialize (IH _ _ H k). rewrite entry_at_set in IH.
    cbn [filter snd]. destruct (String.eqb (str n) k) eqn:E.
    + apply String.eqb_eq in E. subst k. cbn [run_terms]. rewrite H1. assumption.
    + assumption.
Qed.

Lemma process_terms_total (ts : list term) :
  (forall x, exists r, summarize_expression Collection_items Literal_bool fuel g x = Some r) ->
  forall es, exists es', pass ts es = Some es'.
Proof.
  intros Htot. induction ts as [|[c n] ts IH]; intros es; simpl; [eauto|].
  fold (entry_at (str n) es).
  destruct (process_term_total c n (entry_at (str n) es) Htot) as [e1 ->].
  apply IH.
Qed.

Lemma process_terms_keys (ts : list term) :
  forall es es', pass ts es = Some es' ->
    (NoDup (dict_keys es) -> NoDup (dict_keys es'))
    /\ (forall k, In k (dict_keys es') <->
                  In k (dict_keys es) \/ In k (map (fun t => str (snd t)) ts)).
Proof.
  induction ts as [|[c n] ts IH]; intros es es' H; simpl in H.
  - injection H as <-. simpl. tauto.
  - destruct (body c n _) as [e1|]; [|discriminate].
    destruct (IH _ _ H) as [Hnd Hk]. split.
    + intros H0. apply Hnd. apply dict_keys_set_NoDup. assumption.
    + intros k. rewrite Hk, dict_keys_set_In. simpl. split.
      * intros [[->|Hx]|Hx]; tauto.
      * intros [Hx|[<-|Hx]]; tauto.
Qed.

End Pass.

(** ** The gatherer *)

Lemma some_order_ok : set_semantics some_order.
Proof.
  intros l. split; [apply NoDup_nodup|]. intros x. apply nodup_In.
Qed.

Lemma discovered_role (g : graph) (s : node) :
  discovered g s <-> exists cat, has_role g s cat.
Proof.
  split.
  - intros H.
    destruct (contains g s RDF.type (URIRef OWL.Class)) eqn:E1.
    { apply contains_In in E1. exists "Class". apply role_class. left. exact E1. }
    destruct (has_pred g s RDFS.subClassOf) eqn:E2.
    { apply has_pred_In in E2. destruct E2 as [o Ho].
      exists "Class". apply role_class. right. exists o. tauto. }
    destruct (has_pred g s OWL.equivalentClass) eqn:E3.
    { apply has_pred_In in E3. destruct E3 as [o Ho].
      exists "Class". apply role_class. right. exists o. tauto. }
    destruct (contains g s RDF.type (URIRef OWL.ObjectProperty)) eqn:E4.
    { apply contains_In in E4. exists "ObjectProperty".
      apply role_object_property. exact E4. }
    destruct (contains g s RDF.type (URIRef OWL.DatatypeProperty)) eqn:E5.
    { apply contains_In in E5. exists "DatatypeProperty".
      apply role_datatype_property. exact E5. }
    destruct (contains g s RDF.type (URIRef OWL.AnnotationProperty)) eqn:E6.
    { apply contains_In in E6. exists "AnnotationProperty".
      apply role_annotation_property. exact E6. }
    assert (N1 : ~ typed g s OWL.Class).
    { intros Ht. apply contains_In in Ht. congruence. }
    assert (N2 : ~ class_by_usage g s).
    { intros [o [Ho|Ho]].
      - assert (has_pred g s RDFS.subClassOf = true) by (apply has_pred_In; eauto).
        congruence.
      - assert (has_pred g s OWL.equivalentClass = true) by (apply has_pred_In; eauto).
        congruence. }
    assert (N4 : ~ typed g s OWL.ObjectProperty).
    { intros Ht. apply contains_In in Ht. congruence. }
    assert (N5 : ~ typed g s OWL.DatatypeProperty).
    { intros Ht. apply contains_In in Ht. congruence. }
    assert (N6 : ~ typed g s OWL.AnnotationProperty).
    { intros Ht. apply contains_In in Ht. congruence. }
    exists "Individual". apply role_individual; try assumption.
    unfold discovered in H. tauto.
  - intros [cat H]. unfold discovered.
    destruct H as [[H|H]|H|H|H|H _ _ _ _ _]; tauto.
Qed.

Section Gatherer.
Variable Collection_items : graph -> node -> list node * bool.
Variable Literal_bool : string -> option IRI -> option string -> bool.
Variable set_iter : list node -> list node.
Variable g : graph.
Variable fuel : nat.

Hypothesis g_acyclic : acyclic g.
Hypothesis helper_ok : follows_links Collection_items.
Hypothesis set_ok : set_semantics set_iter.
Hypothesis enough : List.length g < fuel.

(** What the gatherer returns: one record per key, the keys being the IRIs
    of the listed terms, each record the result of running the loop body on
    the terms of its IRI. *)
Lemma gather_terms_records :
  exists ts,
    gather_terms Collection_items Literal_bool set_iter fuel g = Some ts
    /\ NoDup (map iri ts)
    /\ (forall i, In i (map iri ts) <->
                  exists cat, In (cat, URIRef i) (discover_terms set_iter g))
    /\ (forall e, In e ts ->
          run_terms Collection_items Literal_bool fuel g
            (filter (fun t => String.eqb (str (snd t)) (iri e))
               (discover_terms set_iter g))
            (default_entry (iri e))
          = Some e).
Proof.
  assert (Htot : forall x, exists r,
             summarize_expression Collection_items Literal_bool fuel g x = Some r).
  { intros x.
    apply (@summarize_total Collection_items Literal_bool g g_acyclic helper_ok
             fuel x enough). }
  destruct (@process_terms_total Collection_items Literal_bool fuel g
              (discover_terms set_iter g) Htot []) as [es Hes].
  unfold gather_terms. rewrite Hes. exists (dict_values es).
  destruct (@process_terms_keys Collection_items Literal_bool fuel g _ _ _ Hes)
    as [Hnd Hkeys].
  specialize (Hnd (NoDup_nil _)).
  pose proof (@process_terms_at Collection_items Literal_bool fuel g _ _ _ Hes)
    as Hat.
  assert (Hentry : forall k e, In (k, e) es ->
            entry_at k es = e /\ iri e = k).
  { intros k e Hin. apply dict_In_get in Hin; [|assumption].
    assert (He : entry_at k es = e) by (unfold entry_at; rewrite Hin; reflexivity).
    split; [assumption|].
    specialize (Hat k). rewrite He in Hat.
    apply run_terms_types in Hat. destruct Hat as [Hi _]. exact Hi. }
  assert (Hiris : map iri (dict_values es) = dict_keys es).
  { unfold dict_values, dict_keys. rewrite map_map. apply map_ext_in.
    intros [k e] Hin. apply Hentry in Hin. simpl. tauto. }
  split; [reflexivity|]. split; [rewrite Hiris; assumption|]. split.
  - intros i. rewrite Hiris, Hkeys. simpl. rewrite in_map_iff. split.
    + intros [[]|[[c n] [Hs Hin]]]. simpl in Hs.
      destruct (@discover_terms_named set_iter set_ok g c n Hin) as [j ->].
      simpl in Hs. subst j. eauto.
    + intros [c Hin]. right. exists (c, URIRef i). split; [reflexivity|assumption].
  - intros e Hin. unfold dict_values in Hin. apply in_map_iff in Hin.
    destruct Hin as [[k e0] [<- Hin]]. simpl.
    destruct (Hentry _ _ Hin) as [He Hi]. specialize (Hat k).
    rewrite He, Hi in *. exact Hat.
Qed.

Lemma terms_of_iri (e_iri : string) (t : term) :
  In t (filter (fun t => String.eqb (str (snd t)) e_iri) (discover_terms set_iter g)) <->
  In t (discover_terms set_iter g) /\ snd t = URIRef e_iri.
Proof.
  rewrite filter_In. split; intros [Hin H]; (split; [assumption|]).
  - destruct t as [c n].
    destruct (@discover_terms_named set_iter set_ok g c n Hin) as [j ->].
    simpl in *. apply String.eqb_eq in H. congruence.
  - rewrite H. simpl. apply String.eqb_refl.
Qed.

End Gatherer.

(** C7: the gatherer returns exactly one record per named resource that
    meets a discovery criterion (typed Class, ObjectProperty,
    DatatypeProperty or AnnotationProperty, subject of subClassOf or
    equivalentClass, or subject of an rdf:type triple), and the types list of
    a record holds, without duplicates, exactly the roles its resource
    matches. *)
Theorem one_record_per_term
    (Collection_items : graph -> node -> list node * bool)
    (Literal_bool : string -> option IRI -> option string -> bool)
    (set_iter : list node -> list node) (g : graph) (fuel : nat) :
  acyclic g -> follows_links Collection_items -> set_semantics set_iter ->
  List.length g < fuel ->
  exists ts,
    gather_terms Collection_items Literal_bool set_iter fuel g = Some ts
    /\ NoDup (map iri ts)
    /\ (forall i, In i (map iri ts) <-> discovered g (URIRef i))
    /\ (forall e, In e ts ->
          NoDup (types e)
          /\ forall cat, In cat (types e) <-> has_role g (URIRef (iri e)) cat).
Proof.
  intros Hac Hh Hset Hlen.
  destruct (@gather_terms_records Collection_items Literal_bool set_iter g fuel
              Hac Hh Hset Hlen) as (ts & Hts & Hnd & Hiri & Hrun).
  exists ts. split; [assumption|]. split; [assumption|]. split.
  - intros i. rewrite Hiri, discovered_role. split; intros [cat H]; exists cat.
    + apply (@discover_terms_role set_iter Hset g cat i). assumption.
    + apply (@discover_terms_role set_iter Hset g cat i). assumption.
  - intros e He. specialize (Hrun e He).
    apply run_terms_types in Hrun. destruct Hrun as (_ & Htypes & Hndt).
    split; [apply Hndt; constructor|].
    intros cat. rewrite Htypes. simpl.
    rewrite <- (@discover_terms_role set_iter Hset g cat (iri e)).
    rewrite in_map_iff. split.
    + intros [[]|[[c n] [Hc Hin]]]. simpl in Hc. subst c.
      apply (@terms_of_iri set_iter g Hset) in Hin. simpl in Hin.
      destruct Hin as [Hin ->]. assumption.
    + intros Hin. right. exists (cat, URIRef (iri e)). split; [reflexivity|].
      apply (@terms_of_iri set_iter g Hset). simpl. tauto.
Qed.

Lemma one_record_per_term_witness :
  exists ts,
    gather_terms rdflib_items plain_bool some_order 30 zoo = Some ts
    /\ NoDup (map iri ts)
    /\ (forall i, In i (map iri ts) <-> discovered zoo (URIRef i))
    /\ (forall e, In e ts ->
          NoDup (types e)
          /\ forall cat, In cat (types e) <-> has_role zoo (URIRef (iri e)) cat).
Proof.
  apply (@one_record_per_term rdflib_items plain_bool some_order zoo 30).
  - exact zoo_acyclic.
  - exact rdflib_items_follows_links.
  - exact some_order_ok.
  - vm_compute. lia.
Defined.

(** C4, as the code has it: the record of a resource in the Class role
    holds in subClassOf the summary of each subClassOf object and in
    equivalentClass the summary of each equivalentClass object, one entry
    per triple, in the order of the triples, equal summaries included. *)
Theorem class_expressions_appended
    (Collection_items : graph -> node -> list node * bool)
    (Literal_bool : string -> option IRI -> option string -> bool)
    (set_iter : list node -> list node) (g : graph) (fuel : nat) :
  acyclic g -> follows_links Collection_items -> set_semantics set_iter ->
  List.length g < fuel ->
  exists ts,
    gather_terms Collection_items Literal_bool set_iter fuel g = Some ts
    /\ forall i, has_role g (URIRef i) "Class" ->
         exists e,
           In e ts /\ iri e = i
           /\ Forall2
                (fun o v => summarize_expression Collection_items Literal_bool
                              fuel g (Node o) = Some v)
                (objects g (URIRef i) RDFS.subClassOf) (subClassOf e)
           /\ Forall2
                (fun o v => summarize_expression Collection_items Literal_bool
                              fuel g (Node o) = Some v)
                (objects g (URIRef i) OWL.equivalentClass) (equivalentClass e).
Proof.
  intros Hac Hh Hset Hlen.
  destruct (@gather_terms_records Collection_items Literal_bool set_iter g fuel
              Hac Hh Hset Hlen) as (ts & Hts & Hnd & Hiri & Hrun).
  exists ts. split; [assumption|].
  intros i Hrole.
  apply (@discover_terms_role set_iter Hset g "Class" i) in Hrole.
  assert (Hin : In i (map iri ts)) by (apply Hiri; eauto).
  apply in_map_iff in Hin. destruct Hin as [e [Hi He]].
  exists e. split; [assumption|]. split; [assumption|].
  specialize (Hrun e He). rewrite Hi in Hrun.
  destruct (@run_terms_class Collection_items Literal_bool fuel g (URIRef i)
              (filter (fun t => String.eqb (str (snd t)) i)
                 (discover_terms set_iter g)))
    with (e := default_entry i) (e' := e)
    as (sups & eqs & Hs1 & Hs2 & H1 & H2).
  - apply NoDup_filter. apply (@discover_terms_NoDup set_iter Hset g).
  - intros t Ht. apply (@terms_of_iri set_iter g Hset) in Ht. tauto.
  - apply (@terms_of_iri set_iter g Hset). simpl. tauto.
  - assumption.
  - simpl in H1, H2. rewrite H1, H2.
    split; apply map_opt_Forall2; assumption.
Qed.

Lemma class_expressions_appended_witness :
  exists ts,
    gather_terms rdflib_items plain_bool some_order 30 zoo = Some ts
    /\ exists e,
         In e ts /\ iri e = "http://example.org/Pet"
         /\ Forall2
              (fun o v => summarize_expression rdflib_items plain_bool
                            30 zoo (Node o) = Some v)
              (objects zoo (ex "Pet") OWL.equivalentClass) (equivalentClass e).
Proof.
  destruct (@class_expressions_appended rdflib_items plain_bool some_order zoo 30)
    as (ts & Hts & H).
  - exact zoo_acyclic.
  - exact rdflib_items_follows_links.
  - exact some_order_ok.
  - vm_compute. lia.
  - exists ts. split; [assumption|].
    destruct (H "http://example.org/Pet") as (e & He & Hi & _ & Heq).
    + apply role_class. right. exists (BNode "u"). right. vm_compute. tauto.
    + exists e. repeat split; assumption.
Defined.

(** C4 as stated fails: two anonymous superclasses with the same
    description give two equal entries, not one. *)
Lemma equal_summaries_do_not_collapse :
  exists e v,
    gather_terms rdflib_items plain_bool some_order 10 twins = Some [e]
    /\ List.length (objects twins (ex "Dog") RDFS.subClassOf) = 2
    /\ subClassOf e = [v; v].
Proof.
  eexists. eexists. split; [vm_compute; reflexivity|].
  split; vm_compute; reflexivity.
Qed.

(** ** Annotations *)

Lemma fold_left_skip (A B : Type) (f : A -> B -> A) (skip : B -> bool) (l : list B) :
  forall a,
    fold_left (fun a x => if skip x then a else f a x) l a =
    fold_left f (filter (fun x => negb (skip x)) l) a.
Proof.
  induction l as [|x l IH]; intros a; simpl; [reflexivity|].
  destruct (skip x); simpl; apply IH.
Qed.

Lemma values_of_unskipped (k : IRI) (pos : list (IRI * node)) :
  values_of k (filter (fun po => negb (structural (fst po))) pos) =
  if structural k then [] else values_of k pos.
Proof.
  unfold values_of. induction pos as [|[p o] pos IH]; simpl.
  - destruct (structural k); reflexivity.
  - destruct (String.eqb p k) eqn:E.
    + apply String.eqb_eq in E. subst p.
      destruct (structural k) eqn:Hs; simpl.
      * rewrite IH. reflexivity.
      * rewrite String.eqb_refl. simpl. rewrite IH. reflexivity.
    + destruct (structural p); simpl; [|rewrite E]; apply IH.
Qed.

Lemma collect_annotations_fold (g : graph) (subject : node) :
  collect_annotations g subject =
  fold_left (fun d po => setdefault_append (fst po) (str (snd po)) d)
    (filter (fun po => negb (structural (fst po))) (predicate_objects g subject)) [].
Proof.
  unfold collect_annotations.
  apply (@fold_left_skip _ _
           (fun d po => setdefault_append (fst po) (str (snd po)) d)
           (fun po => structural (fst po))).
Qed.

(** The collector's mapping, key by key. *)
Lemma collect_annotations_get (g : graph) (subject : node) (k : IRI) :
  dict_get k (collect_annotations g subject) =
  if structural k then None
  else match objects g subject k with
       | [] => None
       | os => Some (map str os)
       end.
Proof.
  rewrite collect_annotations_fold, group_fold_get, values_of_unskipped.
  simpl. destruct (structural k); [reflexivity|].
  rewrite values_of_objects. destruct (objects g subject k); reflexivity.
Qed.

Lemma setdefault_append_NoDup (k v : string) (d : dict (list string)) :
  NoDup (dict_keys d) -> NoDup (dict_keys (setdefault_append k v d)).
Proof.
  unfold setdefault_append. destruct (dict_get k d); apply dict_keys_set_NoDup.
Qed.

Lemma collect_annotations_NoDup (g : graph) (subject : node) :
  NoDup (dict_keys (collect_annotations g subject)).
Proof.
  rewrite collect_annotations_fold.
  assert (H : forall l d, NoDup (dict_keys d) ->
            NoDup (dict_keys
                     (fold_left (fun d (po : IRI * node) =>
                                   setdefault_append (fst po) (str (snd po)) d) l d))).
  { induction l as [|po l IH]; intros d Hd; simpl; [assumption|].
    apply IH. apply setdefault_append_NoDup. assumption. }
  apply H. constructor.
Qed.

Lemma collect_annotations_listed (g : graph) (subject : node) (k v : string) :
  listed (collect_annotations g subject) k v <->
  structural k = false /\ exists o, In (T subject k o) g /\ str o = v.
Proof.
  unfold listed. rewrite collect_annotations_get. split.
  - intros [vs [H Hv]]. destruct (structural k); [discriminate|].
    split; [reflexivity|].
    destruct (objects g subject k) as [|o os] eqn:E; [discriminate|].
    injection H as <-. change (In v (map str (o :: os))) in Hv.
    apply in_map_iff in Hv. destruct Hv as [o' [Hs Ho]].
    exists o'. split; [|assumption]. apply objects_In. rewrite E. assumption.
  - intros [-> [o [Ho <-]]]. apply objects_In in Ho.
    destruct (objects g subject k) as [|o' os] eqn:E; [destruct Ho|].
    exists (map str (o' :: os)). split; [reflexivity|]. apply in_map. assumption.
Qed.

Lemma listed_set (d : dict (list string)) (k0 : string) (vs0 : list string)
    (k v : string) :
  listed (dict_set k0 vs0 d) k v <->
  (k = k0 /\ In v vs0) \/ (k <> k0 /\ listed d k v).
Proof.
  unfold listed. destruct (string_dec k k0) as [->|Hne].
  - rewrite dict_get_set_same. split.
    + intros [vs [[= <-] Hv]]. left. tauto.
    + intros [[_ Hv]|[Hne _]]; [eauto|congruence].
  - rewrite dict_get_set_other by assumption. split.
    + intros H. right. tauto.
    + intros [[H _]|[_ H]]; [congruence|assumption].
Qed.

Lemma merge_annotations_listed (ann : dict (list string)) :
  forall d k v,
    listed (merge_annotations ann d) k v <->
    listed d k v \/ exists vs, In (k, vs) ann /\ In v vs.
Proof.
  unfold merge_annotations.
  induction ann as [|[k0 vs0] ann IH]; intros d k v; simpl.
  - split; [tauto|]. intros [H|[vs [[] _]]]. assumption.
  - rewrite IH, listed_set, extend_new_In.
    assert (Hold : In v (match dict_get k0 d with Some l => l | None => [] end)
                   <-> listed d k0 v).
    { unfold listed. destruct (dict_get k0 d) as [l|].
      - split; [eauto|]. intros [vs [[= <-] H]]. assumption.
      - split; [intros []|]. intros [vs [H _]]. discriminate. }
    rewrite Hold. split.
    + intros [[[-> [H|H]]|[Hne H]]|[vs [Hin Hv]]].
      * left. assumption.
      * right. exists vs0. split; [left; reflexivity|assumption].
      * left. assumption.
      * right. exists vs. split; [right; assumption|assumption].
    + intros [H|[vs [[Heq|Hin] Hv]]].
      * left. destruct (string_dec k k0) as [->|Hne]; [left|right]; tauto.
      * injection Heq as <- <-. left. left. tauto.
      * right. eauto.
Qed.

Lemma merge_collected_listed (g : graph) (n : node) (d : dict (list string))
    (k v : string) :
  listed (merge_annotations (collect_annotations g n) d) k v <->
  listed d k v \/ listed (collect_annotations g n) k v.
Proof.
  rewrite merge_annotations_listed. unfold listed at 3.
  split; intros [H|[vs [Hin Hv]]]; try (left; assumption); right; exists vs;
    (split; [|assumption]).
  - apply dict_In_get; [apply collect_annotations_NoDup|assumption].
  - apply dict_get_In. assumption.
Qed.

Lemma run_terms_annotations
    (Collection_items : graph -> node -> list node * bool)
    (Literal_bool : string -> option IRI -> option string -> bool)
    (fuel : nat) (g : graph) (n : node) (ts : list term) :
  (forall t, In t ts -> snd t = n) ->
  forall e e',
    run_terms Collection_items Literal_bool fuel g ts e = Some e' ->
    (forall k v,
       listed (annotations e') k v <->
       listed (annotations e) k v
       \/ (ts <> [] /\ listed (collect_annotations g n) k v))
    /\ (forall v,
          In v (labels e') <->
          In v (labels e)
          \/ (ts <> [] /\ In v (get_literals_for_pred g n [RDFS.label; SKOS.prefLabel])))
    /\ (forall v,
          In v (comments e') <->
          In v (comments e)
          \/ (ts <> [] /\ In v (get_literals_for_pred g n [RDFS.comment]))).
Proof.
  induction ts as [|[c m] ts IH]; intros Hsame e e' H; simpl in H.
  - injection H as <-. repeat split; try tauto; intros [H|[H _]]; tauto.
  - destruct (process_term _ _ fuel g c m e) as [e1|] eqn:H1; [|discriminate].
    apply process_term_fields in H1.
    destruct H1 as (_ & _ & Hl & Hc & Ha & _).
    assert (Hm : m = n) by (apply (Hsame (c, m)); left; reflexivity). subst m.
    destruct (IH (fun t Ht => Hsame t (or_intror Ht)) _ _ H) as (IHa & IHl & IHc).
    assert (Hne : (c, n) :: ts <> []) by discriminate.
    split; [|split].
    + intros k v. rewrite IHa, Ha, merge_collected_listed. tauto.
    + intros v. rewrite IHl, Hl, extend_new_In. tauto.
    + intros v. rewrite IHc, Hc, extend_new_In. tauto.
Qed.

Lemma get_literals_In (g : graph) (s : node) (preds : list IRI) (v : string) :
  In v (get_literals_for_pred g s preds) <->
  exists p o, In p preds /\ In (T s p o) g /\ is_Literal o = true /\ str o = v.
Proof.
  unfold get_literals_for_pred. rewrite in_flat_map. split.
  - intros [p [Hp Hv]]. apply in_map_iff in Hv. destruct Hv as [o [Hs Ho]].
    apply filter_In in Ho. destruct Ho as [Ho Hl]. apply objects_In in Ho.
    exists p, o. tauto.
  - intros (p & o & Hp & Ho & Hl & Hs). exists p. split; [assumption|].
    apply in_map_iff. exists o. split; [assumption|].
    apply filter_In. split; [apply objects_In; assumption|assumption].
Qed.

Lemma structural_spec (k : IRI) :
  structural k = true <->
  In k [RDF.type; RDFS.subClassOf; OWL.equivalentClass; RDFS.domain; RDFS.range;
        RDFS.subPropertyOf].
Proof.
  unfold structural. rewrite existsb_exists. split.
  - intros [p [Hp He]]. apply String.eqb_eq in He. subst p. exact Hp.
  - intros H. exists k. split; [exact H|apply String.eqb_refl].
Qed.

(** ** The scenarios of the specification, on the sample ontology *)

Example dog_restriction :
  summarize_expression rdflib_items plain_bool 3 zoo (Node (BNode "r1")) =
  Some (PDict [("exprType", PStr "Restriction");
               ("onProperty", PStr "http://example.org/hasOwner");
               ("someValuesFrom",
                PDict [("exprType", PStr "Named");
                       ("iri", PStr "http://example.org/Person")])]).
Proof.
  vm_compute. reflexivity.
Qed.

Example pet_union :
  summarize_expression rdflib_items plain_bool 3 zoo (Node (BNode "u")) =
  Some (PDict [("exprType", PStr "Union");
               ("operands",
                PList [PDict [("exprType", PStr "Named");
                              ("iri", PStr "http://example.org/Cat")];
                       PDict [("exprType", PStr "Named");
                              ("iri", PStr "http://example.org/Dog")]])]).
Proof.
  vm_compute. reflexivity.
Qed.

Example fido_types :
  option_map
    (fun ts => map individualTypes
                 (filter (fun e => String.eqb (iri e) "http://example.org/Fido") ts))
    (gather_terms rdflib_items plain_bool some_order 30 zoo) =
  Some [["http://example.org/Dog"; "http://example.org/Pet"]].
Proof.
  vm_compute. reflexivity.
Qed.

Example zoo_roles :
  option_map (map (fun e => (iri e, types e)))
    (gather_terms rdflib_items plain_bool some_order 30 zoo) =
  Some [("http://example.org/Dog", ["Class"]);
        ("http://example.org/Pet", ["Class"]);
        ("http://example.org/hasOwner", ["ObjectProperty"]);
        ("http://example.org/Fido", ["Individual"])].
Proof.
  vm_compute. reflexivity.
Qed.

(** ** Beyond well-formed input: the two paths of the list materializer *)

(** X1: when the helper does not raise, its items are the result and the
    manual walk is not run.  When it raises after yielding some items, the
    manual walk starts again from the head and appends to the same list, so
    on a list the walk can finish the result is the items already yielded
    followed by all the values of the list. *)
Theorem rdf_list_to_py_paths
    (Collection_items : graph -> node -> list node * bool)
    (Literal_bool : string -> option IRI -> option string -> bool)
    (g : graph) (n : node) (ys : list node) :
  (Collection_items g n = (ys, false) ->
   forall fuel, rdf_list_to_py Collection_items Literal_bool fuel g n = Some ys)
  /\ (Collection_items g n = (ys, true) ->
      forall xs fuel,
        rdf_list Literal_bool g n xs \/ truncated_list Literal_bool g n xs ->
        List.length xs < fuel ->
        rdf_list_to_py Collection_items Literal_bool fuel g n = Some (ys ++ xs)).
Proof.
  split; intros Hc; unfold rdf_list_to_py; rewrite Hc; [reflexivity|].
  intros xs fuel [H|H] Hlen.
  - apply (@manual_walk_rdf_list Literal_bool g n xs H fuel ys Hlen).
  - apply (@manual_walk_truncated Literal_bool g n xs H fuel ys Hlen).
Qed.

Lemma rdf_list_to_py_paths_witness :
  rdf_list_to_py rdflib_items plain_bool 2 zoo (BNode "l1")
  = Some [ex "Cat"; ex "Dog"]
  /\ rdf_list_to_py rdflib_items plain_bool 2 looping_list (BNode "c1")
     = Some ([ex "Cat"] ++ [ex "Cat"]).
Proof.
  split.
  - apply (proj1 (@rdf_list_to_py_paths rdflib_items plain_bool zoo
                    (BNode "l1") [ex "Cat"; ex "Dog"])).
    vm_compute. reflexivity.
  - apply (proj2 (@rdf_list_to_py_paths rdflib_items plain_bool looping_list
                    (BNode "c1") [ex "Cat"])
             ltac:(vm_compute; reflexivity) [ex "Cat"] 2
             (or_intror looping_list_truncated)).
    simpl. lia.
Defined.

(** X2: the manual walk has no guard against cycles: started in a chain
    that is closed under rdf:rest and whose cells all have an rdf:first, it
    never returns, whatever the fuel; and neither does the materializer when
    the helper has raised on such a chain. *)
Theorem manual_walk_never_leaves_closed_chain
    (Collection_items : graph -> node -> list node * bool)
    (Literal_bool : string -> option IRI -> option string -> bool)
    (g : graph) (P : node -> Prop) :
  closed_chain Literal_bool g P ->
  forall c, P c ->
    (forall fuel acc, manual_walk Literal_bool fuel g c acc = None)
    /\ (snd (Collection_items g c) = true ->
        forall fuel, rdf_list_to_py Collection_items Literal_bool fuel g c = None).
Proof.
  intros Hclosed.
  assert (Hwalk : forall fuel c acc, P c ->
            manual_walk Literal_bool fuel g c acc = None).
  { induction fuel as [|fuel IH]; intros c acc Hc; [reflexivity|].
    destruct (Hclosed c Hc) as ([Ht Hn] & [x Hx] & [c' [Hr Hc']]).
    cbn [manual_walk]. apply node_eqb_neq in Hn.
    rewrite Ht, Hn, Hx, Hr. cbn [negb andb]. apply IH. assumption. }
  intros c Hc. split.
  - intros fuel acc. apply Hwalk. assumption.
  - intros Hraised fuel. unfold rdf_list_to_py.
    destruct (Collection_items g c) as [ys raised]. simpl in Hraised.
    subst raised. apply Hwalk. assumption.
Qed.

Lemma manual_walk_never_leaves_closed_chain_witness :
  (forall fuel acc, manual_walk plain_bool fuel ouroboros (BNode "o") acc = None)
  /\ (forall fuel, rdf_list_to_py rdflib_items plain_bool fuel ouroboros (BNode "o")
                   = None).
Proof.
  destruct (@manual_walk_never_leaves_closed_chain rdflib_items plain_bool ouroboros
              (fun c => c = BNode "o")) with (c := BNode "o") as [H1 H2].
  - intros c ->. split; [split; [reflexivity|discriminate]|].
    split; [exists (ex "Cat"); reflexivity|].
    exists (BNode "o"). split; reflexivity.
  - reflexivity.
  - split; [exact H1|]. apply H2. vm_compute. reflexivity.
Defined.

(** ** Beyond acyclic input: the summarizer has no guard either *)

Lemma fill_stuck (rec : pyobj -> option pyval) (g : graph) (n : node)
    (ps : list (IRI * string)) (p : IRI) (key : string) (val : node) :
  In (p, key) ps -> value g n p = Some val ->
  is_BNode val = true -> rec (Node val) = None ->
  forall res, fill rec g n ps res = None.
Proof.
  intros Hin Hv Hb Hrec.
  induction ps as [|[p0 key0] ps IH]; intros res; [destruct Hin|].
  cbn [fill]. destruct Hin as [Heq|Hin].
  - injection Heq as -> ->. rewrite Hv, Hb, Hrec. reflexivity.
  - destruct (value g n p0) as [v0|]; [|apply IH; assumption].
    destruct (is_BNode v0 || is_URIRef v0); [|apply IH; assumption].
    destruct (rec (Node v0)); [apply IH; assumption|reflexivity].
Qed.

(** X3: the summarizer does not guard against cycles through restriction
    fillers and complements: on a set of anonymous nodes where each one is a
    restriction with a filler in the set, or a complement of a node of the
    set, it returns for no node of the set, whatever the fuel. *)
Theorem summarize_never_returns_on_cycle
    (Collection_items : graph -> node -> list node * bool)
    (Literal_bool : string -> option IRI -> option string -> bool)
    (g : graph) (P : node -> Prop) :
  self_feeding g P ->
  forall n, P n ->
    forall fuel,
      summarize_expression Collection_items Literal_bool fuel g (Node n) = None.
Proof.
  intros Hself n Hn fuel. revert n Hn.
  induction fuel as [|fuel IH]; intros n Hn; [reflexivity|].
  destruct (Hself n Hn) as [Hb Hcase].
  destruct n as [i|id|lex dt lg]; try discriminate Hb.
  cbn [summarize_expression].
  destruct Hcase as [[Hr (p & key & val & Hin & Hv & Hval)]
                    |[Hc (val & Hv & Hval)]].
  - unfold restriction_like in Hr. rewrite Hr.
    rewrite (@fill_stuck _ g (BNode id) fillers p key val Hin Hv
               (proj1 (Hself val Hval)) (IH val Hval)).
    reflexivity.
  - rewrite classify_bnode in Hc.
    destruct (contains _ _ _ _ || _); [discriminate|].
    destruct (value g (BNode id) OWL.intersectionOf); [discriminate|].
    destruct (value g (BNode id) OWL.unionOf); [discriminate|].
    rewrite Hv, (IH val Hval). reflexivity.
Qed.

Lemma summarize_never_returns_on_cycle_witness :
  summarize_expression rdflib_items plain_bool 100 ouroboros (Node (BNode "k"))
  = None
  /\ summarize_expression rdflib_items plain_bool 100 ouroboros (Node (BNode "r"))
     = None.
Proof.
  assert (Hself : self_feeding ouroboros (fun n => n = BNode "k" \/ n = BNode "r")).
  { intros n [-> | ->]; (split; [reflexivity|]).
    - right. split; [vm_compute; reflexivity|].
      exists (BNode "r"). split; [reflexivity|right; reflexivity].
    - left. split; [vm_compute; reflexivity|].
      exists OWL.allValuesFrom, "allValuesFrom", (BNode "r").
      split; [right; left; reflexivity|].
      split; [reflexivity|right; reflexivity]. }
  split.
  - apply (@summarize_never_returns_on_cycle rdflib_items plain_bool ouroboros
             _ Hself (BNode "k") (or_introl eq_refl) 100).
  - apply (@summarize_never_returns_on_cycle rdflib_items plain_bool ouroboros
             _ Hself (BNode "r") (or_intror eq_refl) 100).
Defined.

(** ** The shape of the records *)

Lemma dict_set_fresh (V : Type) (k : string) (v : V) (d : dict V) :
  ~ In k (dict_keys d) -> dict_set k v d = d ++ [(k, v)].
Proof.
  induction d as [|[k' v'] d IH]; intros Hk; simpl; [reflexivity|].
  destruct (String.eqb k' k) eqn:E.
  - apply String.eqb_eq in E. subst k'. exfalso. apply Hk. left. reflexivity.
  - rewrite IH; [reflexivity|]. intros Hin. apply Hk. right. assumption.
Qed.

(** The filler loop only appends: one field per filler predicate the node
    has, in the order of the predicates, holding a string or the result of a
    recursive call. *)
Lemma fill_appends (rec : pyobj -> option pyval) (g : graph) (n : node)
    (ps : list (IRI * string)) :
  forall res d,
    NoDup (dict_keys res ++ map snd ps) ->
    fill rec g n ps res = Some d ->
    exists fields,
      d = res ++ fields
      /\ map fst fields = map snd (filter (present g n) ps)
      /\ Forall (fun kv => (exists s, snd kv = PStr s)
                           \/ exists val, rec (Node val) = Some (snd kv))
           fields.
Proof.
  induction ps as [|[p key] ps IH]; intros res d Hnd H; cbn [fill] in H.
  - injection H as <-. exists []. rewrite app_nil_r. repeat split. constructor.
  - simpl map in Hnd. apply NoDup_remove in Hnd. destruct Hnd as [Hnd Hnot].
    assert (Hfresh : ~ In key (dict_keys res)).
    { intros Hc. apply Hnot. apply in_or_app. left. assumption. }
    assert (Hnd' : forall v, NoDup (dict_keys (dict_set key v res) ++ map snd ps)).
    { intros v. rewrite (@dict_set_fresh _ key v res Hfresh). unfold dict_keys.
      rewrite map_app, <- app_assoc. simpl.
      apply NoDup_Add with (a := key) (l := map fst res ++ map snd ps).
      - apply Add_app.
      - split; assumption. }
    cbn [filter]. unfold present at 1. cbn [fst].
    destruct (value g n p) as [val|] eqn:Hv; [|apply IH; assumption].
    assert (Hstep : forall v,
              ((exists s, v = PStr s) \/ exists val, rec (Node val) = Some v) ->
              fill rec g n ps (dict_set key v res) = Some d ->
              exists fields,
                d = res ++ fields
                /\ map fst fields = map snd ((p, key) :: filter (present g n) ps)
                /\ Forall (fun kv => (exists s, snd kv = PStr s)
                                     \/ exists val, rec (Node val) = Some (snd kv))
                     fields).
    { intros v Hval Hfill.
      destruct (IH _ _ (Hnd' v) Hfill) as (fields & -> & Hkeys & Hall).
      exists ((key, v) :: fields). rewrite (@dict_set_fresh _ key v res Hfresh), <- app_assoc.
      split; [reflexivity|]. split; [simpl; f_equal; assumption|].
      constructor; assumption. }
    destruct (is_BNode val || is_URIRef val).
    + destruct (rec (Node val)) as [v|] eqn:Hr; [|discriminate].
      apply (Hstep v); [right; eauto|assumption].
    + apply (Hstep (fq (Node val))); [left; simpl; eauto|assumption].
Qed.

Lemma map_opt_Forall (rec : pyobj -> option pyval) (Q : pyval -> Prop)
    (items : list node) :
  (forall x v, rec x = Some v -> Q v) ->
  forall vs, map_opt rec items = Some vs -> Forall Q vs.
Proof.
  intros HQ vs H. apply map_opt_Forall2 in H.
  induction H as [|o v items vs Hov _ IH]; constructor; eauto.
Qed.

Lemma list_record_inv
    (Collection_items : graph -> node -> list node * bool)
    (Literal_bool : string -> option IRI -> option string -> bool)
    (rec : pyobj -> option pyval) (fuel : nat) (g : graph)
    (tag field : string) (head : node) (r : pyval) :
  list_record Collection_items Literal_bool rec fuel g tag field head = Some r ->
  exists items vs,
    rdf_list_to_py Collection_items Literal_bool fuel g head = Some items
    /\ map_opt rec items = Some vs
    /\ r = PDict [("exprType", PStr tag); (field, PList vs)].
Proof.
  unfold list_record. intros H.
  destruct (rdf_list_to_py _ _ _ _ _) as [items|]; [|discriminate].
  destruct (map_opt rec items) as [vs|] eqn:Hm; [|discriminate].
  injection H as <-. exists items, vs. repeat split. assumption.
Qed.

(** X4: whatever the summarizer returns is a well-formed expression record,
    and so is every record nested in it: operands, members, the operand of a
    complement and the filler fields of a restriction, which come in the
    order of the nine filler predicates, each at most once. *)
Theorem summarize_gives_expression_records
    (Collection_items : graph -> node -> list node * bool)
    (Literal_bool : string -> option IRI -> option string -> bool)
    (g : graph) (fuel : nat) (x : pyobj) (r : pyval) :
  summarize_expression Collection_items Literal_bool fuel g x = Some r ->
  expression_record r.
Proof.
  revert x r. induction fuel as [|fuel IH]; intros x r H; [discriminate|].
  assert (Hlist : forall tag field head r0,
            list_record Collection_items Literal_bool
              (summarize_expression Collection_items Literal_bool fuel g)
              fuel g tag field head = Some r0 ->
            exists vs, r0 = PDict [("exprType", PStr tag); (field, PList vs)]
                       /\ Forall expression_record vs).
  { intros tag field head r0 H0. apply list_record_inv in H0.
    destruct H0 as (items & vs & _ & Hm & ->). exists vs. split; [reflexivity|].
    apply (@map_opt_Forall _ expression_record items IH vs Hm). }
  destruct x as [[i|id|lex dt lg]| |s]; cbn [summarize_expression] in H.
  - injection H as <-. constructor.
  - destruct (contains _ _ _ _ || _).
    { destruct (fill _ _ _ _ _) as [d|] eqn:Hfill; [|discriminate].
      injection H as <-.
      apply fill_appends in Hfill; [|exact fillers_keys_NoDup].
      destruct Hfill as (fields & -> & Hkeys & Hall).
      apply record_restriction with (keep := present g (BNode id)).
      - destruct (value g (BNode id) OWL.onProperty); simpl;
          [right; eauto|left; reflexivity].
      - assumption.
      - apply Forall_impl with (2 := Hall). intros kv [Hs|[val Hval]];
          [left; assumption|right; apply (IH _ _ Hval)]. }
    destruct (value g (BNode id) OWL.intersectionOf).
    { destruct (Hlist _ _ _ _ H) as (vs & -> & Hvs).
      apply record_operands; [left; reflexivity|assumption]. }
    destruct (value g (BNode id) OWL.unionOf).
    { destruct (Hlist _ _ _ _ H) as (vs & -> & Hvs).
      apply record_operands; [right; reflexivity|assumption]. }
    destruct (value g (BNode id) OWL.complementOf).
    { destruct (summarize_expression _ _ fuel g (Node n)) as [v|] eqn:Hv;
        [|discriminate].
      injection H as <-. apply record_complement. apply (IH _ _ Hv). }
    destruct (value g (BNode id) OWL.oneOf).
    { destruct (Hlist _ _ _ _ H) as (vs & -> & Hvs).
      apply record_members. assumption. }
    injection H as <-. apply record_bnode.
  - injection H as <-. constructor.
  - injection H as <-. apply record_unknown. left. reflexivity.
  - injection H as <-. apply record_unknown. right. simpl. eauto.
Qed.

Lemma summarize_gives_expression_records_witness :
  expression_record
    (PDict [("exprType", PStr "Union");
            ("operands",
             PList [PDict [("exprType", PStr "Named");
                           ("iri", PStr "http://example.org/Cat")];
                    PDict [("exprType", PStr "Named");
                           ("iri", PStr "http://example.org/Dog")]])]).
Proof.
  apply (@summarize_gives_expression_records rdflib_items plain_bool zoo 3
           (Node (BNode "u"))).
  vm_compute. reflexivity.
Defined.

(** X5: the record of a boolean combinator or an enumeration holds the
    summaries of the materialised list, one per element and in its order,
    under operands (Intersection, Union) or members (OneOf); the record of a
    complement holds the summary of the first complementOf object under
    operand.  The list is the one found at the first intersectionOf, unionOf
    or oneOf object. *)
Theorem combinator_records
    (Collection_items : graph -> node -> list node * bool)
    (Literal_bool : string -> option IRI -> option string -> bool)
    (g : graph) (id : string) (fuel : nat) (r : pyval) :
  summarize_expression Collection_items Literal_bool (S fuel) g (Node (BNode id))
  = Some r ->
  let listed_under (p : IRI) (tag field : string) :=
    exists head items vs,
      value g (BNode id) p = Some head
      /\ rdf_list_to_py Collection_items Literal_bool fuel g head = Some items
      /\ Forall2 (fun o v => summarize_expression Collection_items Literal_bool
                               fuel g (Node o) = Some v) items vs
      /\ r = PDict [("exprType", PStr tag); (field, PList vs)] in
  match classify g (Node (BNode id)) with
  | SIntersection => listed_under OWL.intersectionOf "Intersection" "operands"
  | SUnion => listed_under OWL.unionOf "Union" "operands"
  | SOneOf => listed_under OWL.oneOf "OneOf" "members"
  | SComplement =>
      exists val v,
        value g (BNode id) OWL.complementOf = Some val
        /\ summarize_expression Collection_items Literal_bool fuel g (Node val)
           = Some v
        /\ r = PDict [("exprType", PStr "Complement"); ("operand", v)]
  | _ => True
  end.
Proof.
  intros H listed_under. rewrite classify_bnode.
  cbn [summarize_expression] in H.
  assert (Hlist : forall p tag field head,
            value g (BNode id) p = Some head ->
            list_record Collection_items Literal_bool
              (summarize_expression Collection_items Literal_bool fuel g)
              fuel g tag field head = Some r ->
            listed_under p tag field).
  { intros p tag field head Hv H0. apply list_record_inv in H0.
    destruct H0 as (items & vs & Hitems & Hm & ->).
    exists head, items, vs. repeat split; try assumption.
    apply map_opt_Forall2. assumption. }
  destruct (contains _ _ _ _ || _); [exact I|].
  destruct (value g (BNode id) OWL.intersectionOf) eqn:H1;
    [apply (Hlist _ _ _ _ H1 H)|].
  destruct (value g (BNode id) OWL.unionOf) eqn:H2;
    [apply (Hlist _ _ _ _ H2 H)|].
  destruct (value g (BNode id) OWL.complementOf) as [val|] eqn:H3.
  { destruct (summarize_expression _ _ fuel g (Node val)) as [v|] eqn:Hv;
      [|discriminate].
    injection H as <-. exists val, v.
    split; [reflexivity|]. split; [assumption|reflexivity]. }
  destruct (value g (BNode id) OWL.oneOf) eqn:H4;
    [apply (Hlist _ _ _ _ H4 H)|].
  exact I.
Qed.

Lemma combinator_records_witness :
  exists head items vs,
    value zoo (BNode "u") OWL.unionOf = Some head
    /\ rdf_list_to_py rdflib_items plain_bool 2 zoo head = Some items
    /\ Forall2 (fun o v => summarize_expression rdflib_items plain_bool
                             2 zoo (Node o) = Some v) items vs
    /\ PDict [("exprType", PStr "Union");
              ("operands",
               PList [PDict [("exprType", PStr "Named");
                             ("iri", PStr "http://example.org/Cat")];
                      PDict [("exprType", PStr "Named");
                             ("iri", PStr "http://example.org/Dog")]])]
       = PDict [("exprType", PStr "Union"); ("operands", PList vs)].
Proof.
  apply (@combinator_records rdflib_items plain_bool zoo "u" 2).
  vm_compute. reflexivity.
Defined.

(** ** The fields of a record *)

Lemma extend_new_NoDup (xs : list string) :
  forall l, NoDup l -> NoDup (extend_new xs l).
Proof.
  unfold extend_new. induction xs as [|x xs IH]; intros l Hl; simpl;
    [assumption|].
  apply IH. apply append_new_NoDup. assumption.
Qed.

Lemma merge_annotations_NoDup (ann : dict (list string)) :
  forall d,
    NoDup (dict_keys d) /\ (forall k vs, dict_get k d = Some vs -> NoDup vs) ->
    NoDup (dict_keys (merge_annotations ann d))
    /\ (forall k vs, dict_get k (merge_annotations ann d) = Some vs -> NoDup vs).
Proof.
  unfold merge_annotations.
  induction ann as [|[k0 vs0] ann IH]; intros d [Hk Hv]; simpl; [tauto|].
  apply IH. split; [apply dict_keys_set_NoDup; assumption|].
  intros k vs. destruct (string_dec k k0) as [->|Hne].
  - rewrite dict_get_set_same. intros [= <-]. apply extend_new_NoDup.
    destruct (dict_get k0 d) as [l|] eqn:E; [apply (Hv _ _ E)|constructor].
  - rewrite dict_get_set_other by assumption. apply Hv.
Qed.

Lemma process_term_other_fields
    (Collection_items : graph -> node -> list node * bool)
    (Literal_bool : string -> option IRI -> option string -> bool)
    (fuel : nat) (g : graph) (cat : string) (n : node) (e e' : entry) :
  process_term Collection_items Literal_bool fuel g cat n e = Some e' ->
  altLabels e' = extend_new (get_literals_for_pred g n [SKOS.altLabel]) (altLabels e)
  /\ domains e' = (if is_property_role cat
                   then extend_new (map str (objects g n RDFS.domain)) (domains e)
                   else domains e)
  /\ ranges e' = (if is_property_role cat
                  then extend_new (map str (objects g n RDFS.range)) (ranges e)
                  else ranges e)
  /\ subPropertyOf e' = (if is_property_role cat
                         then extend_new (map str (objects g n RDFS.subPropertyOf))
                                (subPropertyOf e)
                         else subPropertyOf e)
  /\ inverseOf e' = (if is_property_role cat
                     then extend_new (map str (objects g n OWL.inverseOf)) (inverseOf e)
                     else inverseOf e)
  /\ propertyCharacteristics e' = (if is_property_role cat
                                   then extract_property_characteristics g n
                                   else propertyCharacteristics e)
  /\ individualTypes e' = (if String.eqb cat "Individual"
                           then individualTypes e ++ map str (objects g n RDF.type)
                           else individualTypes e).
Proof.
  unfold process_term. intros H.
  destruct (if String.eqb cat "Class" then _ else _) as [sups|]; [|discriminate].
  destruct (if String.eqb cat "Class" then _ else _) as [eqs|]; [|discriminate].
  injection H as <-.
  cbn [altLabels domains ranges subPropertyOf inverseOf propertyCharacteristics
       individualTypes].
  repeat split.
Qed.

Section Fields.
Variable Collection_items : graph -> node -> list node * bool.
Variable Literal_bool : string -> option IRI -> option string -> bool.
Variable fuel : nat.
Variable g : graph.

Abbreviation run_on := (run_terms Collection_items Literal_bool fuel g).

Lemma run_terms_deduplicated (ts : list term) :
  forall e e', run_on ts e = Some e' -> deduplicated e -> deduplicated e'.
Proof.
  induction ts as [|[c n] ts IH]; intros e e' H Hd; simpl in H.
  - injection H as <-. assumption.
  - destruct (process_term _ _ fuel g c n e) as [e1|] eqn:H1; [|discriminate].
    apply (IH _ _ H).
    destruct (process_term_fields _ _ _ _ _ _ _ H1)
      as (_ & _ & Hl & Hc & Ha & _).
    destruct (process_term_other_fields _ _ _ _ _ _ _ H1)
      as (Hal & Hdo & Hra & Hsp & Hin & _).
    destruct Hd as (D1 & D2 & D3 & D4 & D5 & D6 & D7 & D8 & D9).
    unfold deduplicated.
    rewrite Hl, Hal, Hc, Hdo, Hra, Hsp, Hin, Ha.
    destruct (@merge_annotations_NoDup (collect_annotations g n) (annotations e)
                (conj D8 D9)) as [M1 M2].
    destruct (is_property_role c);
      repeat split; try assumption; try (apply extend_new_NoDup; assumption).
Qed.

Lemma run_terms_other_fields (n : node) (ts : list term) :
  (forall t, In t ts -> snd t = n) ->
  forall e e', run_on ts e = Some e' ->
    let prop := existsb is_property_role (map fst ts) in
    let grows (field : entry -> list string) (p : IRI) :=
      forall v, In v (field e') <->
                In v (field e) \/ (prop = true /\ In v (map str (objects g n p))) in
    (forall v, In v (altLabels e') <->
               In v (altLabels e)
               \/ (ts <> [] /\ In v (get_literals_for_pred g n [SKOS.altLabel])))
    /\ grows domains RDFS.domain
    /\ grows ranges RDFS.range
    /\ grows subPropertyOf RDFS.subPropertyOf
    /\ grows inverseOf OWL.inverseOf
    /\ propertyCharacteristics e' =
       (if prop then extract_property_characteristics g n
        else propertyCharacteristics e)
    /\ ((forall t, In t ts -> fst t <> "Individual") ->
        individualTypes e' = individualTypes e).
Proof.
  induction ts as [|[c m] ts IH]; intros Hsame e e' H; simpl in H.
  - injection H as <-. simpl. repeat split; try tauto;
      intros [H|[H _]]; try assumption; try discriminate; tauto.
  - destruct (process_term _ _ fuel g c m e) as [e1|] eqn:H1; [|discriminate].
    apply process_term_other_fields in H1.
    destruct H1 as (Hal & Hdo & Hra & Hsp & Hin & Hch & Hit).
    assert (Hm : m = n) by (apply (Hsame (c, m)); left; reflexivity). subst m.
    destruct (IH (fun t Ht => Hsame t (or_intror Ht)) _ _ H)
      as (Ial & Ido & Ira & Isp & Iin & Ich & Iit).
    assert (Hne : (c, n) :: ts <> []) by discriminate.
    cbn [map fst existsb].
    split; [|split; [|split; [|split; [|split; [|split]]]]].
    + intros v. rewrite Ial, Hal, extend_new_In. tauto.
    + intros v. rewrite Ido, Hdo.
      destruct (is_property_role c); cbn [orb];
        [rewrite extend_new_In|]; tauto.
    + intros v. rewrite Ira, Hra.
      destruct (is_property_role c); cbn [orb];
        [rewrite extend_new_In|]; tauto.
    + intros v. rewrite Isp, Hsp.
      destruct (is_property_role c); cbn [orb];
        [rewrite extend_new_In|]; tauto.
    + intros v. rewrite Iin, Hin.
      destruct (is_property_role c); cbn [orb];
        [rewrite extend_new_In|]; tauto.
    + rewrite Ich, Hch.
      destruct (is_property_role c); cbn [orb];
        destruct (existsb is_property_role (map fst ts)); reflexivity.
    + intros Hno. rewrite Iit by (intros t Ht; apply Hno; right; assumption).
      rewrite Hit.
      assert (Hc : String.eqb c "Individual" = false).
      { apply String.eqb_neq. apply (Hno (c, n)). left. reflexivity. }
      rewrite Hc. reflexivity.
Qed.

End Fields.

Lemma existsb_same_members (A : Type) (f : A -> bool) (l l' : list A) :
  (forall x, In x l <-> In x l') -> existsb f l = existsb f l'.
Proof.
  intros H. destruct (existsb f l') eqn:E.
  - apply existsb_exists in E. destruct E as [x [Hx Hf]].
    apply existsb_exists. exists x. split; [apply H; assumption|assumption].
  - destruct (existsb f l) eqn:E'; [|reflexivity].
    apply existsb_exists in E'. destruct E' as [x [Hx Hf]].
    assert (existsb f l' = true).
    { apply existsb_exists. exists x. split; [apply H; assumption|assumption]. }
    congruence.
Qed.

Lemma default_entry_deduplicated (i : string) : deduplicated (default_entry i).
Proof.
  unfold deduplicated. simpl. repeat split; try constructor.
  intros k vs H. discriminate H.
Qed.

(** X6: in every record the gatherer returns, labels, altLabels, comments,
    domains, ranges, subPropertyOf and inverseOf hold no string twice, the
    annotations have no key twice and none of their lists holds a string
    twice, also when the resource is treated under several roles or has
    objects with the same string form. *)
Theorem records_are_deduplicated
    (Collection_items : graph -> node -> list node * bool)
    (Literal_bool : string -> option IRI -> option string -> bool)
    (set_iter : list node -> list node) (g : graph) (fuel : nat) :
  acyclic g -> follows_links Collection_items -> set_semantics set_iter ->
  List.length g < fuel ->
  exists ts,
    gather_terms Collection_items Literal_bool set_iter fuel g = Some ts
    /\ forall e, In e ts -> deduplicated e.
Proof.
  intros Hac Hh Hset Hlen.
  destruct (@gather_terms_records Collection_items Literal_bool set_iter g fuel
              Hac Hh Hset Hlen) as (ts & Hts & _ & _ & Hrun).
  exists ts. split; [assumption|]. intros e He.
  apply (@run_terms_deduplicated Collection_items Literal_bool fuel g _ _ _
           (Hrun e He)).
  apply default_entry_deduplicated.
Qed.

Lemma mixed_acyclic : acyclic mixed.
Proof.
  apply ranked_acyclic with mixed_rank. vm_compute. reflexivity.
Qed.

Lemma records_are_deduplicated_witness :
  exists ts,
    gather_terms rdflib_items plain_bool some_order 30 mixed = Some ts
    /\ forall e, In e ts -> deduplicated e.
Proof.
  apply (@records_are_deduplicated rdflib_items plain_bool some_order mixed 30).
  - exact mixed_acyclic.
  - exact rdflib_items_follows_links.
  - exact some_order_ok.
  - vm_compute. lia.
Defined.

(** Each record is what the loop body leaves after running on the terms of
    its resource, which are all the listed terms with that node. *)
Lemma gather_terms_record_runs
    (Collection_items : graph -> node -> list node * bool)
    (Literal_bool : string -> option IRI -> option string -> bool)
    (set_iter : list node -> list node) (g : graph) (fuel : nat) :
  acyclic g -> follows_links Collection_items -> set_semantics set_iter ->
  List.length g < fuel ->
  exists ts,
    gather_terms Collection_items Literal_bool set_iter fuel g = Some ts
    /\ forall e, In e ts ->
         exists tsk,
           run_terms Collection_items Literal_bool fuel g tsk
             (default_entry (iri e)) = Some e
           /\ tsk <> [] /\ NoDup tsk
           /\ (forall t, In t tsk <->
                         In t (discover_terms set_iter g)
                         /\ snd t = URIRef (iri e))
           /\ (forall cat, In cat (types e) <-> In cat (map fst tsk)).
Proof.
  intros Hac Hh Hset Hlen.
  destruct (@gather_terms_records Collection_items Literal_bool set_iter g fuel
              Hac Hh Hset Hlen) as (ts & Hts & _ & Hiri & Hrun).
  exists ts. split; [assumption|]. intros e He.
  exists (filter (fun t => String.eqb (str (snd t)) (iri e))
            (discover_terms set_iter g)).
  split; [apply Hrun; assumption|]. split; [|split; [|split]].
  - assert (Hi : In (iri e) (map iri ts)) by (apply in_map; assumption).
    apply Hiri in Hi. destruct Hi as [cat Hcat]. intros Heq.
    assert (Hin : In (cat, URIRef (iri e))
                    (filter (fun t => String.eqb (str (snd t)) (iri e))
                       (discover_terms set_iter g))).
    { apply (@terms_of_iri set_iter g Hset). simpl. tauto. }
    rewrite Heq in Hin. destruct Hin.
  - apply NoDup_filter. apply (@discover_terms_NoDup set_iter Hset g).
  - intros t. apply (@terms_of_iri set_iter g Hset).
  - intros cat. pose proof (Hrun e He) as Hr.
    apply run_terms_types in Hr. destruct Hr as (_ & Ht & _).
    rewrite Ht. simpl. tauto.
Qed.

(** X7: the labels of a record are exactly the string forms of the literal
    objects of rdfs:label and skos:prefLabel on its resource, the altLabels
    those of skos:altLabel and the comments those of rdfs:comment; an object
    of these predicates that is not a literal is in none of the three. *)
Theorem literal_fields_hold_literals
    (Collection_items : graph -> node -> list node * bool)
    (Literal_bool : string -> option IRI -> option string -> bool)
    (set_iter : list node -> list node) (g : graph) (fuel : nat) :
  acyclic g -> follows_links Collection_items -> set_semantics set_iter ->
  List.length g < fuel ->
  exists ts,
    gather_terms Collection_items Literal_bool set_iter fuel g = Some ts
    /\ forall e, In e ts ->
         let literal_of (p : IRI) (v : string) :=
           exists o, In (T (URIRef (iri e)) p o) g
                     /\ is_Literal o = true /\ str o = v in
         (forall v, In v (labels e) <->
                    literal_of RDFS.label v \/ literal_of SKOS.prefLabel v)
         /\ (forall v, In v (altLabels e) <-> literal_of SKOS.altLabel v)
         /\ (forall v, In v (comments e) <-> literal_of RDFS.comment v).
Proof.
  intros Hac Hh Hset Hlen.
  destruct (@gather_terms_record_runs Collection_items Literal_bool set_iter g
              fuel Hac Hh Hset Hlen) as (ts & Hts & Hrec).
  exists ts. split; [assumption|]. intros e He literal_of.
  destruct (Hrec e He) as (tsk & Hrun & Hne & _ & Htsk & _).
  assert (Hsame : forall t, In t tsk -> snd t = URIRef (iri e)).
  { intros t Ht. apply Htsk in Ht. tauto. }
  destruct (@run_terms_annotations Collection_items Literal_bool fuel g
              (URIRef (iri e)) tsk Hsame _ _ Hrun) as (_ & Hl & Hc).
  pose proof (@run_terms_other_fields Collection_items Literal_bool fuel g
                (URIRef (iri e)) tsk Hsame _ _ Hrun) as Hf.
  cbv zeta in Hf. destruct Hf as (Hal & _).
  assert (Hone : forall p v,
            In v (get_literals_for_pred g (URIRef (iri e)) [p]) <-> literal_of p v).
  { intros p v. rewrite get_literals_In. unfold literal_of. split.
    - intros (p' & o & [<-|[]] & H). eauto.
    - intros [o H]. exists p, o. simpl. tauto. }
  split; [|split].
  - intros v. rewrite Hl, get_literals_In. simpl. unfold literal_of. split.
    + intros [[]|[_ (p & o & [<-|[<-|[]]] & H)]]; [left|right]; eauto.
    + intros [[o H]|[o H]]; right; (split; [assumption|]).
      * exists RDFS.label, o. tauto.
      * exists SKOS.prefLabel, o. tauto.
  - intros v. rewrite Hal, Hone. simpl. tauto.
  - intros v. rewrite Hc, Hone. simpl. tauto.
Qed.

Lemma literal_fields_hold_literals_witness :
  exists ts,
    gather_terms rdflib_items plain_bool some_order 30 mixed = Some ts
    /\ forall e, In e ts ->
         forall v, In v (comments e) <->
                   exists o, In (T (URIRef (iri e)) RDFS.comment o) mixed
                             /\ is_Literal o = true /\ str o = v.
Proof.
  destruct (@literal_fields_hold_literals rdflib_items plain_bool some_order
              mixed 30) as (ts & Hts & H).
  - exact mixed_acyclic.
  - exact rdflib_items_follows_links.
  - exact some_order_ok.
  - vm_compute. lia.
  - exists ts. split; [assumption|]. intros e He.
    apply (proj2 (proj2 (H e He))).
Defined.

(** X8: domains, ranges, subPropertyOf and inverseOf of a record are filled
    only when the record holds a property role, and then with the string
    forms of all objects of the predicate, anonymous ones included (their
    identifier, not a summary); propertyCharacteristics is the
    characteristics list of the resource when the record holds a property
    role and empty otherwise, whatever capability classes type the
    resource. *)
Theorem property_fields_need_property_role
    (Collection_items : graph -> node -> list node * bool)
    (Literal_bool : string -> option IRI -> option string -> bool)
    (set_iter : list node -> list node) (g : graph) (fuel : nat) :
  acyclic g -> follows_links Collection_items -> set_semantics set_iter ->
  List.length g < fuel ->
  exists ts,
    gather_terms Collection_items Literal_bool set_iter fuel g = Some ts
    /\ forall e, In e ts ->
         let filled (field : entry -> list string) (p : IRI) :=
           forall v, In v (field e) <->
                     property_record e = true /\ In v (object_strings g e p) in
         filled domains RDFS.domain
         /\ filled ranges RDFS.range
         /\ filled subPropertyOf RDFS.subPropertyOf
         /\ filled inverseOf OWL.inverseOf
         /\ propertyCharacteristics e =
            (if property_record e
             then extract_property_characteristics g (URIRef (iri e))
             else []).
Proof.
  intros Hac Hh Hset Hlen.
  destruct (@gather_terms_record_runs Collection_items Literal_bool set_iter g
              fuel Hac Hh Hset Hlen) as (ts & Hts & Hrec).
  exists ts. split; [assumption|]. intros e He filled.
  destruct (Hrec e He) as (tsk & Hrun & _ & _ & Htsk & Htypes).
  assert (Hsame : forall t, In t tsk -> snd t = URIRef (iri e)).
  { intros t Ht. apply Htsk in Ht. tauto. }
  pose proof (@run_terms_other_fields Collection_items Literal_bool fuel g
                (URIRef (iri e)) tsk Hsame _ _ Hrun) as Hf.
  cbv zeta in Hf. destruct Hf as (_ & Hdo & Hra & Hsp & Hin & Hch & _).
  assert (Hprop : existsb is_property_role (map fst tsk) = property_record e).
  { unfold property_record. apply existsb_same_members.
    intros c. symmetry. apply Htypes. }
  unfold filled, object_strings.
  split; [|split; [|split; [|split]]].
  - intros v. rewrite (Hdo v), Hprop. simpl. tauto.
  - intros v. rewrite (Hra v), Hprop. simpl. tauto.
  - intros v. rewrite (Hsp v), Hprop. simpl. tauto.
  - intros v. rewrite (Hin v), Hprop. simpl. tauto.
  - rewrite Hch, Hprop. reflexivity.
Qed.

Lemma property_fields_need_property_role_witness :
  exists ts,
    gather_terms rdflib_items plain_bool some_order 30 mixed = Some ts
    /\ forall e, In e ts ->
         propertyCharacteristics e =
         (if property_record e
          then extract_property_characteristics mixed (URIRef (iri e))
          else []).
Proof.
  destruct (@property_fields_need_property_role rdflib_items plain_bool
              some_order mixed 30) as (ts & Hts & H).
  - exact mixed_acyclic.
  - exact rdflib_items_follows_links.
  - exact some_order_ok.
  - vm_compute. lia.
  - exists ts. split; [assumption|]. intros e He.
    apply (proj2 (proj2 (proj2 (proj2 (H e He))))).
Defined.

Lemma NoDup_constant (A : Type) (a : A) (l : list A) :
  NoDup l -> (forall x, In x l -> x = a) -> l <> [] -> l = [a].
Proof.
  intros Hnd Hall Hne. destruct l as [|x l]; [congruence|].
  assert (Hx : x = a) by (apply Hall; left; reflexivity). subst x.
  destruct l as [|y l]; [reflexivity|].
  assert (Hy : y = a) by (apply Hall; right; left; reflexivity). subst y.
  inversion Hnd as [|? ? Hnot _]; subst. exfalso. apply Hnot. left. reflexivity.
Qed.

(** X9: the Individual role never shares a record: a record that holds it
    holds no other role, and its individualTypes are the string forms of all
    rdf:type objects of the resource, in order; every other record has empty
    individualTypes, and a record without the Class role has empty subClassOf
    and equivalentClass. *)
Theorem individuals_stand_alone
    (Collection_items : graph -> node -> list node * bool)
    (Literal_bool : string -> option IRI -> option string -> bool)
    (set_iter : list node -> list node) (g : graph) (fuel : nat) :
  acyclic g -> follows_links Collection_items -> set_semantics set_iter ->
  List.length g < fuel ->
  exists ts,
    gather_terms Collection_items Literal_bool set_iter fuel g = Some ts
    /\ forall e, In e ts ->
         (In "Individual" (types e) ->
          types e = ["Individual"]
          /\ individualTypes e = object_strings g e RDF.type)
         /\ (~ In "Individual" (types e) -> individualTypes e = [])
         /\ (~ In "Class" (types e) ->
             subClassOf e = [] /\ equivalentClass e = []).
Proof.
  intros Hac Hh Hset Hlen.
  destruct (@gather_terms_record_runs Collection_items Literal_bool set_iter g
              fuel Hac Hh Hset Hlen) as (ts & Hts & Hrec).
  exists ts. split; [assumption|]. intros e He.
  destruct (Hrec e He) as (tsk & Hrun & Hne & Hnd & Htsk & Htypes).
  assert (Hsame : forall t, In t tsk -> snd t = URIRef (iri e)).
  { intros t Ht. apply Htsk in Ht. tauto. }
  split; [|split].
  - intros Hind. apply Htypes in Hind. apply in_map_iff in Hind.
    destruct Hind as [[c s] [Hc Hin]]. simpl in Hc. subst c.
    pose proof (Hsame _ Hin) as Hs. simpl in Hs. subst s.
    apply Htsk in Hin. destruct Hin as [Hin _].
    apply (@discover_terms_In set_iter Hset g) in Hin.
    destruct Hin as [Hin|(_ & _ & _ & Hno)].
    { apply (@declared_terms_In set_iter Hset g) in Hin.
      destruct Hin as [_ [[H _]|[[H _]|[[H _]|[H _]]]]]; discriminate H. }
    assert (Hall : forall t, In t tsk -> t = ("Individual", URIRef (iri e))).
    { intros [c s] Ht. pose proof (Hsame _ Ht) as Hs. simpl in Hs. subst s.
      apply Htsk in Ht. destruct Ht as [Ht _].
      apply (@discover_terms_In set_iter Hset g) in Ht.
      destruct Ht as [Ht|(-> & _)]; [destruct (Hno c Ht)|reflexivity]. }
    rewrite (NoDup_constant Hnd Hall Hne) in Hrun. cbn [run_terms] in Hrun.
    destruct (process_term _ _ fuel g "Individual" (URIRef (iri e))
                (default_entry (iri e))) as [e1|] eqn:H1; [|discriminate].
    injection Hrun as ->.
    destruct (process_term_fields _ _ _ _ _ _ _ H1) as (_ & Ht & _).
    destruct (process_term_other_fields _ _ _ _ _ _ _ H1)
      as (_ & _ & _ & _ & _ & _ & Hit).
    split; [rewrite Ht; reflexivity|]. rewrite Hit. reflexivity.
  - intros Hno.
    pose proof (@run_terms_other_fields Collection_items Literal_bool fuel g
                  (URIRef (iri e)) tsk Hsame _ _ Hrun) as Hf.
    cbv zeta in Hf. destruct Hf as (_ & _ & _ & _ & _ & _ & Hit).
    rewrite Hit; [reflexivity|].
    intros t Ht Hc. apply Hno. apply Htypes. rewrite <- Hc.
    apply in_map. assumption.
  - intros Hno.
    destruct (@run_terms_no_class Collection_items Literal_bool fuel g tsk)
      with (e := default_entry (iri e)) (e' := e) as [H1 H2];
      [|assumption|split; assumption].
    intros t Ht Hc. apply Hno. apply Htypes. rewrite <- Hc.
    apply in_map. assumption.
Qed.

Lemma individuals_stand_alone_witness :
  exists ts,
    gather_terms rdflib_items plain_bool some_order 30 mixed = Some ts
    /\ forall e, In e ts ->
         In "Individual" (types e) ->
         types e = ["Individual"]
         /\ individualTypes e = object_strings mixed e RDF.type.
Proof.
  destruct (@individuals_stand_alone rdflib_items plain_bool some_order
              mixed 30) as (ts & Hts & H).
  - exact mixed_acyclic.
  - exact rdflib_items_follows_links.
  - exact some_order_ok.
  - vm_compute. lia.
  - exists ts. split; [assumption|]. intros e He. apply (proj1 (H e He)).
Defined.

(** ** The order of roles and of records *)

Lemma StronglySorted_app (A : Type) (R : A -> A -> Prop) (l1 l2 : list A) :
  StronglySorted R l1 -> StronglySorted R l2 ->
  (forall a b, In a l1 -> In b l2 -> R a b) ->
  StronglySorted R (l1 ++ l2).
Proof.
  induction l1 as [|x l1 IH]; intros H1 H2 H12; simpl; [assumption|].
  inversion H1 as [|? ? Hs Hf]; subst. constructor.
  - apply IH; [assumption|assumption|].
    intros a b Ha Hb. apply H12; [right; assumption|assumption].
  - apply Forall_app. split; [assumption|].
    apply Forall_forall. intros b Hb. apply H12; [left; reflexivity|assumption].
Qed.

Lemma StronglySorted_filter_keeps (A : Type) (R : A -> A -> Prop)
    (f : A -> bool) (l : list A) :
  StronglySorted R l -> StronglySorted R (filter f l).
Proof.
  induction 1 as [|x l Hs IH Hf]; simpl; [constructor|].
  destruct (f x); [|assumption]. constructor; [assumption|].
  apply Forall_forall. intros y Hy. apply filter_In in Hy.
  rewrite Forall_forall in Hf. apply Hf. tauto.
Qed.

Lemma StronglySorted_map_strict (A : Type) (rank : A -> nat) (l : list A) :
  StronglySorted (fun a b => rank a <= rank b) l -> NoDup l ->
  (forall a b, In a l -> In b l -> rank a = rank b -> a = b) ->
  StronglySorted (fun a b => rank a < rank b) l.
Proof.
  induction 1 as [|x l Hs IH Hf]; intros Hnd Hinj; constructor.
  - inversion Hnd; subst. apply IH; [assumption|].
    intros a b Ha Hb. apply Hinj; right; assumption.
  - inversion Hnd as [|? ? Hnot _]; subst.
    rewrite Forall_forall in *. intros y Hy.
    specialize (Hf y Hy).
    destruct (Nat.eq_dec (rank x) (rank y)) as [Heq|Hne]; [|lia].
    apply Hinj in Heq; [subst y; contradiction|left; reflexivity|right; assumption].
Qed.

Lemma role_rank_injective (a b : string) :
  In a ["Class"; "ObjectProperty"; "DatatypeProperty"; "AnnotationProperty";
        "Individual"] ->
  In b ["Class"; "ObjectProperty"; "DatatypeProperty"; "AnnotationProperty";
        "Individual"] ->
  role_rank a = role_rank b -> a = b.
Proof.
  intros Ha Hb. simpl in Ha, Hb.
  repeat (destruct Ha as [<-|Ha]; [|]); try destruct Ha;
    repeat (destruct Hb as [<-|Hb]; [|]); try destruct Hb;
    vm_compute; intros H; try reflexivity; discriminate H.
Qed.

Lemma fold_add_missing_sorted (cat : string) (cond : node -> bool)
    (l : list node) :
  forall terms,
    StronglySorted (fun t u : term => role_rank (fst t) <= role_rank (fst u)) terms ->
    (forall t, In t terms -> role_rank (fst t) <= role_rank cat) ->
    StronglySorted (fun t u : term => role_rank (fst t) <= role_rank (fst u))
      (fold_left (add_missing cat cond) l terms)
    /\ (forall t, In t (fold_left (add_missing cat cond) l terms) ->
                  role_rank (fst t) <= role_rank cat).
Proof.
  induction l as [|s l IH]; intros terms Hs Hle; simpl; [tauto|].
  apply IH; unfold add_missing; destruct (cond s); try assumption;
    destruct (in_terms s terms); try assumption.
  - apply StronglySorted_app; [assumption|repeat constructor|].
    intros a b Ha [<-|[]]. simpl. apply Hle. assumption.
  - intros t Ht. apply in_app_or in Ht.
    destruct Ht as [Ht|[<-|[]]]; [apply Hle; assumption|simpl; lia].
Qed.

Lemma typed_subjects_cat (set_iter : list node -> list node) (g : graph)
    (cat : string) (cls : IRI) (t : term) :
  In t (typed_subjects set_iter g cat cls) -> fst t = cat.
Proof.
  unfold typed_subjects. intros H. apply in_map_iff in H.
  destruct H as [s [<- _]]. reflexivity.
Qed.

Lemma constant_role_sorted (cat : string) (l : list term) :
  (forall t, In t l -> fst t = cat) ->
  StronglySorted (fun t u : term => role_rank (fst t) <= role_rank (fst u)) l.
Proof.
  induction l as [|x l IH]; intros H; constructor.
  - apply IH. intros t Ht. apply H. right. assumption.
  - apply Forall_forall. intros y Hy.
    rewrite (H x (or_introl eq_refl)), (H y (or_intror Hy)). lia.
Qed.

(** The list of terms goes up in the order of the roles. *)
Lemma discover_terms_sorted (set_iter : list node -> list node) (g : graph) :
  StronglySorted (fun t u : term => role_rank (fst t) <= role_rank (fst u))
    (discover_terms set_iter g).
Proof.
  rewrite discover_terms_eq.
  assert (Hrank : forall cat cls t,
            In t (typed_subjects set_iter g cat cls) ->
            role_rank (fst t) = role_rank cat).
  { intros cat cls t Ht. apply typed_subjects_cat in Ht. congruence. }
  destruct (@fold_add_missing_sorted "Class" (usage_cond g)
              (set_iter (all_subjects g))
              (typed_subjects set_iter g "Class" OWL.Class)) as [Hc1 Hc2].
  { apply constant_role_sorted with "Class". intros t. apply typed_subjects_cat. }
  { intros t Ht. rewrite (Hrank _ _ _ Ht). lia. }
  apply fold_add_missing_sorted.
  - apply StronglySorted_app; [assumption| |].
    + apply StronglySorted_app;
        [apply constant_role_sorted with "ObjectProperty";
         intros t; apply typed_subjects_cat| |].
      * apply StronglySorted_app;
          [apply constant_role_sorted with "DatatypeProperty";
           intros t; apply typed_subjects_cat
          |apply constant_role_sorted with "AnnotationProperty";
           intros t; apply typed_subjects_cat|].
        intros a b Ha Hb. rewrite (Hrank _ _ _ Ha), (Hrank _ _ _ Hb).
        vm_compute. lia.
      * intros a b Ha Hb. rewrite (Hrank _ _ _ Ha).
        apply in_app_or in Hb. destruct Hb as [Hb|Hb];
          rewrite (Hrank _ _ _ Hb); vm_compute; lia.
    + intros a b Ha Hb. apply Hc2 in Ha.
      apply in_app_or in Hb. destruct Hb as [Hb|Hb];
        [|apply in_app_or in Hb; destruct Hb as [Hb|Hb]];
        rewrite (Hrank _ _ _ Hb); vm_compute in Ha |- *; lia.
  - intros t Ht. apply in_app_or in Ht. destruct Ht as [Ht|Ht].
    + apply Hc2 in Ht. vm_compute in Ht |- *. lia.
    + apply in_app_or in Ht. destruct Ht as [Ht|Ht];
        [|apply in_app_or in Ht; destruct Ht as [Ht|Ht]];
        rewrite (Hrank _ _ _ Ht); vm_compute; lia.
Qed.

Lemma extend_new_fresh (l : list string) :
  forall acc, NoDup (acc ++ l) -> extend_new l acc = acc ++ l.
Proof.
  unfold extend_new. induction l as [|x l IH]; intros acc Hnd; simpl.
  - rewrite app_nil_r. reflexivity.
  - unfold append_new at 2.
    destruct (in_dec string_dec x acc) as [Hin|Hin].
    + apply NoDup_remove_2 in Hnd. exfalso. apply Hnd.
      apply in_or_app. left. assumption.
    + rewrite IH; rewrite <- app_assoc; [reflexivity|assumption].
Qed.

Lemma run_terms_types_eq
    (Collection_items : graph -> node -> list node * bool)
    (Literal_bool : string -> option IRI -> option string -> bool)
    (fuel : nat) (g : graph) (ts : list term) :
  forall e e',
    run_terms Collection_items Literal_bool fuel g ts e = Some e' ->
    types e' = extend_new (map fst ts) (types e).
Proof.
  induction ts as [|[c n] ts IH]; intros e e' H; simpl in H.
  - injection H as <-. reflexivity.
  - destruct (process_term _ _ fuel g c n e) as [e1|] eqn:H1; [|discriminate].
    apply process_term_fields in H1. destruct H1 as (_ & Ht & _).
    rewrite (IH _ _ H), Ht. reflexivity.
Qed.

Lemma NoDup_map_fst_same_snd (n : node) (l : list term) :
  NoDup l -> (forall t, In t l -> snd t = n) -> NoDup (map fst l).
Proof.
  induction 1 as [|[c m] l Hnot Hnd IH]; intros Hsame; simpl; constructor.
  - intros Hin. apply in_map_iff in Hin. destruct Hin as [[c' m'] [Hc Hin]].
    simpl in Hc. subst c'. apply Hnot.
    assert (Hm : m = n) by (apply (Hsame (c, m)); left; reflexivity).
    assert (Hm' : m' = n) by (apply (Hsame (c, m')); right; assumption).
    subst m m'. assumption.
  - apply IH. intros t Ht. apply Hsame. right. assumption.
Qed.

Lemma StronglySorted_map_fst (l : list term) :
  StronglySorted (fun t u : term => role_rank (fst t) <= role_rank (fst u)) l ->
  StronglySorted (fun a b => role_rank a <= role_rank b) (map fst l).
Proof.
  induction 1 as [|x l Hs IH Hf]; simpl; constructor; [assumption|].
  rewrite Forall_forall in *. intros c Hc. apply in_map_iff in Hc.
  destruct Hc as [t [<- Ht]]. apply Hf. assumption.
Qed.

(** X10: the roles of a record come in a fixed order, whatever the order in
    which the graph and the sets yield their elements: Class first, then
    ObjectProperty, DatatypeProperty, AnnotationProperty, and Individual. *)
Theorem types_in_role_order
    (Collection_items : graph -> node -> list node * bool)
    (Literal_bool : string -> option IRI -> option string -> bool)
    (set_iter : list node -> list node) (g : graph) (fuel : nat) :
  acyclic g -> follows_links Collection_items -> set_semantics set_iter ->
  List.length g < fuel ->
  exists ts,
    gather_terms Collection_items Literal_bool set_iter fuel g = Some ts
    /\ forall e, In e ts ->
         StronglySorted (fun a b => role_rank a < role_rank b) (types e).
Proof.
  intros Hac Hh Hset Hlen.
  destruct (@gather_terms_records Collection_items Literal_bool set_iter g fuel
              Hac Hh Hset Hlen) as (ts & Hts & _ & _ & Hrun).
  exists ts. split; [assumption|]. intros e He.
  specialize (Hrun e He).
  set (tsk := filter (fun t => String.eqb (str (snd t)) (iri e))
                (discover_terms set_iter g)) in *.
  assert (Hsame : forall t, In t tsk -> snd t = URIRef (iri e)).
  { intros t Ht. apply (@terms_of_iri set_iter g Hset) in Ht. tauto. }
  assert (Hnd : NoDup (map fst tsk)).
  { apply NoDup_map_fst_same_snd with (URIRef (iri e)); [|assumption].
    apply NoDup_filter. apply (@discover_terms_NoDup set_iter Hset g). }
  apply run_terms_types_eq in Hrun. simpl in Hrun.
  rewrite (extend_new_fresh (map fst tsk) [] Hnd) in Hrun. simpl in Hrun.
  rewrite Hrun. apply StronglySorted_map_strict; [|assumption|].
  - apply StronglySorted_map_fst. apply StronglySorted_filter_keeps.
    apply discover_terms_sorted.
  - assert (Hknown : forall c, In c (map fst tsk) ->
              In c ["Class"; "ObjectProperty"; "DatatypeProperty";
                    "AnnotationProperty"; "Individual"]).
    { intros c Hc. apply in_map_iff in Hc. destruct Hc as [[c' s] [<- Ht]].
      apply (@terms_of_iri set_iter g Hset) in Ht. destruct Ht as [Ht _].
      apply (@discover_terms_In set_iter Hset g) in Ht.
      destruct Ht as [Ht|(-> & _)]; [|simpl; tauto].
      apply (@declared_terms_In set_iter Hset g) in Ht. simpl.
      destruct Ht as [_ [[-> _]|[[-> _]|[[-> _]|[-> _]]]]]; tauto. }
    intros a b Ha Hb. apply role_rank_injective; apply Hknown; assumption.
Qed.

Lemma types_in_role_order_witness :
  exists ts,
    gather_terms rdflib_items plain_bool some_order 30 mixed = Some ts
    /\ forall e, In e ts ->
         StronglySorted (fun a b => role_rank a < role_rank b) (types e).
Proof.
  apply (@types_in_role_order rdflib_items plain_bool some_order mixed 30).
  - exact mixed_acyclic.
  - exact rdflib_items_follows_links.
  - exact some_order_ok.
  - vm_compute. lia.
Defined.

Lemma process_terms_keys_eq
    (Collection_items : graph -> node -> list node * bool)
    (Literal_bool : string -> option IRI -> option string -> bool)
    (fuel : nat) (g : graph) (ts : list term) :
  forall es es',
    process_terms Collection_items Literal_bool fuel g ts es = Some es' ->
    dict_keys es' = extend_new (map (fun t => str (snd t)) ts) (dict_keys es).
Proof.
  induction ts as [|[c n] ts IH]; intros es es' H; simpl in H.
  - injection H as <-. reflexivity.
  - destruct (process_term _ _ fuel g c n _) as [e1|]; [|discriminate].
    rewrite (IH _ _ H), dict_keys_set. reflexivity.
Qed.

(** X11: the records come in the order in which their resources first
    appear in the list of terms (classes typed as such, classes by usage,
    object, datatype and annotation properties, individuals): a resource
    listed under several roles keeps the place of its first role. *)
Theorem records_in_discovery_order
    (Collection_items : graph -> node -> list node * bool)
    (Literal_bool : string -> option IRI -> option string -> bool)
    (set_iter : list node -> list node) (g : graph) (fuel : nat) :
  acyclic g -> follows_links Collection_items -> set_semantics set_iter ->
  List.length g < fuel ->
  exists ts,
    gather_terms Collection_items Literal_bool set_iter fuel g = Some ts
    /\ map iri ts =
       extend_new (map (fun t => str (snd t)) (discover_terms set_iter g)) [].
Proof.
  intros Hac Hh Hset Hlen.
  assert (Htot : forall x, exists r,
             summarize_expression Collection_items Literal_bool fuel g x = Some r).
  { intros x.
    apply (@summarize_total Collection_items Literal_bool g Hac Hh fuel x Hlen). }
  destruct (@process_terms_total Collection_items Literal_bool fuel g
              (discover_terms set_iter g) Htot []) as [es Hes].
  unfold gather_terms. rewrite Hes. exists (dict_values es).
  split; [reflexivity|].
  transitivity (dict_keys es);
    [|exact (@process_terms_keys_eq Collection_items Literal_bool fuel g
               _ _ _ Hes)].
  destruct (@process_terms_keys Collection_items Literal_bool fuel g _ _ _ Hes)
    as [Hnd _].
  specialize (Hnd (NoDup_nil _)).
  unfold dict_values, dict_keys. rewrite map_map. apply map_ext_in.
  intros [k e] Hin. simpl. apply dict_In_get in Hin; [|assumption].
  pose proof (@process_terms_at Collection_items Literal_bool fuel g _ _ _ Hes k)
    as Hat.
  unfold entry_at at 2 in Hat. rewrite Hin in Hat.
  apply run_terms_types in Hat. destruct Hat as [Hi _]. exact Hi.
Qed.

Lemma records_in_discovery_order_witness :
  exists ts,
    gather_terms rdflib_items plain_bool some_order 30 zoo = Some ts
    /\ map iri ts =
       extend_new (map (fun t => str (snd t)) (discover_terms some_order zoo)) [].
Proof.
  apply (@records_in_discovery_order rdflib_items plain_bool some_order zoo 30).
  - exact zoo_acyclic.
  - exact rdflib_items_follows_links.
  - exact some_order_ok.
  - vm_compute. lia.
Defined.

(** ** Several roles, one pass *)

Lemma extend_new_absorbed (xs : list string) :
  forall l, (forall x, In x xs -> In x l) -> extend_new xs l = l.
Proof.
  unfold extend_new. induction xs as [|x xs IH]; intros l H; simpl;
    [reflexivity|].
  unfold append_new at 2.
  destruct (in_dec string_dec x l) as [Hin|Hin].
  - apply IH. intros y Hy. apply H. right. assumption.
  - exfalso. apply Hin. apply H. left. reflexivity.
Qed.

Lemma extend_new_again (xs l : list string) :
  extend_new xs (extend_new xs l) = extend_new xs l.
Proof.
  apply extend_new_absorbed. intros x Hx. apply extend_new_In. tauto.
Qed.

Lemma run_terms_first_seen
    (Collection_items : graph -> node -> list node * bool)
    (Literal_bool : string -> option IRI -> option string -> bool)
    (fuel : nat) (g : graph) (n : node) (ts : list term) :
  (forall t, In t ts -> snd t = n) ->
  forall e e',
    run_terms Collection_items Literal_bool fuel g ts e = Some e' ->
    let once (field : entry -> list string) (xs : list string) :=
      field e' = match ts with [] => field e | _ :: _ => extend_new xs (field e) end in
    let once_if_property (field : entry -> list string) (p : IRI) :=
      field e' = if existsb is_property_role (map fst ts)
                 then extend_new (map str (objects g n p)) (field e)
                 else field e in
    once labels (get_literals_for_pred g n [RDFS.label; SKOS.prefLabel])
    /\ once altLabels (get_literals_for_pred g n [SKOS.altLabel])
    /\ once comments (get_literals_for_pred g n [RDFS.comment])
    /\ once_if_property domains RDFS.domain
    /\ once_if_property ranges RDFS.range
    /\ once_if_property subPropertyOf RDFS.subPropertyOf
    /\ once_if_property inverseOf OWL.inverseOf.
Proof.
  induction ts as [|[c m] ts IH]; intros Hsame e e' H; simpl in H.
  - injection H as <-. simpl. repeat split.
  - destruct (process_term _ _ fuel g c m e) as [e1|] eqn:H1; [|discriminate].
    destruct (process_term_fields _ _ _ _ _ _ _ H1) as (_ & _ & Hl & Hc & _).
    destruct (process_term_other_fields _ _ _ _ _ _ _ H1)
      as (Hal & Hdo & Hra & Hsp & Hin & _).
    assert (Hm : m = n) by (apply (Hsame (c, m)); left; reflexivity). subst m.
    pose proof (IH (fun t Ht => Hsame t (or_intror Ht)) _ _ H) as Hrest.
    cbv zeta in Hrest. destruct Hrest as (Il & Ial & Ic & Ido & Ira & Isp & Iin).
    cbn [map fst existsb].
    rewrite Il, Ial, Ic, Ido, Ira, Isp, Iin, Hl, Hal, Hc, Hdo, Hra, Hsp, Hin.
    destruct ts as [|t ts]; cbn [map existsb];
      destruct (is_property_role c); cbn [orb];
      try destruct (is_property_role (fst t) || existsb is_property_role (map fst ts));
      rewrite ?extend_new_again; repeat split.
Qed.

(** X13: treating a resource under a second or third role adds nothing to
    the fields filled through a membership test: labels, altLabels and
    comments are what a single pass over the literals gives, in order of
    first appearance (rdfs:label objects before skos:prefLabel ones), and
    domains, ranges, subPropertyOf and inverseOf are what a single pass over
    the objects gives when the record holds a property role. *)
Theorem repeated_roles_add_nothing
    (Collection_items : graph -> node -> list node * bool)
    (Literal_bool : string -> option IRI -> option string -> bool)
    (set_iter : list node -> list node) (g : graph) (fuel : nat) :
  acyclic g -> follows_links Collection_items -> set_semantics set_iter ->
  List.length g < fuel ->
  exists ts,
    gather_terms Collection_items Literal_bool set_iter fuel g = Some ts
    /\ forall e, In e ts ->
         let first_seen (xs : list string) := extend_new xs [] in
         let of_property (p : IRI) :=
           if property_record e then first_seen (object_strings g e p) else [] in
         labels e = first_seen (get_literals_for_pred g (URIRef (iri e))
                                  [RDFS.label; SKOS.prefLabel])
         /\ altLabels e = first_seen (get_literals_for_pred g (URIRef (iri e))
                                        [SKOS.altLabel])
         /\ comments e = first_seen (get_literals_for_pred g (URIRef (iri e))
                                       [RDFS.comment])
         /\ domains e = of_property RDFS.domain
         /\ ranges e = of_property RDFS.range
         /\ subPropertyOf e = of_property RDFS.subPropertyOf
         /\ inverseOf e = of_property OWL.inverseOf.
Proof.
  intros Hac Hh Hset Hlen.
  destruct (@gather_terms_record_runs Collection_items Literal_bool set_iter g
              fuel Hac Hh Hset Hlen) as (ts & Hts & Hrec).
  exists ts. split; [assumption|]. intros e He first_seen of_property.
  destruct (Hrec e He) as (tsk & Hrun & Hne & _ & Htsk & Htypes).
  assert (Hsame : forall t, In t tsk -> snd t = URIRef (iri e)).
  { intros t Ht. apply Htsk in Ht. tauto. }
  pose proof (@run_terms_first_seen Collection_items Literal_bool fuel g
                (URIRef (iri e)) tsk Hsame _ _ Hrun) as Hf.
  cbv zeta in Hf. destruct Hf as (Hl & Hal & Hc & Hdo & Hra & Hsp & Hin).
  assert (Hprop : existsb is_property_role (map fst tsk) = property_record e).
  { unfold property_record. apply existsb_same_members.
    intros c. symmetry. apply Htypes. }
  rewrite Hprop in Hdo, Hra, Hsp, Hin.
  unfold of_property, first_seen, object_strings.
  destruct tsk as [|t tsk]; [congruence|].
  rewrite Hl, Hal, Hc, Hdo, Hra, Hsp, Hin.
  destruct (property_record e); repeat split.
Qed.

Lemma repeated_roles_add_nothing_witness :
  exists ts,
    gather_terms rdflib_items plain_bool some_order 30 mixed = Some ts
    /\ forall e, In e ts ->
         labels e = extend_new (get_literals_for_pred mixed (URIRef (iri e))
                                  [RDFS.label; SKOS.prefLabel]) [].
Proof.
  destruct (@repeated_roles_add_nothing rdflib_items plain_bool some_order
              mixed 30) as (ts & Hts & H).
  - exact mixed_acyclic.
  - exact rdflib_items_follows_links.
  - exact some_order_ok.
  - vm_compute. lia.
  - exists ts. split; [assumption|]. intros e He. apply (proj1 (H e He)).
Defined.

(** ** Annotations and the dedicated fields *)

(** C3, as the code has it: the collector's mapping has no entry for
    rdf:type, rdfs:subClassOf, owl:equivalentClass, rdfs:domain, rdfs:range
    and rdfs:subPropertyOf, and for every other predicate of the subject it
    lists the string forms of all its objects.  Labels, comments and the like
    are not excluded: in a record, every label is also listed in the
    annotations under rdfs:label or skos:prefLabel, every alternative label
    under skos:altLabel, every comment under rdfs:comment and every inverse
    under owl:inverseOf. *)
Theorem annotations_skip_structural
    (Collection_items : graph -> node -> list node * bool)
    (Literal_bool : string -> option IRI -> option string -> bool)
    (set_iter : list node -> list node) (g : graph) (fuel : nat) :
  (forall subject k,
     dict_get k (collect_annotations g subject) =
     if structural k then None
     else match objects g subject k with
          | [] => None
          | os => Some (map str os)
          end)
  /\ (forall k,
        structural k = true <->
        In k [RDF.type; RDFS.subClassOf; OWL.equivalentClass; RDFS.domain;
              RDFS.range; RDFS.subPropertyOf])
  /\ (acyclic g -> follows_links Collection_items -> set_semantics set_iter ->
      List.length g < fuel ->
      exists ts,
        gather_terms Collection_items Literal_bool set_iter fuel g = Some ts
        /\ forall e, In e ts ->
             (forall k v,
                listed (annotations e) k v <->
                structural k = false
                /\ exists o, In (T (URIRef (iri e)) k o) g /\ str o = v)
             /\ (forall v, In v (labels e) ->
                   listed (annotations e) RDFS.label v
                   \/ listed (annotations e) SKOS.prefLabel v)
             /\ (forall v, In v (altLabels e) ->
                   listed (annotations e) SKOS.altLabel v)
             /\ (forall v, In v (comments e) ->
                   listed (annotations e) RDFS.comment v)
             /\ (forall v, In v (inverseOf e) ->
                   listed (annotations e) OWL.inverseOf v)).
Proof.
  split; [intros subject k; apply collect_annotations_get|].
  split; [apply structural_spec|].
  intros Hac Hh Hset Hlen.
  destruct (@gather_terms_record_runs Collection_items Literal_bool set_iter g
              fuel Hac Hh Hset Hlen) as (ts & Hts & Hrec).
  exists ts. split; [assumption|]. intros e He.
  destruct (Hrec e He) as (tsk & Hrun & Hne & _ & Hmem & _).
  assert (Hsame : forall t, In t tsk -> snd t = URIRef (iri e)).
  { intros t Ht. apply Hmem in Ht. tauto. }
  destruct (@run_terms_annotations Collection_items Literal_bool fuel g
              (URIRef (iri e)) tsk Hsame _ _ Hrun) as (Ha & Hl & Hc).
  pose proof (@run_terms_other_fields Collection_items Literal_bool fuel g
                (URIRef (iri e)) tsk Hsame _ _ Hrun) as Hf.
  cbv zeta in Hf. destruct Hf as (Hal & _ & _ & _ & Hin & _).
  assert (Hann : forall k v,
            listed (annotations e) k v <->
            listed (collect_annotations g (URIRef (iri e))) k v).
  { intros k v. rewrite Ha. split; [|tauto].
    intros [[vs [H _]]|[_ H]]; [discriminate H|assumption]. }
  split; [|split; [|split; [|split]]].
  - intros k v. rewrite Hann. apply collect_annotations_listed.
  - intros v Hv. apply Hl in Hv. destruct Hv as [[]|[_ Hv]].
    apply get_literals_In in Hv.
    destruct Hv as (p & o & Hp & Ho & _ & Hs).
    destruct Hp as [<-|[<-|[]]]; [left|right]; apply Hann;
      apply collect_annotations_listed; split; try reflexivity; eauto.
  - intros v Hv. apply Hal in Hv. destruct Hv as [[]|[_ Hv]].
    apply get_literals_In in Hv.
    destruct Hv as (p & o & Hp & Ho & _ & Hs).
    destruct Hp as [<-|[]]. apply Hann.
    apply collect_annotations_listed; split; try reflexivity; eauto.
  - intros v Hv. apply Hc in Hv. destruct Hv as [[]|[_ Hv]].
    apply get_literals_In in Hv.
    destruct Hv as (p & o & Hp & Ho & _ & Hs).
    destruct Hp as [<-|[]]. apply Hann.
    apply collect_annotations_listed; split; try reflexivity; eauto.
  - intros v Hv. apply Hin in Hv. destruct Hv as [[]|[_ Hv]].
    apply in_map_iff in Hv. destruct Hv as (o & Hs & Ho).
    apply objects_In in Ho. apply Hann.
    apply collect_annotations_listed; split; try reflexivity; eauto.
Qed.

Lemma annotations_skip_structural_witness :
  exists ts,
    gather_terms rdflib_items plain_bool some_order 30 zoo = Some ts
    /\ forall e, In e ts ->
         (forall v, In v (labels e) ->
            listed (annotations e) RDFS.label v
            \/ listed (annotations e) SKOS.prefLabel v)
         /\ (forall v, In v (inverseOf e) ->
               listed (annotations e) OWL.inverseOf v).
Proof.
  destruct (proj2 (proj2 (@annotations_skip_structural rdflib_items plain_bool
                            some_order zoo 30)))
    as (ts & Hts & H).
  - exact zoo_acyclic.
  - exact rdflib_items_follows_links.
  - exact some_order_ok.
  - vm_compute. lia.
  - exists ts. split; [assumption|].
    intros e He. destruct (H e He) as (_ & Hl & _ & _ & Hi).
    split; assumption.
Defined.

(** C3 as stated fails: the label of a class is held in the labels field of
    its record and once more in the annotations, and so is the inverse of a
    property. *)
Lemma annotations_repeat_structural_fields :
  exists ts e p,
    gather_terms rdflib_items plain_bool some_order 30 zoo = Some ts
    /\ In e ts /\ In p ts
    /\ labels e = ["dog"]
    /\ dict_get RDFS.label (annotations e) = Some ["dog"]
    /\ inverseOf p = ["http://example.org/owns"]
    /\ dict_get OWL.inverseOf (annotations p) = Some ["http://example.org/owns"].
Proof.
  eexists. eexists. eexists.
  split; [vm_compute; reflexivity|].
  split; [left; reflexivity|].
  split; [right; right; left; reflexivity|].
  repeat split; vm_compute; reflexivity.
Qed.

(** ** The command line *)

(** C9: when parsing raises, the exception reaches the top level, the
    process ends with a non-zero status and no file has been written or even
    opened; a file is written or opened only in a run where parsing
    succeeded and the gatherer returned, and a written file holds that
    result; without an input path the usage message is printed and the
    status is 1. *)
Theorem main_failures
    (Collection_items : graph -> node -> list node * bool)
    (Literal_bool : string -> option IRI -> option string -> bool)
    (set_iter : list node -> list node)
    (parse : string -> option graph)
    (try_write : string -> document -> write_outcome)
    (fuel : nat) (argv : list string) :
  (forall prog infile more,
     argv = prog :: infile :: more -> parse infile = None ->
     main Collection_items Literal_bool set_iter parse try_write fuel argv
     = ([Stdout [Txt "Parsing:"; Txt infile]], Raised)
     /\ exit_status Raised = Some 1
     /\ forall path,
          (forall doc,
             ~ In (WriteFile path doc)
                 (fst (main Collection_items Literal_bool set_iter parse
                         try_write fuel argv)))
          /\ ~ In (PartialFile path)
                  (fst (main Collection_items Literal_bool set_iter parse
                          try_write fuel argv)))
  /\ (forall path,
        (exists doc,
           In (WriteFile path doc)
             (fst (main Collection_items Literal_bool set_iter parse try_write
                     fuel argv)))
        \/ In (PartialFile path)
             (fst (main Collection_items Literal_bool set_iter parse try_write
                     fuel argv)) ->
        exists prog infile more g ts,
          argv = prog :: infile :: more
          /\ parse infile = Some g
          /\ gather_terms Collection_items Literal_bool set_iter fuel g = Some ts
          /\ forall doc,
               In (WriteFile path doc)
                 (fst (main Collection_items Literal_bool set_iter parse try_write
                         fuel argv)) ->
               doc = Document infile (List.length ts) ts)
  /\ (List.length argv < 2 ->
      main Collection_items Literal_bool set_iter parse try_write fuel argv
      = ([Stdout [Txt "Usage: python3 extract_full_symbol_table.py /path/to/ontology.ttl [out.json]"]],
         SysExit 1)
      /\ exit_status (SysExit 1) = Some 1).
Proof.
  split; [|split].
  - intros prog infile more -> Hp. unfold main. rewrite Hp.
    split; [reflexivity|]. split; [reflexivity|].
    intros path. split; [intros doc|]; intros [H|[]]; discriminate H.
  - intros path H. unfold main in *.
    destruct argv as [|prog [|infile more]];
      try (exfalso; simpl in H; destruct H as [[doc [H|[]]]|[H|[]]];
           discriminate H).
    destruct (parse infile) as [g|] eqn:Hp;
      [|exfalso; simpl in H; destruct H as [[doc [H|[]]]|[H|[]]];
        discriminate H].
    destruct (gather_terms _ _ _ fuel g) as [ts|] eqn:Hg;
      [|exfalso; simpl in H; destruct H as [[doc [H|[H|[]]]]|[H|[H|[]]]];
        discriminate H].
    exists prog, infile, more, g, ts.
    split; [reflexivity|]. split; [exact Hp|]. split; [exact Hg|].
    intros doc Hd. destruct (try_write _ _); simpl in Hd.
    + destruct Hd as [Hd|[Hd|[Hd|[Hd|[]]]]]; try discriminate Hd.
      injection Hd as _ <-. reflexivity.
    + destruct Hd as [Hd|[Hd|[]]]; discriminate Hd.
    + destruct Hd as [Hd|[Hd|[Hd|[]]]]; discriminate Hd.
  - intros Hlen. split; [|reflexivity].
    destruct argv as [|prog [|infile more]]; try reflexivity.
    simpl in Hlen. lia.
Qed.

Lemma main_failures_witness :
  (main rdflib_items plain_bool some_order (fun _ => None) always_written 5
     ["extractor"; "broken.ttl"]
   = ([Stdout [Txt "Parsing:"; Txt "broken.ttl"]], Raised)
   /\ exit_status Raised = Some 1
   /\ forall path,
        (forall doc,
           ~ In (WriteFile path doc)
               (fst (main rdflib_items plain_bool some_order (fun _ => None)
                       always_written 5 ["extractor"; "broken.ttl"])))
        /\ ~ In (PartialFile path)
                (fst (main rdflib_items plain_bool some_order (fun _ => None)
                        always_written 5 ["extractor"; "broken.ttl"])))
  /\ (main rdflib_items plain_bool some_order (fun _ => None) always_written 5
        ["extractor"]
      = ([Stdout [Txt "Usage: python3 extract_full_symbol_table.py /path/to/ontology.ttl [out.json]"]],
         SysExit 1)
      /\ exit_status (SysExit 1) = Some 1)
  /\ (exists prog infile more g ts,
        ["extractor"; "zoo.ttl"] = prog :: infile :: more
        /\ (fun _ : string => Some zoo) infile = Some g
        /\ gather_terms rdflib_items plain_bool some_order 30 g = Some ts
        /\ forall doc,
             In (WriteFile "symbol_table_full.json" doc)
               (fst (main rdflib_items plain_bool some_order (fun _ => Some zoo)
                       always_written 30 ["extractor"; "zoo.ttl"])) ->
             doc = Document infile (List.length ts) ts).
Proof.
  split; [|split].
  - apply (proj1 (@main_failures rdflib_items plain_bool some_order
                    (fun _ => None) always_written 5 ["extractor"; "broken.ttl"])
             "extractor" "broken.ttl" []); reflexivity.
  - apply (proj2 (proj2 (@main_failures rdflib_items plain_bool some_order
                           (fun _ => None) always_written 5 ["extractor"]))).
    simpl. lia.
  - apply (proj1 (proj2 (@main_failures rdflib_items plain_bool some_order
                           (fun _ => Some zoo) always_written 30
                           ["extractor"; "zoo.ttl"]))
             "symbol_table_full.json").
    left. eexists. vm_compute. right. right. left. reflexivity.
Defined.

(** X12: for an input that parses to a graph without cycles, the run
    prints its two progress lines and then opens and writes one file: the
    second argument when there is one and symbol_table_full.json otherwise,
    further arguments being ignored.  When the write completes, the file
    holds the input path, the records of the gatherer and their number, the
    closing line is printed and the run returns with status 0.  When the
    file cannot be opened, nothing is written and the run ends with an
    uncaught exception, status 1, after the two progress lines; when the
    dump raises, it ends the same way, leaving an incomplete file. *)
Theorem main_writes_the_table
    (Collection_items : graph -> node -> list node * bool)
    (Literal_bool : string -> option IRI -> option string -> bool)
    (set_iter : list node -> list node)
    (parse : string -> option graph)
    (try_write : string -> document -> write_outcome) (fuel : nat)
    (prog infile : string) (more : list string) (g : graph) :
  parse infile = Some g ->
  acyclic g -> follows_links Collection_items -> set_semantics set_iter ->
  List.length g < fuel ->
  exists ts,
    gather_terms Collection_items Literal_bool set_iter fuel g = Some ts
    /\ (try_write (hd "symbol_table_full.json" more)
          (Document infile (List.length ts) ts) = Written ->
        main Collection_items Literal_bool set_iter parse try_write fuel
          (prog :: infile :: more)
        = ([Stdout [Txt "Parsing:"; Txt infile];
            Stdout [Txt "Graph parsed. Triples:"; Num (List.length g)];
            WriteFile (hd "symbol_table_full.json" more)
              (Document infile (List.length ts) ts);
            Stdout [Txt "Wrote"; Txt (hd "symbol_table_full.json" more);
                    Txt "with"; Num (List.length ts); Txt "term entries."]],
           Returned))
    /\ (try_write (hd "symbol_table_full.json" more)
          (Document infile (List.length ts) ts) = NotOpened ->
        main Collection_items Literal_bool set_iter parse try_write fuel
          (prog :: infile :: more)
        = ([Stdout [Txt "Parsing:"; Txt infile];
            Stdout [Txt "Graph parsed. Triples:"; Num (List.length g)]],
           Raised))
    /\ (try_write (hd "symbol_table_full.json" more)
          (Document infile (List.length ts) ts) = Interrupted ->
        main Collection_items Literal_bool set_iter parse try_write fuel
          (prog :: infile :: more)
        = ([Stdout [Txt "Parsing:"; Txt infile];
            Stdout [Txt "Graph parsed. Triples:"; Num (List.length g)];
            PartialFile (hd "symbol_table_full.json" more)],
           Raised))
    /\ exit_status Returned = Some 0
    /\ exit_status Raised = Some 1.
Proof.
  intros Hp Hac Hh Hset Hlen.
  destruct (@gather_terms_records Collection_items Literal_bool set_iter g fuel
              Hac Hh Hset Hlen) as (ts & Hts & _).
  exists ts. split; [assumption|].
  assert (Hhd : match more with o :: _ => o | [] => "symbol_table_full.json" end
                = hd "symbol_table_full.json" more)
    by (destruct more; reflexivity).
  repeat split; intros Hw; unfold main; rewrite Hp, Hts, Hhd, Hw; reflexivity.
Qed.

Lemma main_writes_the_table_witness :
  exists ts,
    gather_terms rdflib_items plain_bool some_order 30 zoo = Some ts
    /\ main rdflib_items plain_bool some_order (fun _ => Some zoo) no_such_dir
         30 ["extractor"; "zoo.ttl"; "zoo.json"; "ignored"]
       = ([Stdout [Txt "Parsing:"; Txt "zoo.ttl"];
           Stdout [Txt "Graph parsed. Triples:"; Num (List.length zoo)];
           WriteFile "zoo.json" (Document "zoo.ttl" (List.length ts) ts);
           Stdout [Txt "Wrote"; Txt "zoo.json";
                   Txt "with"; Num (List.length ts); Txt "term entries."]],
          Returned)
    /\ main rdflib_items plain_bool some_order (fun _ => Some zoo) no_such_dir
         30 ["extractor"; "zoo.ttl"; "no_such_dir/out.json"]
       = ([Stdout [Txt "Parsing:"; Txt "zoo.ttl"];
           Stdout [Txt "Graph parsed. Triples:"; Num (List.length zoo)]],
          Raised)
    /\ main rdflib_items plain_bool some_order (fun _ => Some zoo) disk_full
         30 ["extractor"; "zoo.ttl"]
       = ([Stdout [Txt "Parsing:"; Txt "zoo.ttl"];
           Stdout [Txt "Graph parsed. Triples:"; Num (List.length zoo)];
           PartialFile "symbol_table_full.json"],
          Raised).
Proof.
  destruct (@main_writes_the_table rdflib_items plain_bool some_order
              (fun _ => Some zoo) no_such_dir 30 "extractor" "zoo.ttl"
              ["zoo.json"; "ignored"] zoo eq_refl zoo_acyclic
              rdflib_items_follows_links some_order_ok
              ltac:(vm_compute; lia))
    as (ts & Hts & Hok & _).
  destruct (@main_writes_the_table rdflib_items plain_bool some_order
              (fun _ => Some zoo) no_such_dir 30 "extractor" "zoo.ttl"
              ["no_such_dir/out.json"] zoo eq_refl zoo_acyclic
              rdflib_items_follows_links some_order_ok
              ltac:(vm_compute; lia))
    as (ts1 & Hts1 & _ & Hno & _).
  destruct (@main_writes_the_table rdflib_items plain_bool some_order
              (fun _ => Some zoo) disk_full 30 "extractor" "zoo.ttl"
              [] zoo eq_refl zoo_acyclic
              rdflib_items_follows_links some_order_ok
              ltac:(vm_compute; lia))
    as (ts2 & Hts2 & _ & _ & Hint & _).
  exists ts. split; [exact Hts|].
  split; [exact (Hok eq_refl)|].
  split; [exact (Hno eq_refl)|exact (Hint eq_refl)].
Defined.
